(** * Recipe-Rag-Assistant: ingestion, ingredient parsing and compression index

    A shallow embedding of the Python sources
      - scripts/ingest.py            (module [ingest])
      - scripts/scaledown_client.py  (module [scaledown_client])
      - scripts/compress_recipes.py  (module [compress_recipes])
      - scripts/compress_stats.py and the /compress-status handlers of
        backend/app/main.py          (module [compress_stats])
    together with the part of the Python runtime these sources rely on
    (module [Py]: strings, truthiness, exceptions, the numeric constructors)
    and a backtracking matcher for the regular expressions they compile
    (module [Re]). *)

From Stdlib Require Import ZArith NArith QArith List Bool Lia String Ascii.
From Stdlib Require Import DecimalN DecimalFacts DecimalPos.
From stdpp Require Import base list strings gmap sets.

#[local] Set Warnings "-register-all".
Local Close Scope Q_scope.
Local Open Scope N_scope.

(** ** The Python runtime, as far as the sources use it *)

Module Py.

(** A Python [str] is a sequence of code points. *)
Definition pystr := list N.

(** Literals are written as Rocq strings of ASCII characters. *)
Definition lit (s : string) : pystr :=
  map N_of_ascii (list_ascii_of_string s).

(** Exceptions.  Only the class matters: every handler in the sources is
    [except Exception], which catches all of them. *)
Inductive pyexn :=
| ValueError | TypeError | AttributeError | ZeroDivisionError
| OverflowError | RecursionError | UnicodeEncodeError | UnicodeDecodeError
| JSONDecodeError | BinasciiError | NotImplementedError | OutOfFuel.

(** A computation either returns or raises. *)
Inductive exc (A : Type) :=
| Ret (a : A)
| Raise (e : pyexn).
Arguments Ret {A} a.
Arguments Raise {A} e.

#[export] Instance exc_ret : MRet exc := fun A a => Ret a.
#[export] Instance exc_bind : MBind exc := fun A B f m =>
  match m with
  | Ret a => f a
  | Raise e => Raise e
  end.
#[export] Instance exc_fmap : FMap exc := fun A B f m =>
  match m with
  | Ret a => Ret (f a)
  | Raise e => Raise e
  end.

(** [try: m except Exception: h] *)
Definition try_except {A} (m : exc A) (h : A) : A :=
  match m with
  | Ret a => a
  | Raise _ => h
  end.

Definition returns {A} (m : exc A) : Prop := exists a, m = Ret a.

(** *** Floats

    A float is described by the real number it was rounded from:
    [FNear q] is the IEEE double nearest to the rational [q].  The rational
    is kept in lowest terms, so equal numbers are equal terms. *)
Inductive pyfloat :=
| FNear (q : Q)
| FNegZero
| FInf (negative : bool)
| FNan.

(** The least magnitude that no longer rounds to a finite double. *)
Definition float_overflow : Z := (2 ^ 1024 - 2 ^ 970)%Z.

Definition Qmag_overflows (q : Q) : bool :=
  (float_overflow * Zpos (Qden q) <=? Z.abs (Qnum q))%Z.

(** [float(x)] for an [int] or a [Fraction] [x]: true division, which
    raises when the quotient is out of range. *)
Definition float_of_Q (q : Q) : exc pyfloat :=
  if Qmag_overflows q then Raise OverflowError else Ret (FNear (Qred q)).

(** *** Values *)
Inductive pyval :=
| PNone
| PBool (b : bool)
| PInt (z : Z)
| PFloat (f : pyfloat)
| PStr (s : pystr)
| PList (l : list pyval)
| PDict (d : list (pystr * pyval)).

(** Truthiness, as tested by [if x], [not x] and [x or y]. *)
Definition Qmag_underflows (q : Q) : bool :=
  (Z.abs (Qnum q) * 2 ^ 1075 <=? Zpos (Qden q))%Z.

Definition float_truthy (f : pyfloat) : bool :=
  match f with
  | FNear q => negb (Qmag_underflows q)
  | FNegZero => false
  | FInf _ | FNan => true
  end.

Definition truthy (v : pyval) : bool :=
  match v with
  | PNone => false
  | PBool b => b
  | PInt z => negb (z =? 0)%Z
  | PFloat f => float_truthy f
  | PStr s => match s with [] => false | _ => true end
  | PList l => match l with [] => false | _ => true end
  | PDict d => match d with [] => false | _ => true end
  end.

(** [a or b] *)
Definition py_or (a b : pyval) : pyval := if truthy a then a else b.

(** *** Characters *)

(** [str.isspace] for one character; the same set is stripped by
    [str.strip()] and matched by [\s]. *)
Definition is_space (c : N) : bool :=
  (9 <=? c) && (c <=? 13) || (28 <=? c) && (c <=? 32)
  || (c =? 133) || (c =? 160) || (c =? 5760)
  || (8192 <=? c) && (c <=? 8202)
  || (c =? 8232) || (c =? 8233) || (c =? 8239) || (c =? 8287)
  || (c =? 12288).

(** The decimal digits (category Nd) come in blocks of ten consecutive code
    points; this is the code point of the zero of each block (Unicode 14, the
    table of CPython 3.11). *)
Definition decimal_zeros : list N :=
  [ 48; 1632; 1776; 1984; 2406; 2534; 2662; 2790; 2918; 3046; 3174; 3302;
    3430; 3558; 3664; 3792; 3872; 4160; 4240; 6112; 6160; 6470; 6608; 6784;
    6800; 6992; 7088; 7232; 7248; 42528; 43216; 43264; 43472; 43504; 43600;
    44016; 65296; 66720; 68912; 69734; 69872; 69942; 70096; 70384; 70736;
    70864; 71248; 71360; 71472; 71904; 72016; 72784; 73040; 73120; 92768;
    92864; 93008; 120782; 120792; 120802; 120812; 120822; 123200; 123632;
    125264; 130032 ].

Fixpoint decimal_in (zeros : list N) (c : N) : option N :=
  match zeros with
  | [] => None
  | z :: zeros' =>
      if (z <=? c) && (c <=? z + 9) then Some (c - z)
      else decimal_in zeros' c
  end.

(** The digit value of a character, [None] if it is not a decimal digit. *)
Definition decimal_value (c : N) : option N := decimal_in decimal_zeros c.

(** [\d] *)
Definition is_digit (c : N) : bool :=
  match decimal_value c with Some _ => true | None => false end.

Definition is_upper_ascii (c : N) : bool := (65 <=? c) && (c <=? 90).
Definition is_lower_ascii (c : N) : bool := (97 <=? c) && (c <=? 122).
Definition is_ascii_digit (c : N) : bool := (48 <=? c) && (c <=? 57).

(** [[a-zA-Z]] *)
Definition is_alpha (c : N) : bool := is_lower_ascii c || is_upper_ascii c.

(** Every character of a string is in a class. *)
Abbreviation all p := (Forall (fun c => p c = true)).

(** *** Strings *)

Fixpoint lstrip_by (p : N -> bool) (s : pystr) : pystr :=
  match s with
  | c :: s' => if p c then lstrip_by p s' else s
  | [] => []
  end.

Fixpoint rstrip_by (p : N -> bool) (s : pystr) : pystr :=
  match s with
  | [] => []
  | c :: s' =>
      match rstrip_by p s' with
      | [] => if p c then [] else [c]
      | r => c :: r
      end
  end.

(** [s.strip()] *)
Definition strip (s : pystr) : pystr := rstrip_by is_space (lstrip_by is_space s).

(** [s.strip(ch)] and [s.rstrip(ch)] for a one-character argument *)
Definition strip_char (ch : N) (s : pystr) : pystr :=
  rstrip_by (N.eqb ch) (lstrip_by (N.eqb ch) s).
Definition rstrip_char (ch : N) (s : pystr) : pystr := rstrip_by (N.eqb ch) s.

(** [s.lower()], on the ASCII letters.  The sources lower-case only strings
    that are compared with ASCII literals or are made of ASCII letters. *)
Definition lower_char (c : N) : N := if is_upper_ascii c then c + 32 else c.
Definition lower (s : pystr) : pystr := map lower_char s.

Definition pystr_eqb (a b : pystr) : bool := bool_decide (a = b).

(** [ch in s] for a one-character [ch] *)
Definition contains_char (ch : N) (s : pystr) : bool := existsb (N.eqb ch) s.

Fixpoint starts_with (pre s : pystr) : bool :=
  match pre, s with
  | [], _ => true
  | p :: pre', c :: s' => (p =? c) && starts_with pre' s'
  | _ :: _, [] => false
  end.

(** [sub in s] *)
Fixpoint contains (sub s : pystr) : bool :=
  starts_with sub s ||
  match s with
  | [] => false
  | _ :: s' => contains sub s'
  end.

(** [s[:n]] *)
Definition slice_to (n : nat) (s : pystr) : pystr := take n s.

(** [s.split(ch, 1)] at the first occurrence of [ch], if there is one *)
Fixpoint split_first (ch : N) (s : pystr) : option (pystr * pystr) :=
  match s with
  | [] => None
  | c :: s' =>
      if ch =? c then Some ([], s')
      else match split_first ch s' with
           | Some (a, b) => Some (c :: a, b)
           | None => None
           end
  end.

(** *** Numbers from strings *)

(** Default of [sys.get_int_max_str_digits()]. *)
Definition int_max_str_digits : nat := 4300.

(** A run of digits, a single underscore allowed between two digits:
    the value and the number of digits, if the whole string is such a run. *)
Fixpoint digits_us (s : pystr) (acc : Z) (count : nat) (after_digit : bool)
  : option (Z * nat) :=
  match s with
  | [] => if after_digit then Some (acc, count) else None
  | c :: s' =>
      match decimal_value c with
      | Some d => digits_us s' (10 * acc + Z.of_N d)%Z (S count) true
      | None =>
          if (c =? 95) && after_digit then digits_us s' acc count false
          else None
      end
  end.

Definition split_sign (s : pystr) : bool * pystr :=
  match s with
  | c :: r =>
      if c =? 45 then (true, r)
      else if c =? 43 then (false, r)
      else (false, s)
  | [] => (false, s)
  end.

Definition int_of_digits (s : pystr) : exc Z :=
  match digits_us s 0%Z 0%nat false with
  | Some (v, n) =>
      if (int_max_str_digits <? n)%nat then Raise ValueError else Ret v
  | None => Raise ValueError
  end.

(** [int(s)] *)
Definition int_of_str (s : pystr) : exc Z :=
  let '(neg, r) := split_sign (strip s) in
  v ← int_of_digits r;
  Ret (if neg then (- v)%Z else v).

(** [Fraction(s)] for a string that contains a slash: optional sign,
    numerator, slash, denominator, white space around the whole.  [ingest]
    constructs a fraction only from a string with a slash in it, and with a
    slash the constructor accepts no other syntax. *)
Definition Fraction_of_str (s : pystr) : exc Q :=
  let '(neg, r) := split_sign (strip s) in
  match split_first 47 r with
  | Some (num, den) =>
      n ← int_of_digits num;
      d ← int_of_digits den;
      if (d =? 0)%Z then Raise ZeroDivisionError
      else Ret (Qred ((if neg then - n else n)%Z # Z.to_pos d))
  | None => Raise ValueError
  end.

(** The longest prefix that is a run of digits with underscores between
    digits: value (continuing [acc]), number of digits, and the rest. *)
Fixpoint read_digits (s : pystr) (acc : Z) (count : nat)
  : Z * nat * pystr :=
  match s with
  | [] => (acc, count, s)
  | c :: s' =>
      match decimal_value c with
      | Some d => read_digits s' (10 * acc + Z.of_N d)%Z (S count)
      | None =>
          if (c =? 95) && (0 <? count)%nat
             && match s' with c2 :: _ => is_digit c2 | [] => false end
          then read_digits s' acc count
          else (acc, count, s)
      end
  end.

(** [m * 10^e] as a rational *)
Definition scale10 (m e : Z) : Q :=
  if (0 <=? e)%Z then (m * 10 ^ e)%Z # 1
  else m # Z.to_pos (10 ^ (- e)).

Definition float_of_decimal (neg : bool) (m e : Z) : pyfloat :=
  if (m =? 0)%Z then (if neg then FNegZero else FNear (0 # 1))
  else
    let q := scale10 m e in
    if Qmag_overflows q then FInf neg
    else FNear (Qred (if neg then Qopp q else q)).

Definition is_word (w : string) (s : pystr) : bool :=
  pystr_eqb (lower s) (lit w).

(** [float(s)] for a string: white space, sign, then [inf], [infinity],
    [nan], or digits with an optional fraction and exponent.  A literal out
    of range gives an infinity, it does not raise. *)
Definition float_of_str (s : pystr) : exc pyfloat :=
  let '(neg, r) := split_sign (strip s) in
  if is_word "inf" r || is_word "infinity" r then Ret (FInf neg)
  else if is_word "nan" r then Ret FNan
  else
    let '(ip, ni, r1) := read_digits r 0%Z 0%nat in
    let '(m, nf, r2) :=
      match r1 with
      | c :: r1' =>
          if c =? 46 then read_digits r1' ip 0%nat else (ip, 0%nat, r1)
      | [] => (ip, 0%nat, r1)
      end in
    if (ni + nf =? 0)%nat then Raise ValueError
    else
      match r2 with
      | [] => Ret (float_of_decimal neg m (- Z.of_nat nf))
      | c :: r3 =>
          if (c =? 101) || (c =? 69) then
            let '(eneg, r4) := split_sign r3 in
            match read_digits r4 0%Z 0%nat with
            | (ev, S _, []) =>
                Ret (float_of_decimal neg m
                       ((if eneg then - ev else ev) - Z.of_nat nf))
            | _ => Raise ValueError
            end
          else Raise ValueError
      end.

(** [str(n)] for a natural number: its decimal digits. *)
Fixpoint uint_digits (d : Decimal.uint) : pystr :=
  match d with
  | Decimal.Nil => []
  | Decimal.D0 d' => 48 :: uint_digits d'
  | Decimal.D1 d' => 49 :: uint_digits d'
  | Decimal.D2 d' => 50 :: uint_digits d'
  | Decimal.D3 d' => 51 :: uint_digits d'
  | Decimal.D4 d' => 52 :: uint_digits d'
  | Decimal.D5 d' => 53 :: uint_digits d'
  | Decimal.D6 d' => 54 :: uint_digits d'
  | Decimal.D7 d' => 55 :: uint_digits d'
  | Decimal.D8 d' => 56 :: uint_digits d'
  | Decimal.D9 d' => 57 :: uint_digits d'
  end.

Definition str_of_N (n : N) : pystr := uint_digits (N.to_uint n).

(** [str(z)] for an integer *)
Definition str_of_Z (z : Z) : pystr :=
  match z with
  | Zneg p => 45 :: str_of_N (Npos p)
  | _ => str_of_N (Z.to_N z)
  end.

(** The white space characters, one by one. *)
Definition space_chars : list N :=
  [ 9; 10; 11; 12; 13; 28; 29; 30; 31; 32; 133; 160; 5760;
    8192; 8193; 8194; 8195; 8196; 8197; 8198; 8199; 8200; 8201; 8202;
    8232; 8233; 8239; 8287; 12288 ].

(** *** Facts about the character classes *)

Lemma is_space_cases c : is_space c = true -> In c space_chars.
Proof.
  unfold is_space. rewrite !orb_true_iff, !andb_true_iff, !N.leb_le, !N.eqb_eq.
  simpl. lia.
Qed.

Lemma decimal_in_bound zeros c d :
  decimal_in zeros c = Some d ->
  exists z, In z zeros /\ z <= c /\ c <= z + 9 /\ d = c - z.
Proof.
  induction zeros as [|z zeros IH]; simpl; [discriminate|].
  destruct ((z <=? c) && (c <=? z + 9)) eqn:Hz.
  - intros [= <-]. apply andb_true_iff in Hz as [H1 H2].
    apply N.leb_le in H1, H2. exists z. auto.
  - intros H. apply IH in H as (z' & Hin & H). exists z'. auto.
Qed.

Lemma decimal_value_lt_10 c d : decimal_value c = Some d -> d < 10.
Proof. intros H. apply decimal_in_bound in H as (z & _ & H1 & H2 & ->). lia. Qed.

Lemma is_digit_range c :
  is_digit c = true -> 48 <= c /\ (c <= 57 \/ 1632 <= c).
Proof.
  unfold is_digit. destruct (decimal_value c) as [d|] eqn:Hd; [|discriminate].
  intros _. apply decimal_in_bound in Hd as (z & Hin & H1 & H2 & _).
  assert (Hz : z = 48 \/ 1632 <= z).
  { revert Hin. unfold decimal_zeros.
    repeat (intros [<-|Hin]; [lia|revert Hin]). intros []. }
  lia.
Qed.

Lemma is_space_not_digit c : is_space c = true -> is_digit c = false.
Proof.
  intros H. apply is_space_cases in H. revert H. unfold space_chars.
  repeat (intros [<-|H]; [reflexivity|revert H]). intros [].
Qed.

Lemma is_digit_not_space c : is_digit c = true -> is_space c = false.
Proof.
  intros H. destruct (is_space c) eqn:Hs; [|reflexivity].
  apply is_space_not_digit in Hs. congruence.
Qed.

Lemma is_alpha_range c :
  is_alpha c = true -> (65 <= c /\ c <= 90) \/ (97 <= c /\ c <= 122).
Proof.
  unfold is_alpha, is_lower_ascii, is_upper_ascii.
  rewrite orb_true_iff, !andb_true_iff, !N.leb_le. lia.
Qed.

Lemma is_alpha_not_digit c : is_alpha c = true -> is_digit c = false.
Proof.
  intros H. apply is_alpha_range in H.
  destruct (is_digit c) eqn:Hd; [|reflexivity].
  apply is_digit_range in Hd. lia.
Qed.

Lemma is_alpha_not_space c : is_alpha c = true -> is_space c = false.
Proof.
  intros H. apply is_alpha_range in H.
  destruct (is_space c) eqn:Hs; [|reflexivity].
  apply is_space_cases in Hs. simpl in Hs. lia.
Qed.

Lemma is_digit_not_alpha c : is_digit c = true -> is_alpha c = false.
Proof.
  intros H. destruct (is_alpha c) eqn:Ha; [|reflexivity].
  apply is_alpha_not_digit in Ha. congruence.
Qed.

(** *** Facts about stripping *)

Lemma lstrip_by_app_all p w s :
  Forall (fun c => p c = true) w -> lstrip_by p (w ++ s) = lstrip_by p s.
Proof.
  induction 1 as [|c w Hc _ IH]; simpl; [reflexivity|]. rewrite Hc. exact IH.
Qed.

Lemma rstrip_by_all p w :
  Forall (fun c => p c = true) w -> rstrip_by p w = [].
Proof.
  induction 1 as [|c w Hc _ IH]; simpl; [reflexivity|].
  rewrite IH, Hc. reflexivity.
Qed.

Lemma rstrip_by_app_all p s w :
  Forall (fun c => p c = true) w -> rstrip_by p (s ++ w) = rstrip_by p s.
Proof.
  intros Hw. induction s as [|c s IH]; simpl.
  - apply rstrip_by_all. exact Hw.
  - rewrite IH. reflexivity.
Qed.

Lemma lstrip_by_app_not_all p s w :
  lstrip_by p s <> [] -> lstrip_by p (s ++ w) = lstrip_by p s ++ w.
Proof.
  induction s as [|c s IH]; simpl; [congruence|].
  destruct (p c); [exact IH|reflexivity].
Qed.

Lemma lstrip_by_nil_all p s :
  lstrip_by p s = [] -> Forall (fun c => p c = true) s.
Proof.
  induction s as [|c s IH]; simpl; [constructor|].
  destruct (p c) eqn:Hc; [|discriminate]. intros H. constructor; auto.
Qed.

Lemma strip_app_space_l w s :
  Forall (fun c => is_space c = true) w -> strip (w ++ s) = strip s.
Proof.
  intros H. unfold strip. rewrite lstrip_by_app_all by exact H. reflexivity.
Qed.

Lemma strip_app_space_r s w :
  Forall (fun c => is_space c = true) w -> strip (s ++ w) = strip s.
Proof.
  intros H. unfold strip.
  destruct (lstrip_by is_space s) as [|c r] eqn:Hs.
  - apply lstrip_by_nil_all in Hs.
    rewrite lstrip_by_app_all by exact Hs.
    assert (Hl : Forall (fun c => is_space c = true) (lstrip_by is_space w)).
    { clear -H. induction H as [|c w Hc Hw IH]; simpl; [constructor|].
      rewrite Hc. exact IH. }
    apply rstrip_by_all. exact Hl.
  - rewrite lstrip_by_app_not_all by (rewrite Hs; discriminate).
    rewrite Hs. apply rstrip_by_app_all. exact H.
Qed.

Lemma strip_all_space w :
  Forall (fun c => is_space c = true) w -> strip w = [].
Proof.
  intros H. rewrite <- (app_nil_r w).
  rewrite strip_app_space_l by exact H. reflexivity.
Qed.

(** *** Facts about the numeric constructors *)

(** The number written by a run of digits. *)
Fixpoint digits_value (s : pystr) (acc : Z) : Z :=
  match s with
  | [] => acc
  | c :: s' =>
      digits_value s' (10 * acc + Z.of_N (default 0%N (decimal_value c)))%Z
  end.

Definition number (s : pystr) : Z := digits_value s 0%Z.

Lemma is_digit_value c : is_digit c = true -> exists d, decimal_value c = Some d.
Proof. unfold is_digit. destruct (decimal_value c); [eauto|discriminate]. Qed.

Lemma digits_value_app a b acc :
  digits_value (a ++ b) acc = digits_value b (digits_value a acc).
Proof. revert acc. induction a as [|c a IH]; intros acc; simpl; [reflexivity|apply IH]. Qed.

Lemma digits_us_run l acc cnt b :
  all is_digit l -> l <> [] \/ b = true ->
  digits_us l acc cnt b = Some (digits_value l acc, (cnt + length l)%nat).
Proof.
  intros Hl. revert acc cnt b. induction Hl as [|c l Hc Hl IH]; intros acc cnt b Hb; simpl.
  - destruct Hb as [Hb| ->]; [contradiction|]. rewrite Nat.add_0_r. reflexivity.
  - apply is_digit_value in Hc as [d Hd]. rewrite Hd. simpl.
    rewrite IH by (right; reflexivity). f_equal. f_equal. lia.
Qed.

Definition stops_digits (rest : pystr) : Prop :=
  match rest with
  | [] => True
  | c :: _ => is_digit c = false /\ c <> 95
  end.

Lemma read_digits_run l rest acc cnt :
  all is_digit l -> stops_digits rest ->
  read_digits (l ++ rest) acc cnt = (digits_value l acc, (cnt + length l)%nat, rest).
Proof.
  intros Hl Hr. revert acc cnt. induction Hl as [|c l Hc Hl IH]; intros acc cnt; simpl.
  - rewrite Nat.add_0_r. destruct rest as [|c rest]; [reflexivity|].
    destruct Hr as [Hd Hne]. simpl. unfold is_digit in Hd.
    destruct (decimal_value c); [discriminate|].
    destruct (N.eqb_spec c 95); [contradiction|reflexivity].
  - apply is_digit_value in Hc as [d Hd]. rewrite Hd.
    rewrite IH. f_equal. f_equal. lia.
Qed.

Lemma is_digit_neq c x :
  is_digit c = true -> x < 48 \/ (57 < x /\ x < 1632) -> (c =? x) = false.
Proof. intros Hc Hx. apply is_digit_range in Hc. apply N.eqb_neq. lia. Qed.

Lemma split_sign_digit c l :
  is_digit c = true -> split_sign (c :: l) = (false, c :: l).
Proof.
  intros Hc. unfold split_sign.
  rewrite !(is_digit_neq c) by (assumption || lia). reflexivity.
Qed.

Lemma rstrip_by_last p l c : p c = false -> rstrip_by p (l ++ [c]) = l ++ [c].
Proof.
  intros Hc. induction l as [|x l IH]; simpl.
  - rewrite Hc. reflexivity.
  - rewrite IH. destruct (l ++ [c]) eqn:E; [|reflexivity].
    destruct l; discriminate.
Qed.

Lemma strip_id c l :
  is_space c = false ->
  (exists l' c', c :: l = l' ++ [c'] /\ is_space c' = false) ->
  strip (c :: l) = c :: l.
Proof.
  intros Hc (l' & c' & Heq & Hc'). unfold strip. simpl. rewrite Hc.
  rewrite Heq. apply rstrip_by_last. exact Hc'.
Qed.

Lemma all_digit_last d : d <> [] -> all is_digit d ->
  exists l c, d = l ++ [c] /\ is_digit c = true.
Proof.
  intros Hne Hd. destruct (exists_last Hne) as (l & c & ->).
  apply Forall_app in Hd as [_ Hc]. apply Forall_cons in Hc as [Hc _]. eauto.
Qed.

Lemma contains_char_app ch a b :
  contains_char ch (a ++ b) = contains_char ch a || contains_char ch b.
Proof. unfold contains_char. apply existsb_app. Qed.

Lemma contains_char_digits ch d :
  all is_digit d -> is_digit ch = false -> contains_char ch d = false.
Proof.
  intros Hd Hch. induction Hd as [|c d Hc Hd IH]; simpl; [reflexivity|].
  rewrite IH, orb_false_r. apply N.eqb_neq. intros ->. congruence.
Qed.

Lemma split_first_app ch a b :
  contains_char ch a = false -> split_first ch (a ++ ch :: b) = Some (a, b).
Proof.
  induction a as [|c a IH]; simpl.
  - rewrite N.eqb_refl. reflexivity.
  - intros H. apply orb_false_iff in H as [H1 H2]. rewrite H1, IH by exact H2.
    reflexivity.
Qed.

Definition within_int_limit (s : pystr) : Prop :=
  (length s <= int_max_str_digits)%nat.

Lemma int_of_digits_run d :
  d <> [] -> all is_digit d -> within_int_limit d ->
  int_of_digits d = Ret (number d).
Proof.
  intros Hne Hd Hlim. unfold int_of_digits.
  rewrite (digits_us_run d 0%Z 0%nat false Hd) by (left; exact Hne).
  simpl. unfold within_int_limit in Hlim.
  destruct (Nat.ltb_spec int_max_str_digits (length d)); [lia|reflexivity].
Qed.

Lemma strip_digit_ends c l l' c' :
  is_digit c = true -> is_digit c' = true -> c :: l = l' ++ [c'] ->
  strip (c :: l) = c :: l.
Proof.
  intros Hc Hc' Heq. apply strip_id; [apply is_digit_not_space; exact Hc|].
  exists l', c'. split; [exact Heq|apply is_digit_not_space; exact Hc'].
Qed.

Lemma strip_digit_run d : d <> [] -> all is_digit d -> strip d = d.
Proof.
  intros Hne Hd. destruct (all_digit_last d Hne Hd) as (l' & c' & Heq & Hc').
  destruct d as [|c l]; [contradiction|]. apply Forall_cons in Hd as [Hc _].
  eapply strip_digit_ends; eassumption.
Qed.

Lemma int_of_str_run d :
  d <> [] -> all is_digit d -> within_int_limit d ->
  int_of_str d = Ret (number d).
Proof.
  intros Hne Hd Hlim. unfold int_of_str.
  rewrite strip_digit_run by assumption.
  destruct d as [|c l]; [contradiction|].
  pose proof Hd as Hd0. apply Forall_cons in Hd as [Hc _].
  rewrite split_sign_digit by exact Hc.
  rewrite int_of_digits_run by assumption. reflexivity.
Qed.

Lemma Qmag_overflows_Qeq (q1 q2 : Q) :
  Qeq q1 q2 -> Qmag_overflows q1 = Qmag_overflows q2.
Proof.
  destruct q1 as [n1 d1], q2 as [n2 d2]. unfold Qeq, Qmag_overflows. simpl.
  intros H.
  assert (Ha : (Z.abs n1 * Z.pos d2 = Z.abs n2 * Z.pos d1)%Z).
  { rewrite <- (Z.abs_eq (Z.pos d2)), <- (Z.abs_eq (Z.pos d1)) by lia.
    rewrite <- !Z.abs_mul. f_equal. exact H. }
  set (F := float_overflow) in *. clearbody F.
  destruct (Z.leb_spec (F * Z.pos d1) (Z.abs n1)) as [H1|H1];
  destruct (Z.leb_spec (F * Z.pos d2) (Z.abs n2)) as [H2|H2];
    try reflexivity; exfalso; nia.
Qed.

Lemma Qred_eq (q1 q2 : Q) : Qeq q1 q2 -> Qred q1 = Qred q2.
Proof. apply Qred_complete. Qed.

Lemma number_nonneg_acc d acc : (0 <= acc)%Z -> (0 <= digits_value d acc)%Z.
Proof.
  revert acc. induction d as [|c d IH]; intros acc H; simpl; [exact H|].
  apply IH. lia.
Qed.

Lemma number_nonneg d : (0 <= number d)%Z.
Proof. apply number_nonneg_acc. lia. Qed.

Lemma split_sign_run n rest :
  n <> [] -> all is_digit n -> split_sign (n ++ rest) = (false, n ++ rest).
Proof.
  intros Hne Hn. destruct n as [|c n']; [contradiction|].
  apply Forall_cons in Hn as [Hc _]. apply split_sign_digit. exact Hc.
Qed.

Lemma strip_digit_run_sep n x d :
  n <> [] -> all is_digit n -> d <> [] -> all is_digit d ->
  strip (n ++ x :: d) = n ++ x :: d.
Proof.
  intros Hn0 Hn Hd0 Hd.
  destruct (all_digit_last d Hd0 Hd) as (l' & c' & -> & Hc').
  destruct n as [|c n']; [contradiction|]. apply Forall_cons in Hn as [Hc _].
  simpl. eapply (strip_digit_ends c _ (c :: n' ++ x :: l') c'); [exact Hc|exact Hc'|].
  simpl. rewrite <- app_assoc. reflexivity.
Qed.

Lemma Fraction_of_str_run n d :
  n <> [] -> all is_digit n -> d <> [] -> all is_digit d ->
  within_int_limit n -> within_int_limit d -> number d <> 0%Z ->
  Fraction_of_str (n ++ 47 :: d) = Ret (Qred (number n # Z.to_pos (number d))).
Proof.
  intros Hn0 Hn Hd0 Hd Ln Ld Hnz. unfold Fraction_of_str.
  rewrite strip_digit_run_sep by assumption.
  rewrite split_sign_run by assumption.
  rewrite split_first_app by (apply contains_char_digits; [exact Hn|reflexivity]).
  rewrite !int_of_digits_run by assumption. simpl.
  destruct (Z.eqb_spec (number d) 0); [contradiction|reflexivity].
Qed.

Lemma lower_char_digit c : is_digit c = true -> lower_char c = c.
Proof.
  intros Hc. apply is_digit_range in Hc. unfold lower_char, is_upper_ascii.
  destruct (N.leb_spec 65 c); destruct (N.leb_spec c 90); simpl; try reflexivity; lia.
Qed.

Lemma is_word_digit w c l :
  is_digit c = true ->
  match lit w with x :: _ => 57 < x /\ x < 1632 | [] => True end ->
  is_word w (c :: l) = false.
Proof.
  intros Hc Hw. unfold is_word, pystr_eqb. apply bool_decide_eq_false.
  simpl. rewrite lower_char_digit by exact Hc.
  destruct (lit w) as [|x xs]; [discriminate|].
  intros [= -> _]. apply is_digit_range in Hc. lia.
Qed.

Lemma scale10_zero e : Qeq (scale10 0 e) (0 # 1).
Proof. unfold scale10. destruct (0 <=? e)%Z; unfold Qeq; simpl; lia. Qed.

Lemma float_of_decimal_value (m e : Z) (q : Q) :
  Qeq (scale10 m e) q -> Qmag_overflows q = false ->
  float_of_decimal false m e = FNear (Qred q).
Proof.
  intros Hq Hov. unfold float_of_decimal.
  destruct (Z.eqb_spec m 0) as [->|Hm].
  - f_equal. rewrite <- (Qred_eq _ _ Hq). rewrite (Qred_eq _ _ (scale10_zero e)).
    reflexivity.
  - rewrite (Qmag_overflows_Qeq _ _ Hq), Hov. f_equal. apply Qred_eq. exact Hq.
Qed.

Lemma float_of_str_integer d :
  d <> [] -> all is_digit d ->
  float_of_str d = Ret (float_of_decimal false (number d) 0).
Proof.
  intros Hne Hd. unfold float_of_str.
  rewrite strip_digit_run by assumption.
  rewrite <- (app_nil_r d) at 1. rewrite split_sign_run by assumption.
  rewrite app_nil_r.
  destruct d as [|c l] eqn:Ed; [contradiction|].
  assert (Hc : is_digit c = true) by (apply Forall_cons in Hd as [Hc _]; exact Hc).
  rewrite !(is_word_digit _ c l Hc) by (simpl; lia). simpl orb. cbv iota.
  rewrite <- Ed in *. rewrite <- (app_nil_r d) at 1.
  rewrite read_digits_run by (assumption || exact I).
  simpl. rewrite Nat.add_0_r.
  destruct (length d) eqn:El; [destruct d; [contradiction|discriminate]|].
  reflexivity.
Qed.

Lemma float_of_str_decimal i f :
  i <> [] -> all is_digit i -> f <> [] -> all is_digit f ->
  float_of_str (i ++ 46 :: f)
  = Ret (float_of_decimal false (number (i ++ f)) (- Z.of_nat (length f))).
Proof.
  intros Hi0 Hi Hf0 Hf. unfold float_of_str.
  rewrite strip_digit_run_sep by assumption.
  rewrite split_sign_run by assumption.
  destruct i as [|c l] eqn:Ei; [contradiction|].
  assert (Hc : is_digit c = true) by (apply Forall_cons in Hi as [Hc _]; exact Hc).
  replace ((c :: l) ++ 46 :: f) with (c :: (l ++ 46 :: f)) by reflexivity.
  rewrite !(is_word_digit _ c _ Hc) by (simpl; lia). simpl orb. cbv iota.
  replace (c :: (l ++ 46 :: f)) with (i ++ 46 :: f) by (rewrite Ei; reflexivity).
  rewrite <- Ei in *.
  rewrite read_digits_run; [|assumption|split; [reflexivity|discriminate]].
  simpl. rewrite <- (app_nil_r f) at 1.
  rewrite read_digits_run by (assumption || exact I).
  simpl.
  assert (Hlen : (length i + length f =? 0)%nat = false).
  { apply Nat.eqb_neq. destruct i; [contradiction|simpl; lia]. }
  rewrite Hlen. unfold number. rewrite digits_value_app. reflexivity.
Qed.


(** *** Dictionaries and membership *)

Fixpoint dict_lookup (d : list (pystr * pyval)) (k : pystr) : option pyval :=
  match d with
  | [] => None
  | (k', v) :: d' => if pystr_eqb k' k then Some v else dict_lookup d' k
  end.

(** [d.get(k)] and [d.get(k, dflt)] *)
Definition dict_get (d : list (pystr * pyval)) (k : pystr) : pyval :=
  default PNone (dict_lookup d k).
Definition dict_get_or (d : list (pystr * pyval)) (k : pystr) (dflt : pyval)
  : pyval :=
  default dflt (dict_lookup d k).

(** [v.get(k)] for a value that need not be a dictionary *)
Definition py_get (v : pyval) (k : pystr) : exc pyval :=
  match v with
  | PDict d => Ret (dict_get d k)
  | _ => Raise AttributeError
  end.
Definition py_get_or (v : pyval) (k : pystr) (dflt : pyval) : exc pyval :=
  match v with
  | PDict d => Ret (dict_get_or d k dflt)
  | _ => Raise AttributeError
  end.

(** [k in v] for a string [k] *)
Definition py_contains (k : pystr) (v : pyval) : exc bool :=
  match v with
  | PDict d => Ret (match dict_lookup d k with Some _ => true | None => false end)
  | PList l =>
      Ret (existsb (fun x => match x with
                             | PStr s => pystr_eqb s k
                             | _ => false
                             end) l)
  | PStr s => Ret (contains k s)
  | _ => Raise TypeError
  end.


(** *** Conversions to strings, iteration *)

(** [str(v)].  The text of a float, a list or a dictionary is left to
    [repr_other]; an integer with too many digits cannot be converted. *)
Definition py_str (repr_other : pyval -> exc pystr) (v : pyval) : exc pystr :=
  match v with
  | PStr s => Ret s
  | PNone => Ret (lit "None")
  | PBool true => Ret (lit "True")
  | PBool false => Ret (lit "False")
  | PInt z =>
      if (int_max_str_digits <? length (str_of_N (Z.abs_N z)))%nat
      then Raise ValueError
      else Ret (str_of_Z z)
  | _ => repr_other v
  end.

(** The elements that [for x in v] goes through. *)
Definition py_iter (v : pyval) : exc (list pyval) :=
  match v with
  | PList l => Ret l
  | PDict d => Ret (map (fun kv => PStr kv.1) d)
  | PStr s => Ret (map (fun c => PStr [c]) s)
  | _ => Raise TypeError
  end.

(** [sep.join(parts)]: every part has to be a string. *)
Fixpoint py_join (sep : pystr) (parts : list pyval) : exc pystr :=
  match parts with
  | [] => Ret []
  | [PStr s] => Ret s
  | PStr s :: rest => r ← py_join sep rest; Ret (s ++ sep ++ r)
  | _ => Raise TypeError
  end.

(** [isinstance(v, dict)] and [isinstance(v, str)] *)
Definition is_dict (v : pyval) : bool :=
  match v with PDict _ => true | _ => false end.
Definition is_str (v : pyval) : bool :=
  match v with PStr _ => true | _ => false end.


(** *** Writing text to a UTF-8 file *)

Definition is_surrogate (c : N) : bool := (55296 <=? c) && (c <=? 57343).

(** Text written to a file opened with [encoding='utf-8'] must not hold a
    surrogate; [json.dump(..., ensure_ascii=False)] writes the strings of
    the value as they are. *)
Fixpoint has_surrogate (v : pyval) : bool :=
  match v with
  | PStr s => existsb is_surrogate s
  | PList l => existsb has_surrogate l
  | PDict d =>
      existsb (fun kv => match kv with
                         | (k, x) => existsb is_surrogate k || has_surrogate x
                         end) d
  | _ => false
  end.

Definition json_dump_to_file (v : pyval) : exc () :=
  if has_surrogate v then Raise UnicodeEncodeError else Ret ().

End Py.
Export Py.

(** ** Regular expressions, matched as [re.match] does

    The matcher tries the alternatives in the order of Python's backtracking
    engine: a greedy repetition first takes as much as it can and gives back
    one character at a time, an optional part is first tried present, an
    alternation is tried left to right.  The first way that lets the rest of
    the pattern succeed is the match. *)

Module Re.

Inductive re :=
| Eps
| Cls (p : N -> bool)      (* one character of a class *)
| Seq (r1 r2 : re)
| Alt (r1 r2 : re)         (* r1|r2 *)
| Opt (r : re)             (* r? *)
| Star (p : N -> bool)     (* c*, for a class c *)
| Grp (g : string) (r : re) (* (?P<g>r) *)
| Bol                      (* ^ *)
| Eol.                     (* $ *)

(** [c+] *)
Definition Plus (p : N -> bool) : re := Seq (Cls p) (Star p).

(** The groups that took part in the match, with the text they matched. *)
Abbreviation captures := (gmap string pystr).

(** Greedy repetition of a class against the continuation [k]. *)
Fixpoint star_k {R} (p : N -> bool) (s : pystr) (i : nat)
    (k : pystr -> nat -> option R) : option R :=
  match s with
  | c :: s' =>
      if p c then
        match star_k p s' (S i) k with
        | Some r => Some r
        | None => k s i
        end
      else k s i
  | [] => k s i
  end.

(** [rmatch r s i caps k]: match [r] at position [i], where [s] is the input
    from [i] on, then go on with [k]. *)
Fixpoint rmatch (r : re) (s : pystr) (i : nat) (caps : captures)
    (k : pystr -> nat -> captures -> option captures) : option captures :=
  match r with
  | Eps => k s i caps
  | Cls p =>
      match s with
      | c :: s' => if p c then k s' (S i) caps else None
      | [] => None
      end
  | Seq r1 r2 => rmatch r1 s i caps (fun s1 i1 c1 => rmatch r2 s1 i1 c1 k)
  | Alt r1 r2 =>
      match rmatch r1 s i caps k with
      | Some m => Some m
      | None => rmatch r2 s i caps k
      end
  | Opt r1 =>
      match rmatch r1 s i caps k with
      | Some m => Some m
      | None => k s i caps
      end
  | Star p => star_k p s i (fun s' i' => k s' i' caps)
  | Grp g r1 =>
      rmatch r1 s i caps
        (fun s' i' c' => k s' i' (<[g := take (i' - i) s]> c'))
  | Bol => if (i =? 0)%nat then k s i caps else None
  | Eol =>
      match s with
      | [] => k s i caps
      | [c] => if c =? 10 then k s i caps else None
      | _ => None
      end
  end.

(** [pattern.match(s)]: the groups of the match, or [None]. *)
Definition re_match (r : re) (s : pystr) : option captures :=
  rmatch r s 0%nat ∅ (fun _ _ c => Some c).

(** What it means for [r] to match between two positions, whatever the
    order in which the engine looks for it. *)
Inductive matches : re -> pystr -> nat -> captures ->
                    pystr -> nat -> captures -> Prop :=
| M_eps s i c : matches Eps s i c s i c
| M_cls p ch s i c :
    p ch = true -> matches (Cls p) (ch :: s) i c s (S i) c
| M_seq r1 r2 s i c s1 i1 c1 s2 i2 c2 :
    matches r1 s i c s1 i1 c1 -> matches r2 s1 i1 c1 s2 i2 c2 ->
    matches (Seq r1 r2) s i c s2 i2 c2
| M_alt_l r1 r2 s i c s' i' c' :
    matches r1 s i c s' i' c' -> matches (Alt r1 r2) s i c s' i' c'
| M_alt_r r1 r2 s i c s' i' c' :
    matches r2 s i c s' i' c' -> matches (Alt r1 r2) s i c s' i' c'
| M_opt_some r s i c s' i' c' :
    matches r s i c s' i' c' -> matches (Opt r) s i c s' i' c'
| M_opt_none r s i c : matches (Opt r) s i c s i c
| M_star p l s i c :
    Forall (fun ch => p ch = true) l ->
    matches (Star p) (l ++ s) i c s (i + length l)%nat c
| M_grp g r s i c s' i' c' :
    matches r s i c s' i' c' ->
    matches (Grp g r) s i c s' i' (<[g := take (i' - i) s]> c')
| M_bol s c : matches Bol s 0%nat c s 0%nat c
| M_eol_end i c : matches Eol [] i c [] i c
| M_eol_nl i c : matches Eol [10] i c [10] i c.

(** A pattern written as the sequence of its parts. *)
Definition cat (rs : list re) : re := foldr Seq Eps rs.

(** A pattern without groups leaves the captures alone. *)
Fixpoint group_free (r : re) : bool :=
  match r with
  | Grp _ _ => false
  | Seq r1 r2 | Alt r1 r2 => group_free r1 && group_free r2
  | Opt r1 => group_free r1
  | _ => true
  end.


(** *** The matcher finds only matches *)

Lemma star_k_sound {R} (p : N -> bool) (s : pystr) (i : nat)
    (k : pystr -> nat -> option R) (r : R) :
  star_k p s i k = Some r ->
  exists l s', s = l ++ s' /\ Forall (fun ch => p ch = true) l
               /\ k s' (i + length l)%nat = Some r.
Proof.
  revert i. induction s as [|c s IH]; intros i H; simpl in H.
  - exists [], []. rewrite Nat.add_0_r. auto.
  - destruct (p c) eqn:Hp.
    + destruct (star_k p s (S i) k) as [r'|] eqn:Hs.
      * injection H as ->. apply IH in Hs as (l & s' & -> & Hl & Hk).
        exists (c :: l), s'. split; [reflexivity|]. split; [constructor; assumption|].
        simpl. rewrite <- Hk. f_equal. lia.
      * exists [], (c :: s). rewrite Nat.add_0_r. auto.
    + exists [], (c :: s). rewrite Nat.add_0_r. auto.
Qed.

(** Greedy: the repetition takes the whole run when the rest of the pattern
    accepts what follows it. *)
Lemma star_k_greedy {R} (p : N -> bool) (l rest : pystr) (i : nat)
    (k : pystr -> nat -> option R) (r : R) :
  Forall (fun ch => p ch = true) l ->
  match rest with c :: _ => p c = false | [] => True end ->
  k rest (i + length l)%nat = Some r ->
  star_k p (l ++ rest) i k = Some r.
Proof.
  intros Hl Hrest. revert i. induction Hl as [|c l Hc Hl IH]; intros i Hk; simpl in *.
  - rewrite Nat.add_0_r in Hk. destruct rest as [|c rest]; simpl; [exact Hk|].
    rewrite Hrest. exact Hk.
  - rewrite Hc. rewrite (IH (S i)); [reflexivity|]. rewrite <- Hk. f_equal. lia.
Qed.

(** Giving back: when the rest of the pattern fails after the whole run but
    succeeds after giving back its last character. *)
Lemma star_k_giveback {R} (p : N -> bool) (l : pystr) (c : N) (rest : pystr)
    (i : nat) (k : pystr -> nat -> option R) (r : R) :
  Forall (fun ch => p ch = true) l -> p c = true ->
  match rest with c' :: _ => p c' = false | [] => True end ->
  k rest (i + length l + 1)%nat = None ->
  k (c :: rest) (i + length l)%nat = Some r ->
  star_k p (l ++ c :: rest) i k = Some r.
Proof.
  intros Hl Hc Hrest Hnone. revert i Hnone.
  induction Hl as [|c0 l Hc0 Hl IH]; intros i Hnone Hk; simpl in *.
  - rewrite Hc. rewrite Nat.add_0_r in *.
    assert (Hs : star_k p rest (S i) k = None).
    { destruct rest as [|c' rest]; simpl.
      - rewrite <- Hnone. f_equal. lia.
      - rewrite Hrest. rewrite <- Hnone. f_equal. lia. }
    rewrite Hs. exact Hk.
  - rewrite Hc0. rewrite (IH (S i)); [reflexivity| |].
    + rewrite <- Hnone. f_equal. lia.
    + rewrite <- Hk. f_equal. lia.
Qed.

Lemma matches_split r s i c s' i' c' :
  matches r s i c s' i' c' ->
  exists l, s = l ++ s' /\ i' = (i + length l)%nat.
Proof.
  induction 1.
  - exists []. simpl. split; [reflexivity|lia].
  - exists [ch]. simpl. split; [reflexivity|lia].
  - destruct IHmatches1 as (l1 & -> & ->). destruct IHmatches2 as (l2 & -> & ->).
    exists (l1 ++ l2). rewrite <- app_assoc, length_app. split; [reflexivity|lia].
  - assumption.
  - assumption.
  - assumption.
  - exists []. simpl. split; [reflexivity|lia].
  - exists l. auto.
  - assumption.
  - exists []. auto.
  - exists []. simpl. split; [reflexivity|lia].
  - exists []. simpl. split; [reflexivity|lia].
Qed.

Lemma rmatch_sound r : forall s i c k res,
  rmatch r s i c k = Some res ->
  exists s' i' c', matches r s i c s' i' c' /\ k s' i' c' = Some res.
Proof.
  induction r as [|p|r1 IH1 r2 IH2|r1 IH1 r2 IH2|r IH|p|g r IH| |];
    intros s i c k res H; simpl in H.
  - exists s, i, c. split; [constructor|exact H].
  - destruct s as [|ch s]; [discriminate|]. destruct (p ch) eqn:Hp; [|discriminate].
    exists s, (S i), c. split; [constructor; exact Hp|exact H].
  - apply IH1 in H as (s1 & i1 & c1 & Hm1 & H).
    apply IH2 in H as (s2 & i2 & c2 & Hm2 & H).
    exists s2, i2, c2. split; [econstructor; eassumption|exact H].
  - destruct (rmatch r1 s i c k) as [m|] eqn:H1.
    + injection H as ->. apply IH1 in H1 as (s' & i' & c' & Hm & H).
      exists s', i', c'. split; [apply M_alt_l; exact Hm|exact H].
    + apply IH2 in H as (s' & i' & c' & Hm & H).
      exists s', i', c'. split; [apply M_alt_r; exact Hm|exact H].
  - destruct (rmatch r s i c k) as [m|] eqn:H1.
    + injection H as ->. apply IH in H1 as (s' & i' & c' & Hm & H).
      exists s', i', c'. split; [apply M_opt_some; exact Hm|exact H].
    + exists s, i, c. split; [apply M_opt_none|exact H].
  - apply star_k_sound in H as (l & s' & -> & Hl & H).
    exists s', (i + length l)%nat, c. split; [constructor; exact Hl|exact H].
  - apply IH in H as (s' & i' & c' & Hm & H).
    exists s', i', (<[g := take (i' - i) s]> c'). split; [constructor; exact Hm|exact H].
  - destruct i; [|discriminate]. exists s, 0%nat, c. split; [constructor|exact H].
  - destruct s as [|ch [|ch2 s]].
    + exists [], i, c. split; [constructor|exact H].
    + destruct (N.eqb_spec ch 10) as [->|Hne]; [|discriminate].
      exists [10], i, c. split; [constructor|exact H].
    + discriminate.
Qed.

Lemma re_match_sound r s m :
  re_match r s = Some m -> exists s' i', matches r s 0%nat ∅ s' i' m.
Proof.
  unfold re_match. intros H. apply rmatch_sound in H as (s' & i' & c' & Hm & H).
  injection H as ->. eauto.
Qed.


Lemma matches_seq_inv r1 r2 s i c s2 i2 c2 :
  matches (Seq r1 r2) s i c s2 i2 c2 ->
  exists s1 i1 c1, matches r1 s i c s1 i1 c1 /\ matches r2 s1 i1 c1 s2 i2 c2.
Proof. intros H. inv H. eauto. Qed.

Lemma matches_star_inv p s i c s' i' c' :
  matches (Star p) s i c s' i' c' ->
  exists l, s = l ++ s' /\ Forall (fun ch => p ch = true) l
            /\ i' = (i + length l)%nat /\ c' = c.
Proof. intros H. inv H. eauto. Qed.

Lemma matches_cls_inv p s i c s' i' c' :
  matches (Cls p) s i c s' i' c' ->
  exists ch, s = ch :: s' /\ p ch = true /\ i' = S i /\ c' = c.
Proof. intros H. inv H. eauto. Qed.

Lemma matches_plus_inv p s i c s' i' c' :
  matches (Plus p) s i c s' i' c' ->
  exists ch l, s = ch :: l ++ s' /\ p ch = true
               /\ Forall (fun ch => p ch = true) l /\ c' = c.
Proof.
  intros H. apply matches_seq_inv in H as (s1 & i1 & c1 & H1 & H2).
  apply matches_cls_inv in H1 as (ch & -> & Hp & -> & ->).
  apply matches_star_inv in H2 as (l & -> & Hl & -> & ->).
  exists ch, l. auto.
Qed.

Lemma matches_opt_inv r s i c s' i' c' :
  matches (Opt r) s i c s' i' c' ->
  matches r s i c s' i' c' \/ (s' = s /\ i' = i /\ c' = c).
Proof. intros H. inv H; auto. Qed.

Lemma matches_grp_inv g r s i c s' i' c' :
  matches (Grp g r) s i c s' i' c' ->
  exists l c0, matches r s i c s' i' c0 /\ s = l ++ s' /\ c' = <[g := l]> c0.
Proof.
  intros H. inv H.
  match goal with Hm : matches r _ _ _ _ _ _ |- _ =>
    destruct (matches_split _ _ _ _ _ _ _ Hm) as (l & -> & ->) end.
  exists l, c'0. split; [assumption|]. split; [reflexivity|].
  replace (i + length l - i)%nat with (length l) by lia.
  rewrite take_app_length. reflexivity.
Qed.

Lemma matches_eol_inv s i c s' i' c' :
  matches Eol s i c s' i' c' -> s' = s /\ c' = c /\ (s = [] \/ s = [10]).
Proof. intros H. inv H; auto. Qed.

Lemma matches_eps_inv s i c s' i' c' :
  matches Eps s i c s' i' c' -> s' = s /\ i' = i /\ c' = c.
Proof. intros H. inv H; auto. Qed.

Lemma matches_bol_inv s i c s' i' c' :
  matches Bol s i c s' i' c' -> s' = s /\ i' = i /\ c' = c.
Proof. intros H. inv H; auto. Qed.

Lemma matches_group_free r s i c s' i' c' :
  matches r s i c s' i' c' -> group_free r = true -> c' = c.
Proof.
  induction 1; simpl; intros Hg; try reflexivity;
    try (apply andb_true_iff in Hg as [Hg1 Hg2]); auto; try discriminate.
  rewrite IHmatches2, IHmatches1; auto.
Qed.

(** *** The greedy path

    [takes r l rest f]: in front of [rest], the first thing [r] tries is to
    match [l], and when the rest of the pattern accepts that, this is the
    match; the groups of [r] change the captures by [f].
    [fails r s]: [r] matches no prefix of [s]. *)
Definition takes (r : re) (l rest : pystr) (f : captures -> captures) : Prop :=
  forall i c k res,
    k rest (i + length l)%nat (f c) = Some res ->
    rmatch r (l ++ rest) i c k = Some res.

Definition fails (r : re) (s : pystr) : Prop :=
  forall i c k, rmatch r s i c k = None.

Definition head_not (p : N -> bool) (s : pystr) : Prop :=
  match s with c :: _ => p c = false | [] => True end.

Lemma takes_eps rest : takes Eps [] rest (fun c => c).
Proof. intros i c k res H. simpl in *. rewrite Nat.add_0_r in H. exact H. Qed.

Lemma takes_cls p ch rest : p ch = true -> takes (Cls p) [ch] rest (fun c => c).
Proof.
  intros Hp i c k res H. simpl in *. rewrite Hp.
  rewrite <- H. f_equal. lia.
Qed.

Lemma takes_star p l rest :
  Forall (fun ch => p ch = true) l -> head_not p rest ->
  takes (Star p) l rest (fun c => c).
Proof.
  intros Hl Hr i c k res H. simpl. apply star_k_greedy; assumption.
Qed.

Lemma takes_seq r1 r2 l1 l2 rest f1 f2 :
  takes r1 l1 (l2 ++ rest) f1 -> takes r2 l2 rest f2 ->
  takes (Seq r1 r2) (l1 ++ l2) rest (fun c => f2 (f1 c)).
Proof.
  intros H1 H2 i c k res H. simpl. rewrite <- app_assoc.
  apply H1. apply H2. rewrite <- H. f_equal. rewrite length_app. lia.
Qed.

Lemma takes_plus p ch l rest :
  p ch = true -> Forall (fun ch => p ch = true) l -> head_not p rest ->
  takes (Plus p) (ch :: l) rest (fun c => c).
Proof.
  intros Hp Hl Hr.
  apply (takes_seq (Cls p) (Star p) [ch] l rest (fun c => c) (fun c => c)).
  - apply takes_cls. exact Hp.
  - apply takes_star; assumption.
Qed.

Lemma takes_opt r l rest f : takes r l rest f -> takes (Opt r) l rest f.
Proof. intros Hr i c k res H. simpl. rewrite (Hr i c k res H). reflexivity. Qed.

Lemma takes_opt_skip r rest : fails r rest -> takes (Opt r) [] rest (fun c => c).
Proof.
  intros Hr i c k res H. simpl in *. rewrite Hr.
  rewrite Nat.add_0_r in H. exact H.
Qed.

Lemma takes_alt_l r1 r2 l rest f : takes r1 l rest f -> takes (Alt r1 r2) l rest f.
Proof. intros Hr i c k res H. simpl. rewrite (Hr i c k res H). reflexivity. Qed.

Lemma takes_alt_r r1 r2 l rest f :
  fails r1 (l ++ rest) -> takes r2 l rest f -> takes (Alt r1 r2) l rest f.
Proof. intros H1 H2 i c k res H. simpl. rewrite H1. apply H2. exact H. Qed.

Lemma takes_grp g r l rest f :
  takes r l rest f -> takes (Grp g r) l rest (fun c => <[g := l]> (f c)).
Proof.
  intros Hr i c k res H. simpl. apply Hr.
  replace (i + length l - i)%nat with (length l) by lia.
  rewrite take_app_length. exact H.
Qed.

Lemma fails_cls p ch s : p ch = false -> fails (Cls p) (ch :: s).
Proof. intros Hp i c k. simpl. rewrite Hp. reflexivity. Qed.

Lemma fails_cls_nil p : fails (Cls p) [].
Proof. intros i c k. reflexivity. Qed.

Lemma fails_seq r1 r2 s : fails r1 s -> fails (Seq r1 r2) s.
Proof. intros H i c k. simpl. apply H. Qed.

Lemma fails_cls_seq p r ch s :
  p ch = true -> fails r s -> fails (Seq (Cls p) r) (ch :: s).
Proof. intros Hp Hr i c k. simpl. rewrite Hp. apply Hr. Qed.

Lemma fails_alt r1 r2 s : fails r1 s -> fails r2 s -> fails (Alt r1 r2) s.
Proof. intros H1 H2 i c k. simpl. rewrite H1. apply H2. Qed.

Lemma fails_plus p s : head_not p s -> fails (Plus p) s.
Proof.
  intros H. apply fails_seq. destruct s as [|ch s]; [apply fails_cls_nil|].
  apply fails_cls. exact H.
Qed.

End Re.

(** ** The JSON decoder of the standard library ([json.loads])

    Limits of the interpreter's resources (the recursion limit, memory) are
    not part of the model. *)

Module Json.

Definition is_json_space (c : N) : bool :=
  (c =? 32) || (c =? 9) || (c =? 10) || (c =? 13).

Definition skip_space (s : pystr) : pystr := lstrip_by is_json_space s.

Definition hex_value (c : N) : option N :=
  if is_ascii_digit c then Some (c - 48)
  else if (97 <=? c) && (c <=? 102) then Some (c - 87)
  else if (65 <=? c) && (c <=? 70) then Some (c - 55)
  else None.

(** Four hexadecimal digits and what follows them. *)
Definition hex4 (s : pystr) : option (N * pystr) :=
  match s with
  | a :: b :: c :: d :: rest =>
      match hex_value a, hex_value b, hex_value c, hex_value d with
      | Some x, Some y, Some z, Some w =>
          Some (((x * 16 + y) * 16 + z) * 16 + w, rest)
      | _, _, _, _ => None
      end
  | _ => None
  end.

(** The escapes of one character: quote, backslash, slash, b, f, n, r,
    t. *)
Definition simple_escape (e : N) : option N :=
  if e =? 34 then Some 34
  else if e =? 92 then Some 92
  else if e =? 47 then Some 47
  else if e =? 98 then Some 8
  else if e =? 102 then Some 12
  else if e =? 110 then Some 10
  else if e =? 114 then Some 13
  else if e =? 116 then Some 9
  else None.

Definition is_high_surrogate (c : N) : bool := (55296 <=? c) && (c <=? 56319).
Definition is_low_surrogate (c : N) : bool := (56320 <=? c) && (c <=? 57343).
Definition join_surrogates (hi lo : N) : N :=
  65536 + (hi - 55296) * 1024 + (lo - 56320).

(** The string literal whose opening quote has been read: its text and what
    follows the closing quote.  Control characters are not allowed in it. *)
Fixpoint scan_string (fuel : nat) (s : pystr) : exc (pystr * pystr) :=
  match fuel with
  | O => Raise OutOfFuel
  | S fuel' =>
      match s with
      | [] => Raise JSONDecodeError
      | c :: s1 =>
          if c =? 34 then Ret ([], s1)
          else if c =? 92 then
            match s1 with
            | [] => Raise JSONDecodeError
            | e :: s2 =>
                if e =? 117 then
                  match hex4 s2 with
                  | None => Raise JSONDecodeError
                  | Some (u, s3) =>
                      let single :=
                        '(t, rest) ← scan_string fuel' s3; Ret (u :: t, rest) in
                      if is_high_surrogate u && starts_with [92; 117] s3 then
                        match hex4 (drop 2 s3) with
                        | None => Raise JSONDecodeError
                        | Some (u2, s4) =>
                            if is_low_surrogate u2 then
                              '(t, rest) ← scan_string fuel' s4;
                              Ret (join_surrogates u u2 :: t, rest)
                            else single
                        end
                      else single
                  end
                else
                  match simple_escape e with
                  | Some ch =>
                      '(t, rest) ← scan_string fuel' s2; Ret (ch :: t, rest)
                  | None => Raise JSONDecodeError
                  end
            end
          else if c <=? 31 then Raise JSONDecodeError
          else '(t, rest) ← scan_string fuel' s1; Ret (c :: t, rest)
      end
  end.

(** The longest prefix of ASCII digits, and the rest. *)
Fixpoint span_digits (s : pystr) : pystr * pystr :=
  match s with
  | c :: s' =>
      if is_ascii_digit c then
        let '(d, r) := span_digits s' in (c :: d, r)
      else ([], s)
  | [] => ([], [])
  end.

(** A number at the head of [s]: its value (the conversion of an integer
    with too many digits raises) and the rest; [None] when there is no
    number. *)
Definition scan_number (s : pystr) : option (exc pyval * pystr) :=
  let s1 := match s with c :: r => if c =? 45 then r else s | [] => s end in
  match s1 with
  | [] => None
  | c :: r =>
      let int_end :=
        if (49 <=? c) && (c <=? 57) then Some (snd (span_digits r))
        else if c =? 48 then Some r
        else None in
      match int_end with
      | None => None
      | Some r1 =>
          let '(is_frac, r2) :=
            match r1 with
            | p :: d :: _ =>
                if (p =? 46) && is_ascii_digit d
                then (true, snd (span_digits (drop 1 r1)))
                else (false, r1)
            | _ => (false, r1)
            end in
          let '(is_exp, r3) :=
            match r2 with
            | e :: r2' =>
                if (e =? 101) || (e =? 69) then
                  let r2'' := match r2' with
                              | g :: t => if (g =? 43) || (g =? 45) then t else r2'
                              | [] => r2'
                              end in
                  match span_digits r2'' with
                  | ([], _) => (false, r2)
                  | (_, r) => (true, r)
                  end
                else (false, r2)
            | [] => (false, r2)
            end in
          let numstr := take (length s - length r3) s in
          Some (if is_frac || is_exp then PFloat <$> float_of_str numstr
                else PInt <$> int_of_str numstr, r3)
      end
  end.

(** [dict(pairs)]: a later value for a key replaces the earlier one, in the
    place of the earlier one. *)
Fixpoint dict_set (d : list (pystr * pyval)) (k : pystr) (v : pyval)
  : list (pystr * pyval) :=
  match d with
  | [] => [(k, v)]
  | (k', v') :: d' =>
      if pystr_eqb k' k then (k, v) :: d' else (k', v') :: dict_set d' k v
  end.

Definition dict_of_pairs (pairs : list (pystr * pyval)) : list (pystr * pyval) :=
  foldl (fun d kv => dict_set d kv.1 kv.2) [] pairs.

(** The value at the head of [s] (no white space before it) and the rest. *)
Fixpoint parse_value (fuel : nat) (s : pystr) : exc (pyval * pystr) :=
  match fuel with
  | O => Raise OutOfFuel
  | S fuel' =>
      match s with
      | [] => Raise JSONDecodeError
      | c :: r =>
          if c =? 34 then
            '(t, rest) ← scan_string fuel' r; Ret (PStr t, rest)
          else if c =? 123 then
            match skip_space r with
            | c1 :: r1 =>
                if c1 =? 125 then Ret (PDict [], r1)
                else '(pairs, rest) ← parse_members fuel' (c1 :: r1);
                     Ret (PDict (dict_of_pairs pairs), rest)
            | [] => Raise JSONDecodeError
            end
          else if c =? 91 then
            match skip_space r with
            | c1 :: r1 =>
                if c1 =? 93 then Ret (PList [], r1)
                else '(items, rest) ← parse_items fuel' (c1 :: r1);
                     Ret (PList items, rest)
            | [] => Raise JSONDecodeError
            end
          else if starts_with (lit "null") s then Ret (PNone, drop 4 s)
          else if starts_with (lit "true") s then Ret (PBool true, drop 4 s)
          else if starts_with (lit "false") s then Ret (PBool false, drop 5 s)
          else if starts_with (lit "NaN") s then Ret (PFloat FNan, drop 3 s)
          else if starts_with (lit "Infinity") s
            then Ret (PFloat (FInf false), drop 8 s)
          else if starts_with (lit "-Infinity") s
            then Ret (PFloat (FInf true), drop 9 s)
          else
            match scan_number s with
            | Some (v, rest) => x ← v; Ret (x, rest)
            | None => Raise JSONDecodeError
            end
      end
  end
with parse_items (fuel : nat) (s : pystr) : exc (list pyval * pystr) :=
  match fuel with
  | O => Raise OutOfFuel
  | S fuel' =>
      '(v, rest) ← parse_value fuel' s;
      match skip_space rest with
      | c :: r =>
          if c =? 93 then Ret ([v], r)
          else if c =? 44 then
            '(items, rest') ← parse_items fuel' (skip_space r);
            Ret (v :: items, rest')
          else Raise JSONDecodeError
      | [] => Raise JSONDecodeError
      end
  end
with parse_members (fuel : nat) (s : pystr)
  : exc (list (pystr * pyval) * pystr) :=
  match fuel with
  | O => Raise OutOfFuel
  | S fuel' =>
      match s with
      | c :: r =>
          if c =? 34 then
            '(k, rest) ← scan_string fuel' r;
            match skip_space rest with
            | c1 :: r1 =>
                if c1 =? 58 then
                  '(v, rest1) ← parse_value fuel' (skip_space r1);
                  match skip_space rest1 with
                  | c2 :: r2 =>
                      if c2 =? 125 then Ret ([(k, v)], r2)
                      else if c2 =? 44 then
                        '(pairs, rest2) ← parse_members fuel' (skip_space r2);
                        Ret ((k, v) :: pairs, rest2)
                      else Raise JSONDecodeError
                  | [] => Raise JSONDecodeError
                  end
                else Raise JSONDecodeError
            | [] => Raise JSONDecodeError
            end
          else Raise JSONDecodeError
      | [] => Raise JSONDecodeError
      end
  end.

(** [json.loads(s)].  The recursion limit of the interpreter, which makes
    the decoder raise [RecursionError] on a text nested some hundreds of
    levels deep, is not modelled: the texts are taken to be nested less
    deeply than that. *)
Definition json_loads (s : pystr) : exc pyval :=
  if starts_with [65279] s then Raise JSONDecodeError
  else
    '(v, rest) ← parse_value (2 * length s + 1) (skip_space s);
    match skip_space rest with
    | [] => Ret v
    | _ => Raise JSONDecodeError
    end.

End Json.

(** ** scripts/ingest.py: the quantity and unit parser *)

Module ingest.
Import Re.

(** [try: body except Exception: return None] *)
Definition try_or_none {A} (body : exc A) : exc (option A) :=
  match body with
  | Ret a => Ret (Some a)
  | Raise _ => Ret None
  end.

Definition parse_quantity (qstr : pystr) : exc (option pyfloat) :=
  if negb (truthy (PStr qstr)) then Ret None
  else
    let qstr := strip qstr in
    try_or_none
      (if contains_char 32 qstr && contains_char 47 qstr then
         match split_first 32 qstr with
         | Some (whole, frac) =>
             w ← int_of_str whole;
             f ← Fraction_of_str frac;
             float_of_Q (Qplus (inject_Z w) f)
         | None => Raise ValueError
         end
       else if contains_char 47 qstr then
         f ← Fraction_of_str qstr;
         float_of_Q f
       else float_of_str qstr).

Definition UNIT_MAP_items : list (pystr * pystr) :=
  [ (lit "tbsp", lit "tablespoon"); (lit "tbs", lit "tablespoon");
    (lit "tablespoons", lit "tablespoon"); (lit "tbsp.", lit "tablespoon");
    (lit "tsp", lit "teaspoon"); (lit "tsps", lit "teaspoon");
    (lit "teaspoons", lit "teaspoon");
    (lit "cup", lit "cup"); (lit "cups", lit "cup");
    (lit "g", lit "gram"); (lit "gram", lit "gram"); (lit "grams", lit "gram");
    (lit "kg", lit "kilogram");
    (lit "oz", lit "ounce"); (lit "ounce", lit "ounce");
    (lit "ounces", lit "ounce");
    (lit "lb", lit "pound"); (lit "pound", lit "pound");
    (lit "pounds", lit "pound");
    (lit "clove", lit "clove"); (lit "cloves", lit "clove");
    (lit "slice", lit "slice"); (lit "slices", lit "slice") ].

Definition UNIT_MAP : gmap pystr pystr := list_to_map UNIT_MAP_items.

Definition normalize_unit (u : option pystr) : option pystr :=
  match u with
  | None => None
  | Some u =>
      if negb (truthy (PStr u)) then None
      else
        let u := rstrip_char 46 (strip (lower u)) in
        Some (default u (UNIT_MAP !! u))
  end.

(** The character classes of [ING_RE]. *)
Definition is_blank (c : N) : bool := (c =? 32) || (c =? 9).   (* [ \t] *)
Definition is_slash (c : N) : bool := c =? 47.
Definition is_period (c : N) : bool := c =? 46.
Definition is_dot (c : N) : bool := negb (c =? 10).             (* . *)

(** [\d+(?:[ \t]\d+\/\d+|\/\d+|\.\d+)?] *)
Definition qty_re : re :=
  cat [ Plus is_digit;
        Opt (Alt (cat [Cls is_blank; Plus is_digit; Cls is_slash; Plus is_digit])
            (Alt (cat [Cls is_slash; Plus is_digit])
                 (cat [Cls is_period; Plus is_digit]))) ].

(** [^\s*(?P<qty>...)?\s*(?P<unit>[a-zA-Z]+)?\s*(?P<name>.+)$] *)
Definition ING_RE : re :=
  cat [ Bol; Star is_space;
        Opt (Grp "qty" qty_re); Star is_space;
        Opt (Grp "unit" (Plus is_alpha)); Star is_space;
        Grp "name" (Plus is_dot); Eol ].

Record Ingredient := {
  raw : pystr;
  quantity : option pyfloat;
  unit : option pystr;
  name : pystr
}.

Definition parse_ingredient (ing_raw : pystr) : exc Ingredient :=
  match re_match ING_RE ing_raw with
  | None =>
      Ret {| raw := ing_raw; quantity := None; unit := None;
             name := strip ing_raw |}
  | Some m =>
      let qty := m !! "qty" in
      let unit := m !! "unit" in
      let name := default [] (m !! "name") in
      quantity ← match qty with
                 | Some q => if truthy (PStr q) then parse_quantity q
                             else Ret None
                 | None => Ret None
                 end;
      let unit_n := normalize_unit unit in
      Ret {| raw := ing_raw; quantity := quantity; unit := unit_n;
             name := strip name |}
  end.

(** *** The parser on the strings of the specification *)

(** The first character that is not white space is a digit / a letter. *)
Definition begins_with_number (s : pystr) : bool :=
  match lstrip_by is_space s with c :: _ => is_digit c | [] => false end.
Definition begins_with_letter (s : pystr) : bool :=
  match lstrip_by is_space s with c :: _ => is_alpha c | [] => false end.

(** The shape of every match of [ING_RE]. *)
Definition ING_shape (s : pystr) (m : captures) : Prop :=
  exists w1 q w2 u w3 nm tl,
    s = w1 ++ q ++ w2 ++ u ++ w3 ++ nm ++ tl
    /\ all is_space w1 /\ all is_space w2 /\ all is_space w3
    /\ (q = [] /\ m !! "qty" = None
        \/ m !! "qty" = Some q /\ exists c q', q = c :: q' /\ is_digit c = true)
    /\ (u = [] /\ m !! "unit" = None
        \/ m !! "unit" = Some u /\ exists c u', u = c :: u' /\ all is_alpha u)
    /\ m !! "name" = Some nm /\ nm <> [] /\ all is_dot nm
    /\ (tl = [] \/ tl = [10]).

Lemma matches_qty_re s i c s' i' c' :
  matches qty_re s i c s' i' c' ->
  c' = c /\ exists ch q', s = (ch :: q') ++ s' /\ is_digit ch = true.
Proof.
  intros H. split.
  - eapply matches_group_free; [exact H|reflexivity].
  - apply matches_seq_inv in H as (s1 & i1 & c1 & H1 & H2).
    apply matches_plus_inv in H1 as (ch & l & -> & Hd & _ & _).
    apply matches_split in H2 as (l2 & -> & _).
    exists ch, (l ++ l2). split; [|exact Hd].
    simpl. rewrite <- app_assoc. reflexivity.
Qed.

Lemma ING_RE_shape s m : re_match ING_RE s = Some m -> ING_shape s m.
Proof.
  intros H. apply re_match_sound in H as (s' & i' & H).
  unfold ING_RE, cat in H. simpl in H.
  apply matches_seq_inv in H as (s1 & i1 & c1 & Hbol & H).
  apply matches_bol_inv in Hbol as (-> & -> & ->).
  apply matches_seq_inv in H as (s2 & i2 & c2 & Hw1 & H).
  apply matches_star_inv in Hw1 as (w1 & -> & Hw1 & -> & ->).
  apply matches_seq_inv in H as (s3 & i3 & c3 & Hq & H).
  apply matches_seq_inv in H as (s4 & i4 & c4 & Hw2 & H).
  apply matches_star_inv in Hw2 as (w2 & -> & Hw2 & -> & ->).
  apply matches_seq_inv in H as (s5 & i5 & c5 & Hu & H).
  apply matches_seq_inv in H as (s6 & i6 & c6 & Hw3 & H).
  apply matches_star_inv in Hw3 as (w3 & -> & Hw3 & -> & ->).
  apply matches_seq_inv in H as (s7 & i7 & c7 & Hn & H).
  apply matches_seq_inv in H as (s8 & i8 & c8 & Heol & H).
  apply matches_eps_inv in H as (-> & -> & ->).
  apply matches_eol_inv in Heol as (-> & -> & Htl).
  apply matches_grp_inv in Hn as (nm & c0 & Hn & -> & ->).
  apply matches_plus_inv in Hn as (ch & l & Hnm & Hch & Hl & ->).
  assert (Hnm' : nm = ch :: l) by (apply (app_inv_tail s7); exact Hnm).
  assert (Hq' : exists q, s2 = q ++ w2 ++ s4 /\
            (q = [] /\ c3 = ∅ \/
             c3 = <["qty" := q]> ∅ /\ exists c q', q = c :: q' /\ is_digit c = true)).
  { apply matches_opt_inv in Hq as [Hq|(-> & -> & ->)].
    - apply matches_grp_inv in Hq as (q & c0 & Hq & -> & ->).
      apply matches_qty_re in Hq as (-> & ch' & q' & Hq & Hd).
      apply app_inv_tail in Hq as ->. exists (ch' :: q').
      split; [reflexivity|]. right. split; [reflexivity|]. eauto.
    - exists []. split; [reflexivity|]. left. split; reflexivity. }
  destruct Hq' as (q & -> & Hq').
  assert (Hu' : exists u, s4 = u ++ w3 ++ nm ++ s7 /\
            (u = [] /\ c5 = c3 \/
             c5 = <["unit" := u]> c3 /\ exists c u', u = c :: u' /\ all is_alpha u)).
  { apply matches_opt_inv in Hu as [Hu|(-> & -> & ->)].
    - apply matches_grp_inv in Hu as (u & c0 & Hu & -> & ->).
      apply matches_plus_inv in Hu as (a & l' & Hu & Ha & Hl' & ->).
      assert (u = a :: l') as -> by (apply (app_inv_tail (w3 ++ nm ++ s7)); exact Hu).
      exists (a :: l'). split; [reflexivity|]. right. split; [reflexivity|].
      exists a, l'. split; [reflexivity|]. constructor; assumption.
    - exists []. split; [reflexivity|]. left. split; reflexivity. }
  destruct Hu' as (u & -> & Hu').
  exists w1, q, w2, u, w3, nm, s7.
  split; [reflexivity|]. repeat (split; [assumption|]).
  split.
  { destruct Hq' as [(-> & ->)|(-> & Hd)].
    - left. split; [reflexivity|].
      rewrite lookup_insert_ne by discriminate.
      destruct Hu' as [(-> & ->)|(-> & _)].
      + apply lookup_empty.
      + rewrite lookup_insert_ne by discriminate. apply lookup_empty.
    - right. split; [|exact Hd].
      rewrite lookup_insert_ne by discriminate.
      destruct Hu' as [(-> & ->)|(-> & _)].
      + apply lookup_insert_eq.
      + rewrite lookup_insert_ne by discriminate. apply lookup_insert_eq. }
  split.
  { destruct Hu' as [(-> & ->)|(-> & Ha)].
    - left. split; [reflexivity|].
      rewrite lookup_insert_ne by discriminate.
      destruct Hq' as [(-> & ->)|(-> & _)].
      + apply lookup_empty.
      + rewrite lookup_insert_ne by discriminate. apply lookup_empty.
    - right. split; [|exact Ha].
      rewrite lookup_insert_ne by discriminate. apply lookup_insert_eq. }
  split; [apply lookup_insert_eq|].
  split; [rewrite Hnm'; discriminate|].
  split; [rewrite Hnm'; constructor; assumption|].
  exact Htl.
Qed.

Definition fallback (ing_raw : pystr) : Ingredient :=
  {| raw := ing_raw; quantity := None; unit := None; name := strip ing_raw |}.

Lemma try_or_none_returns {A} (body : exc A) : returns (try_or_none body).
Proof. destruct body; eexists; reflexivity. Qed.

Lemma parse_quantity_returns q : returns (parse_quantity q).
Proof.
  unfold parse_quantity. destruct (negb (truthy (PStr q))).
  - eexists; reflexivity.
  - apply try_or_none_returns.
Qed.

(** C4.  [parse_ingredient] is total: for every string it returns an
    ingredient (it never raises), whose [raw] field is the input; when the
    pattern does not match (quantity and unit cannot be separated from the
    name) the result is the fallback record, with the whole line, stripped,
    as the name and no quantity and no unit; the empty string is such a
    case. *)
Theorem parse_ingredient_total (s : pystr) :
  (exists ing, parse_ingredient s = Ret ing /\ raw ing = s)
  /\ (re_match ING_RE s = None -> parse_ingredient s = Ret (fallback s))
  /\ parse_ingredient [] = Ret (fallback []).
Proof.
  split; [|split].
  - unfold parse_ingredient. destruct (re_match ING_RE s) as [m|].
    + destruct (m !! "qty") as [q|]; simpl.
      * destruct q as [|c q]; simpl.
        -- eexists; split; reflexivity.
        -- destruct (parse_quantity_returns (c :: q)) as [v Hv].
           rewrite Hv. simpl. eexists; split; reflexivity.
      * eexists; split; reflexivity.
    + eexists; split; reflexivity.
  - intros H. unfold parse_ingredient. rewrite H. reflexivity.
  - reflexivity.
Qed.

Lemma parse_ingredient_total_witness :
  parse_ingredient [10] = Ret (fallback [10]).
Proof.
  apply (parse_ingredient_total [10]). reflexivity.
Defined.

Lemma lstrip_by_space_app w c r :
  all is_space w -> is_space c = false ->
  lstrip_by is_space (w ++ c :: r) = c :: r.
Proof.
  intros Hw Hc. rewrite lstrip_by_app_all by exact Hw. simpl. rewrite Hc. reflexivity.
Qed.

(** C2 (as amended).  For every string that does not begin with a number
    (its first character after leading white space is not a digit) the
    quantity is null; when it does not begin with a letter either, the unit
    is null and the name is the whole string, stripped. *)
Theorem parse_ingredient_no_number (s : pystr) :
  begins_with_number s = false ->
  exists ing,
    parse_ingredient s = Ret ing /\ raw ing = s /\ quantity ing = None
    /\ (begins_with_letter s = false -> unit ing = None /\ name ing = strip s).
Proof.
  intros Hnum. unfold parse_ingredient.
  destruct (re_match ING_RE s) as [m|] eqn:Hm.
  2:{ eexists. split; [reflexivity|]. simpl. auto. }
  apply ING_RE_shape in Hm
    as (w1 & q & w2 & u & w3 & nm & tl & Hs & Hw1 & Hw2 & Hw3 & Hq & Hu & Hn & _ & _ & Htl).
  assert (Hq' : q = [] /\ m !! "qty" = None).
  { destruct Hq as [?|(_ & c & q' & -> & Hd)]; [assumption|exfalso].
    unfold begins_with_number in Hnum. rewrite Hs in Hnum. simpl in Hnum.
    rewrite lstrip_by_space_app in Hnum by auto using is_digit_not_space.
    congruence. }
  destruct Hq' as (-> & Hq'). rewrite Hq', Hn. simpl.
  eexists. split; [reflexivity|]. simpl. split; [reflexivity|]. split; [reflexivity|].
  intros Hlet.
  assert (Hu' : u = [] /\ m !! "unit" = None).
  { destruct Hu as [?|(_ & c & u' & -> & Ha)]; [assumption|exfalso].
    apply Forall_cons in Ha as [Ha _].
    unfold begins_with_letter in Hlet. rewrite Hs in Hlet. simpl in Hlet.
    rewrite lstrip_by_app_all in Hlet by exact Hw1.
    rewrite lstrip_by_space_app in Hlet by auto using is_alpha_not_space.
    congruence. }
  destruct Hu' as (-> & ->). simpl. split; [reflexivity|].
  rewrite Hs. simpl.
  rewrite !strip_app_space_l by assumption.
  rewrite strip_app_space_r; [reflexivity|].
  destruct Htl as [->| ->]; repeat constructor.
Qed.

Lemma parse_ingredient_no_number_witness :
  exists ing, parse_ingredient (lit "-salt") = Ret ing
              /\ quantity ing = None /\ unit ing = None
              /\ name ing = lit "-salt".
Proof.
  destruct (parse_ingredient_no_number (lit "-salt") eq_refl)
    as (ing & H & _ & Hq & Hl).
  exists ing. destruct (Hl eq_refl) as [Hu Hn]. auto.
Defined.

(** C2 (as stated) fails on a string that begins with a word: the word is
    taken as the unit and only the rest is the name. *)
Lemma parse_ingredient_unit_without_number :
  parse_ingredient (lit "salt to taste")
  = Ret {| raw := lit "salt to taste"; quantity := None;
           unit := Some (lit "salt"); name := lit "to taste" |}
  /\ begins_with_number (lit "salt to taste") = false
  /\ lit "to taste" <> strip (lit "salt to taste").
Proof.
  split; [vm_compute; reflexivity|]. split; [reflexivity|].
  vm_compute. discriminate.
Qed.

Lemma span_space (s : pystr) :
  exists w body, s = w ++ body /\ all is_space w /\ head_not is_space body.
Proof.
  induction s as [|c s (w & body & -> & Hw & Hb)].
  - exists [], []. simpl. auto.
  - destruct (is_space c) eqn:Hc.
    + exists (c :: w), body. simpl. auto.
    + exists [], (c :: w ++ body). simpl. auto.
Qed.

(** The end of the pattern: [\s*(?P<name>.+)$]. *)
Definition name_re : re := cat [Star is_space; Grp "name" (Plus is_dot); Eol].

Lemma name_re_body (w body : pystr) (b : N) (i : nat) (c : captures) :
  all is_space w -> is_space b = false -> all is_dot (b :: body) ->
  rmatch name_re (w ++ b :: body) i c (fun _ _ c => Some c)
  = Some (<["name" := b :: body]> c).
Proof.
  intros Hw Hb Hdot. apply Forall_cons in Hdot as [Hb' Hbody].
  assert (H : takes name_re (w ++ b :: body) [] (fun c => <["name" := b :: body]> c)).
  { unfold name_re, cat. simpl foldr.
    apply (takes_seq _ _ w (b :: body) [] (fun c => c)
             (fun c => <["name" := b :: body]> c)).
    - rewrite app_nil_r. apply takes_star; [exact Hw|exact Hb].
    - rewrite <- (app_nil_r (b :: body)) at 1.
      apply (takes_seq _ _ (b :: body) [] [] (fun c => <["name" := b :: body]> c)
               (fun c => c)).
      + rewrite app_nil_r. apply takes_grp. apply takes_plus; simpl; auto.
      + intros i0 c0 k res Hk. simpl in *. rewrite Nat.add_0_r in Hk. exact Hk. }
  specialize (H i c (fun _ _ c => Some c) (<["name" := b :: body]> c) eq_refl).
  rewrite app_nil_r in H. exact H.
Qed.

Lemma name_re_blank (l : pystr) (c0 : N) (i : nat) (c : captures) :
  all is_space l -> is_space c0 = true -> c0 <> 10 ->
  rmatch name_re (l ++ [c0]) i c (fun _ _ c => Some c) = Some (<["name" := [c0]]> c).
Proof.
  intros Hl Hc0 Hne. unfold name_re, cat. simpl.
  apply star_k_giveback; try assumption; simpl; auto.
  assert (Hd : is_dot c0 = true).
  { unfold is_dot. destruct (N.eqb_spec c0 10); [contradiction|reflexivity]. }
  rewrite Hd. f_equal.
  replace (S (i + length l) - (i + length l))%nat with 1%nat by lia.
  reflexivity.
Qed.

Lemma name_stage (nm : pystr) (i : nat) (c : captures) :
  Forall (fun ch => ch <> 10) nm ->
  exists nm',
    rmatch name_re (32 :: nm) i c (fun _ _ c => Some c) = Some (<["name" := nm']> c)
    /\ strip nm' = strip nm.
Proof.
  intros Hnl.
  assert (Hdot : all is_dot nm).
  { eapply Forall_impl; [exact Hnl|]. intros ch Hch. unfold is_dot.
    destruct (N.eqb_spec ch 10); [contradiction|reflexivity]. }
  destruct (span_space nm) as (w & body & -> & Hw & Hb).
  destruct body as [|b body].
  - (* only white space after the unit: the last character is given back *)
    rewrite app_nil_r in *.
    assert (Hw' : all is_space (32 :: w)) by (constructor; [reflexivity|exact Hw]).
    destruct (exists_last (l := 32 :: w)) as (l & c0 & Heq); [discriminate|].
    rewrite Heq in Hw' |- *. apply Forall_app in Hw' as [Hl Hc0].
    apply Forall_cons in Hc0 as [Hc0 _].
    assert (Hne : c0 <> 10).
    { assert (Hin : In c0 (32 :: w)) by (rewrite Heq; apply in_or_app; right; left; reflexivity).
      destruct Hin as [<-|Hin]; [discriminate|].
      rewrite Forall_forall in Hnl. apply Hnl. apply list_elem_of_In. exact Hin. }
    exists [c0]. split.
    + apply name_re_blank; assumption.
    + rewrite (strip_all_space w) by exact Hw.
      apply strip_all_space. constructor; [exact Hc0|constructor].
  - exists (b :: body). split.
    + apply Forall_app in Hdot as [_ Hdot].
      apply (name_re_body (32 :: w) body b i c); [|exact Hb|exact Hdot].
      constructor; [reflexivity|exact Hw].
    + rewrite strip_app_space_l by exact Hw. reflexivity.
Qed.

Lemma takes_seq_eq r1 r2 l l1 l2 rest (f f1 f2 : captures -> captures) :
  l = l1 ++ l2 -> (forall c, f c = f2 (f1 c)) ->
  takes r1 l1 (l2 ++ rest) f1 -> takes r2 l2 rest f2 ->
  takes (Seq r1 r2) l rest f.
Proof.
  intros -> Hf H1 H2 i c k res H. rewrite Hf in H.
  exact (takes_seq r1 r2 l1 l2 rest f1 f2 H1 H2 i c k res H).
Qed.

(** The quantities of the specification: an integer, a decimal, a simple
    fraction, a mixed number; each part is a run of digits. *)
Inductive qty_syntax :=
| QInteger (d : pystr)
| QDecimal (i f : pystr)
| QFraction (n d : pystr)
| QMixed (w n d : pystr).

Definition qty_text (q : qty_syntax) : pystr :=
  match q with
  | QInteger d => d
  | QDecimal i f => i ++ 46 :: f
  | QFraction n d => n ++ 47 :: d
  | QMixed w n d => w ++ 32 :: n ++ 47 :: d
  end.

Definition digit_run (d : pystr) : Prop := d <> [] /\ all is_digit d.

Definition qty_parts (q : qty_syntax) : list pystr :=
  match q with
  | QInteger d => [d]
  | QDecimal i f => [i; f]
  | QFraction n d => [n; d]
  | QMixed w n d => [w; n; d]
  end.

Definition qty_shape (q : qty_syntax) : Prop := Forall digit_run (qty_parts q).

Lemma digit_run_inv d : digit_run d ->
  exists c l, d = c :: l /\ is_digit c = true /\ all is_digit l.
Proof.
  intros [Hne Hd]. destruct d as [|c l]; [contradiction|].
  apply Forall_cons in Hd as [Hc Hl]. eauto.
Qed.

Lemma takes_digit_run d rest :
  digit_run d -> head_not is_digit rest -> takes (Plus is_digit) d rest (fun c => c).
Proof.
  intros Hd Hr. apply digit_run_inv in Hd as (c & l & -> & Hc & Hl).
  apply takes_plus; assumption.
Qed.

Ltac seq_step l1 l2 f1 f2 :=
  apply (takes_seq_eq _ _ _ l1 l2 _ _ f1 f2);
  [ simpl; rewrite <- ?app_assoc; simpl; rewrite ?app_nil_r; reflexivity
  | intros ?; reflexivity | | ].

Lemma qty_re_takes (q : qty_syntax) (a : N) (r : pystr) :
  qty_shape q -> is_alpha a = true ->
  takes qty_re (qty_text q) (32 :: a :: r) (fun c => c).
Proof.
  intros Hq Ha.
  assert (Hnd : is_digit a = false) by (apply is_alpha_not_digit; exact Ha).
  unfold qty_re, cat. simpl foldr.
  destruct q as [d|i f|n d|w n d]; unfold qty_shape in Hq; simpl in Hq.
  - (* integer *)
    apply Forall_cons in Hq as [Hd _].
    seq_step d (@nil N) (fun c : captures => c) (fun c : captures => c).
    + apply takes_digit_run; [exact Hd|reflexivity].
    + seq_step (@nil N) (@nil N) (fun c : captures => c) (fun c : captures => c).
      * apply takes_opt_skip. apply fails_alt; [|apply fails_alt].
        -- apply fails_cls_seq; [reflexivity|]. apply fails_seq.
           apply fails_plus. exact Hnd.
        -- apply fails_seq. apply fails_cls. reflexivity.
        -- apply fails_seq. apply fails_cls. reflexivity.
      * apply takes_eps.
  - (* decimal *)
    apply Forall_cons in Hq as [Hi Hq]. apply Forall_cons in Hq as [Hf _].
    seq_step i (46 :: f) (fun c : captures => c) (fun c : captures => c).
    + apply takes_digit_run; [exact Hi|reflexivity].
    + seq_step (46 :: f) (@nil N) (fun c : captures => c) (fun c : captures => c).
      * apply takes_opt. apply takes_alt_r; [|apply takes_alt_r].
        -- apply fails_seq. apply fails_cls. reflexivity.
        -- apply fails_seq. apply fails_cls. reflexivity.
        -- seq_step [46] f (fun c : captures => c) (fun c : captures => c).
           ++ apply takes_cls. reflexivity.
           ++ seq_step f (@nil N) (fun c : captures => c) (fun c : captures => c).
              ** apply takes_digit_run; [exact Hf|reflexivity].
              ** apply takes_eps.
      * apply takes_eps.
  - (* fraction *)
    apply Forall_cons in Hq as [Hn Hq]. apply Forall_cons in Hq as [Hd _].
    seq_step n (47 :: d) (fun c : captures => c) (fun c : captures => c).
    + apply takes_digit_run; [exact Hn|reflexivity].
    + seq_step (47 :: d) (@nil N) (fun c : captures => c) (fun c : captures => c).
      * apply takes_opt. apply takes_alt_r; [|apply takes_alt_l].
        -- apply fails_seq. apply fails_cls. reflexivity.
        -- seq_step [47] d (fun c : captures => c) (fun c : captures => c).
           ++ apply takes_cls. reflexivity.
           ++ seq_step d (@nil N) (fun c : captures => c) (fun c : captures => c).
              ** apply takes_digit_run; [exact Hd|reflexivity].
              ** apply takes_eps.
      * apply takes_eps.
  - (* mixed number *)
    apply Forall_cons in Hq as [Hw Hq]. apply Forall_cons in Hq as [Hn Hq].
    apply Forall_cons in Hq as [Hd _].
    seq_step w (32 :: n ++ 47 :: d) (fun c : captures => c) (fun c : captures => c).
    + apply takes_digit_run; [exact Hw|reflexivity].
    + seq_step (32 :: n ++ 47 :: d) (@nil N) (fun c : captures => c) (fun c : captures => c).
      * apply takes_opt. apply takes_alt_l.
        seq_step [32] (n ++ 47 :: d) (fun c : captures => c) (fun c : captures => c).
        -- apply takes_cls. reflexivity.
        -- seq_step n (47 :: d) (fun c : captures => c) (fun c : captures => c).
           ++ apply takes_digit_run; [exact Hn|reflexivity].
           ++ seq_step [47] d (fun c : captures => c) (fun c : captures => c).
              ** apply takes_cls. reflexivity.
              ** seq_step d (@nil N) (fun c : captures => c) (fun c : captures => c).
                 --- apply takes_digit_run; [exact Hd|reflexivity].
                 --- apply takes_eps.
      * apply takes_eps.
Qed.

Lemma qty_text_head q : qty_shape q ->
  exists c l, qty_text q = c :: l /\ is_digit c = true.
Proof.
  intros Hq. destruct q as [d|i f|n d|w n d]; unfold qty_shape in Hq; simpl in Hq;
    apply Forall_cons in Hq as [H _];
    apply digit_run_inv in H as (c & l & -> & Hc & _); simpl; eauto.
Qed.

(** [\s*(?P<qty>...)?\s*(?P<unit>[a-zA-Z]+)?], the part of [ING_RE] between
    [^] and the name. *)
Definition head_re : re :=
  cat [ Star is_space; Opt (Grp "qty" qty_re); Star is_space;
        Opt (Grp "unit" (Plus is_alpha)) ].

Lemma ING_RE_split (s : pystr) :
  re_match ING_RE s
  = rmatch head_re s 0%nat ∅
      (fun s' i' c' => rmatch name_re s' i' c' (fun _ _ c => Some c)).
Proof. reflexivity. Qed.

Lemma head_re_takes (q : qty_syntax) (u rest : pystr) :
  qty_shape q -> u <> [] -> all is_alpha u ->
  takes head_re (qty_text q ++ 32 :: u) (32 :: rest)
    (fun c => <["unit" := u]> (<["qty" := qty_text q]> c)).
Proof.
  intros Hq Hne Hu. destruct u as [|a u']; [contradiction|].
  pose proof Hu as Hu0. apply Forall_cons in Hu as [Ha Hu'].
  destruct (qty_text_head q Hq) as (d0 & dl & Hqt & Hd0).
  unfold head_re, cat. simpl foldr.
  seq_step (@nil N) (qty_text q ++ 32 :: a :: u') (fun c : captures => c)
    (fun c : captures => <["unit" := a :: u']> (<["qty" := qty_text q]> c)).
  { apply takes_star; [constructor|].
    rewrite <- app_assoc, Hqt. simpl. apply is_digit_not_space. exact Hd0. }
  seq_step (qty_text q) (32 :: a :: u')
    (fun c : captures => <["qty" := qty_text q]> c)
    (fun c : captures => <["unit" := a :: u']> c).
  { apply takes_opt. apply takes_grp. apply qty_re_takes; assumption. }
  seq_step [32] (a :: u') (fun c : captures => c)
    (fun c : captures => <["unit" := a :: u']> c).
  { apply takes_star; [repeat constructor|].
    simpl. apply is_alpha_not_space. exact Ha. }
  seq_step (a :: u') (@nil N) (fun c : captures => <["unit" := a :: u']> c)
    (fun c : captures => c).
  { apply takes_opt. apply takes_grp. apply takes_plus; [exact Ha|exact Hu'|reflexivity]. }
  apply takes_eps.
Qed.

Lemma ING_RE_qty_unit_name (q : qty_syntax) (u nm : pystr) :
  qty_shape q -> u <> [] -> all is_alpha u -> Forall (fun ch => ch <> 10) nm ->
  exists nm',
    re_match ING_RE (qty_text q ++ 32 :: u ++ 32 :: nm)
    = Some (<["name" := nm']> (<["unit" := u]> (<["qty" := qty_text q]> ∅)))
    /\ strip nm' = strip nm.
Proof.
  intros Hq Hne Hu Hnm.
  destruct (name_stage nm (0 + length (qty_text q ++ 32 :: u))
              (<["unit" := u]> (<["qty" := qty_text q]> ∅)) Hnm) as (nm' & Hm & Hs).
  exists nm'. split; [|exact Hs].
  rewrite ING_RE_split.
  replace (qty_text q ++ 32 :: u ++ 32 :: nm)
    with ((qty_text q ++ 32 :: u) ++ 32 :: nm)
    by (rewrite <- app_assoc; reflexivity).
  apply (head_re_takes q u nm Hq Hne Hu). exact Hm.
Qed.

Definition qty_value (q : qty_syntax) : Q :=
  match q with
  | QInteger d => number d # 1
  | QDecimal i f => number (i ++ f) # Z.to_pos (10 ^ Z.of_nat (length f))
  | QFraction n d => number n # Z.to_pos (number d)
  | QMixed w n d => Qplus (inject_Z (number w)) (number n # Z.to_pos (number d))
  end.

(** The parts that [int] converts are within its digit limit, and no
    denominator is zero. *)
Definition qty_convertible (q : qty_syntax) : Prop :=
  match q with
  | QInteger _ | QDecimal _ _ => True
  | QFraction n d =>
      number d <> 0%Z /\ within_int_limit n /\ within_int_limit d
  | QMixed w n d =>
      number d <> 0%Z /\ within_int_limit w /\ within_int_limit n
      /\ within_int_limit d
  end.

(** The value is small enough for a float. *)
Definition qty_in_float_range (q : qty_syntax) : Prop :=
  Qmag_overflows (qty_value q) = false.

Lemma float_of_Q_value (q q' : Q) :
  Qeq q q' -> Qmag_overflows q' = false -> float_of_Q q = Ret (FNear (Qred q')).
Proof.
  intros Hq Hov. unfold float_of_Q.
  rewrite (Qmag_overflows_Qeq _ _ Hq), Hov. f_equal. f_equal. apply Qred_eq. exact Hq.
Qed.

Lemma contains_char_run_sep ch n x d :
  all is_digit n -> all is_digit d -> is_digit ch = false ->
  contains_char ch (n ++ x :: d) = (ch =? x).
Proof.
  intros Hn Hd Hch. rewrite contains_char_app. simpl.
  rewrite !contains_char_digits by assumption. simpl. apply orb_false_r.
Qed.

Lemma parse_quantity_qty (q : qty_syntax) :
  qty_shape q -> qty_convertible q -> qty_in_float_range q ->
  parse_quantity (qty_text q) = Ret (Some (FNear (Qred (qty_value q)))).
Proof.
  intros Hs Hc Hr. unfold parse_quantity.
  destruct (qty_text_head q Hs) as (c0 & l0 & Hhd & _).
  rewrite Hhd at 1. simpl negb. cbv iota.
  unfold qty_in_float_range in Hr.
  destruct q as [d|i f|n d|w n d]; unfold qty_shape in Hs; simpl in Hs, Hc, Hr |- *.
  - apply Forall_cons in Hs as [[Hd0 Hd] _].
    rewrite strip_digit_run by assumption.
    rewrite !contains_char_digits by (assumption || reflexivity). simpl.
    rewrite float_of_str_integer by assumption. simpl.
    rewrite (float_of_decimal_value _ _ (number d # 1)); [reflexivity| |exact Hr].
    unfold scale10, Qeq. simpl. lia.
  - apply Forall_cons in Hs as [[Hi0 Hi] Hs]. apply Forall_cons in Hs as [[Hf0 Hf] _].
    rewrite strip_digit_run_sep by assumption.
    rewrite !contains_char_run_sep by (assumption || reflexivity). simpl.
    rewrite float_of_str_decimal by assumption. simpl.
    rewrite (float_of_decimal_value _ _ _ (Qeq_refl _)).
    + f_equal. f_equal. f_equal. f_equal. unfold scale10.
      destruct (Z.leb_spec 0 (- Z.of_nat (length f))) as [H|H].
      * destruct f; [contradiction|simpl in H; lia].
      * rewrite Z.opp_involutive. reflexivity.
    + rewrite <- Hr. f_equal. unfold scale10.
      destruct (Z.leb_spec 0 (- Z.of_nat (length f))) as [H|H].
      * destruct f; [contradiction|simpl in H; lia].
      * rewrite Z.opp_involutive. reflexivity.
  - apply Forall_cons in Hs as [[Hn0 Hn] Hs]. apply Forall_cons in Hs as [[Hd0 Hd] _].
    destruct Hc as (Hnz & Ln & Ld).
    rewrite strip_digit_run_sep by assumption.
    rewrite !contains_char_run_sep by (assumption || reflexivity). simpl.
    rewrite Fraction_of_str_run by assumption. simpl.
    rewrite (float_of_Q_value _ (number n # Z.to_pos (number d)));
      [reflexivity|apply Qred_correct|exact Hr].
  - apply Forall_cons in Hs as [[Hw0 Hw] Hs]. apply Forall_cons in Hs as [[Hn0 Hn] Hs].
    apply Forall_cons in Hs as [[Hd0 Hd] _].
    destruct Hc as (Hnz & Lw & Ln & Ld).
    assert (Hstrip : strip (w ++ 32 :: n ++ 47 :: d) = w ++ 32 :: n ++ 47 :: d).
    { destruct (all_digit_last d Hd0 Hd) as (l' & c' & -> & Hc').
      destruct w as [|c w']; [contradiction|].
      pose proof Hw as Hw1. apply Forall_cons in Hw1 as [Hcw _].
      simpl. eapply (strip_digit_ends c _ (c :: w' ++ 32 :: n ++ 47 :: l') c');
        [exact Hcw|exact Hc'|].
      simpl. rewrite <- !app_assoc. simpl. rewrite <- app_assoc. reflexivity. }
    rewrite Hstrip.
    assert (H32 : contains_char 32 (w ++ 32 :: n ++ 47 :: d) = true).
    { rewrite contains_char_app. simpl. apply orb_true_r. }
    assert (H47 : contains_char 47 (w ++ 32 :: n ++ 47 :: d) = true).
    { rewrite !contains_char_app. simpl. rewrite contains_char_app. simpl.
      rewrite !orb_true_r. reflexivity. }
    rewrite H32, H47. simpl andb. cbv iota.
    rewrite split_first_app by (apply contains_char_digits; [exact Hw|reflexivity]).
    rewrite int_of_str_run by assumption. simpl.
    rewrite Fraction_of_str_run by assumption. simpl.
    rewrite (float_of_Q_value _
               (Qplus (inject_Z (number w)) (number n # Z.to_pos (number d))));
      [reflexivity| |exact Hr].
    apply Qplus_comp; [reflexivity|apply Qred_correct].
Qed.

Lemma UNIT_MAP_key (u v : pystr) :
  UNIT_MAP !! u = Some v -> u <> lit "tbsp." ->
  u <> [] /\ all is_alpha u /\ normalize_unit (Some u) = Some v.
Proof.
  intros Hk Hne. unfold UNIT_MAP in Hk.
  apply elem_of_list_to_map_2 in Hk. apply list_elem_of_In in Hk.
  unfold UNIT_MAP_items in Hk. simpl in Hk.
  repeat (destruct Hk as [Hk|Hk];
          [injection Hk as <- <-;
           first [ exfalso; apply Hne; reflexivity
                 | split; [discriminate|];
                   split; [repeat constructor|vm_compute; reflexivity] ]
          |]).
  destruct Hk.
Qed.

(** C3 (as amended).  For every string "<qty> <unit> <name>" where qty is
    an integer, a decimal, a simple fraction or a mixed number (with a
    non-zero denominator, within the digit limit of [int] and the range of a
    float), unit is a key of the synonym table other than "tbsp.", and name
    contains no line feed, [parse_ingredient] returns the float of the value
    of qty as the quantity, the synonym as the unit, and name stripped as the
    name. *)
Theorem parse_ingredient_qty_unit_name (q : qty_syntax) (u v nm : pystr) :
  qty_shape q -> qty_convertible q -> qty_in_float_range q ->
  UNIT_MAP !! u = Some v -> u <> lit "tbsp." ->
  Forall (fun ch => ch <> 10) nm ->
  parse_ingredient (qty_text q ++ 32 :: u ++ 32 :: nm)
  = Ret {| raw := qty_text q ++ 32 :: u ++ 32 :: nm;
           quantity := Some (FNear (Qred (qty_value q)));
           unit := Some v;
           name := strip nm |}.
Proof.
  intros Hs Hc Hr Hk Hne Hnm.
  destruct (UNIT_MAP_key u v Hk Hne) as (Hu0 & Hu & Hnorm).
  destruct (ING_RE_qty_unit_name q u nm Hs Hu0 Hu Hnm) as (nm' & Hm & Hstrip).
  set (m := <["name" := nm']> (<["unit" := u]> (<["qty" := qty_text q]> ∅))) in Hm.
  assert (Hmq : m !! "qty" = Some (qty_text q)).
  { unfold m. rewrite !lookup_insert_ne by discriminate. apply lookup_insert_eq. }
  assert (Hmu : m !! "unit" = Some u).
  { unfold m. rewrite lookup_insert_ne by discriminate. apply lookup_insert_eq. }
  assert (Hmn : m !! "name" = Some nm') by apply lookup_insert_eq.
  unfold parse_ingredient. rewrite Hm, Hmq, Hmu.
  destruct (qty_text_head q Hs) as (c0 & l0 & Hhd & _).
  assert (Ht : truthy (PStr (qty_text q)) = true) by (rewrite Hhd; reflexivity).
  rewrite Ht. rewrite parse_quantity_qty by assumption.
  cbv [mbind exc_bind]. rewrite Hnorm. do 2 f_equal.
  rewrite <- Hstrip. f_equal; unfold m; rewrite ?lookup_insert_eq; reflexivity.
Qed.

Lemma parse_ingredient_qty_unit_name_witness :
  parse_ingredient (lit "1 1/2 tbsp butter")
  = Ret {| raw := lit "1 1/2 tbsp butter";
           quantity := Some (FNear (3 # 2));
           unit := Some (lit "tablespoon");
           name := lit "butter" |}.
Proof.
  apply (parse_ingredient_qty_unit_name
           (QMixed (lit "1") (lit "1") (lit "2")) (lit "tbsp") (lit "tablespoon")
           (lit "butter")).
  - unfold qty_shape, digit_run. simpl. repeat constructor; discriminate.
  - unfold qty_convertible, within_int_limit, int_max_str_digits. simpl.
    repeat split; try discriminate; lia.
  - reflexivity.
  - reflexivity.
  - discriminate.
  - simpl. repeat constructor; discriminate.
Defined.

(** C3 (as stated) fails when the name runs over a line break (the pattern
    does not match and the fallback record has no quantity and no unit), and
    for the key "tbsp." of the synonym table (its period goes to the
    name). *)
Lemma parse_ingredient_multiline_and_tbsp_period :
  parse_ingredient (lit "1 cup rice" ++ 10 :: lit "washed")
  = Ret (fallback (lit "1 cup rice" ++ 10 :: lit "washed"))
  /\ UNIT_MAP !! lit "tbsp." = Some (lit "tablespoon")
  /\ parse_ingredient (lit "1 tbsp. butter")
     = Ret {| raw := lit "1 tbsp. butter"; quantity := Some (FNear (1 # 1));
              unit := Some (lit "tablespoon"); name := lit ". butter" |}.
Proof.
  split; [vm_compute; reflexivity|]. split; vm_compute; reflexivity.
Qed.


(** *** Cells of a CSV file *)

(** [s.split(sep)] for a separator that is not empty: [cur] is the piece
    being read, [skip] the characters of a separator still to pass. *)
Fixpoint split_go (sep s : pystr) (skip : nat) (cur : pystr) : list pystr :=
  match s with
  | [] => [cur]
  | c :: s' =>
      match skip with
      | S k => split_go sep s' k cur
      | O =>
          if starts_with sep s then cur :: split_go sep s' (length sep - 1) []
          else split_go sep s' 0 (cur ++ [c])
      end
  end.

Definition split_on (sep s : pystr) : list pystr := split_go sep s 0 [].

(** The line boundaries of [str.splitlines]. *)
Definition is_linebreak (c : N) : bool :=
  (10 <=? c) && (c <=? 13) || (28 <=? c) && (c <=? 30)
  || (c =? 133) || (c =? 8232) || (c =? 8233).

Fixpoint splitlines_go (s cur : pystr) : list pystr :=
  match s with
  | [] => match cur with [] => [] | _ => [cur] end
  | c :: s' =>
      if c =? 13 then
        match s' with
        | c2 :: s'' =>
            if c2 =? 10 then cur :: splitlines_go s'' []
            else cur :: splitlines_go s' []
        | [] => cur :: splitlines_go s' []
        end
      else if is_linebreak c then cur :: splitlines_go s' []
      else splitlines_go s' (cur ++ [c])
  end.

(** [s.splitlines()] *)
Definition splitlines (s : pystr) : list pystr := splitlines_go s [].

(** [[p.strip() for p in pieces if p.strip()]] *)
Definition stripped_parts (pieces : list pystr) : list pystr :=
  filter (fun p => p <> []) (map strip pieces).

Definition split_delimited_field (val : pystr) : list pystr :=
  if negb (truthy (PStr val)) then []
  else if contains (lit "||") val then stripped_parts (split_on (lit "||") val)
  else if contains [10] val then stripped_parts (splitlines val)
  else if contains (lit ";") val then stripped_parts (split_on (lit ";") val)
  else if contains (lit "|") val then stripped_parts (split_on (lit "|") val)
  else [strip val].

Fixpoint mapM {A B} (f : A -> exc B) (l : list A) : exc (list B) :=
  match l with
  | [] => Ret []
  | x :: l' => y ← f x; ys ← mapM f l'; Ret (y :: ys)
  end.

Section Ingest.

(** [str] of a float, a list or a dictionary, and
    [json.dumps(v, ensure_ascii=False)]. *)
Variable repr_other : pyval -> exc pystr.
Variable json_dumps : pyval -> exc pystr.

(** The body of the [try] of [parse_csv_cell]: [Some] list when it
    returns, [None] when it falls through to the splitting. *)
Definition json_cell (v : pystr) : exc (option (list pystr)) :=
  if starts_with [91] v || starts_with [123] v then
    parsed ← Json.json_loads v;
    match parsed with
    | PList l => Some <$> mapM (py_str repr_other) l
    | PDict _ => (fun x => Some [x]) <$> json_dumps parsed
    | _ => Ret None
    end
  else Ret None.

Definition parse_csv_cell (val : pyval) : exc (list pystr) :=
  if negb (truthy val) then Ret []
  else
    match val with
    | PStr s =>
        let v := strip s in
        match json_cell v with
        | Ret (Some parts) => Ret parts
        | _ => Ret (split_delimited_field v)
        end
    | _ => Raise AttributeError
    end.

(** *** Records *)

(** A parsed ingredient as the dictionary that [parse_ingredient] returns. *)
Definition ingredient_value (ing : Ingredient) : pyval :=
  PDict [ (lit "raw", PStr (raw ing));
          (lit "quantity",
           match quantity ing with Some f => PFloat f | None => PNone end);
          (lit "unit", match unit ing with Some u => PStr u | None => PNone end);
          (lit "name", PStr (name ing)) ].

(** A canonical recipe. *)
Record recipe := {
  id : pystr;
  title : pyval;
  ingredients : list pyval;
  steps : pyval;
  nutrition : pyval;
  source_url : pyval
}.

(** [x[:n]] *)
Definition py_slice_to (n : nat) (x : pyval) : exc pyval :=
  match x with
  | PStr s => Ret (PStr (take n s))
  | PList l => Ret (PList (take n l))
  | _ => Raise TypeError
  end.

Definition normalize_recipe (r : pyval) : exc recipe :=
  id0 ← py_get r (lit "id");
  url ← py_get r (lit "url");
  title0 ← py_get r (lit "title");
  rid ← (if truthy id0 then Ret id0
         else if truthy url then Ret url
         else py_slice_to 64 (py_or title0 (PStr [])));
  let title := py_or title0 (PStr (lit "Untitled")) in
  ings0 ← py_get r (lit "ingredients");
  items ← py_iter (py_or ings0 (PList []));
  parsed_ings ← mapM (fun i => match i with
                               | PStr s => ingredient_value <$> parse_ingredient s
                               | _ => Ret i
                               end) items;
  steps0 ← py_get r (lit "steps");
  nutrition0 ← py_get r (lit "nutrition");
  source_url0 ← py_get r (lit "source_url");
  id_str ← py_str repr_other rid;
  Ret {| id := id_str;
         title := title;
         ingredients := parsed_ings;
         steps := py_or steps0 (PList []);
         nutrition := py_or nutrition0 (PDict []);
         source_url := py_or url source_url0 |}.

(** A row of [csv.DictReader]: the cells by column name; a column that is
    missing, or that the row is too short for, reads as [None]. *)
Definition row_get (row : gmap pystr pystr) (k : string) : pyval :=
  match row !! lit k with
  | Some s => PStr s
  | None => PNone
  end.

(** The record that [run] builds from a CSV row. *)
Definition csv_item (row : gmap pystr pystr) : exc pyval :=
  let title := py_or (row_get row "title")
                 (py_or (row_get row "recipe_title")
                    (py_or (row_get row "name") (row_get row "headline"))) in
  let steps_raw := py_or (row_get row "steps")
                     (py_or (row_get row "directions")
                        (py_or (row_get row "instructions")
                           (row_get row "description"))) in
  ings ← parse_csv_cell (py_or (row_get row "ingredients")
                           (py_or (row_get row "ingredient")
                              (row_get row "ingredients_list")));
  steps ← parse_csv_cell steps_raw;
  let steps1 :=
    if negb (truthy (PList (map PStr steps))) && truthy (row_get row "description")
    then PList [row_get row "description"]
    else PList (map PStr steps) in
  Ret (PDict [ (lit "id", py_or (row_get row "id")
                            (py_or (row_get row "url") title));
               (lit "title", title);
               (lit "ingredients", PList (map PStr ings));
               (lit "steps", steps1);
               (lit "nutrition", py_or (row_get row "nutrition")
                                   (py_or (row_get row "nutrition_info")
                                      (PDict [])));
               (lit "source_url", py_or (row_get row "source_url")
                                    (py_or (row_get row "url")
                                       (row_get row "source"))) ]).

(** *** The run over the directory *)

(** An entry of the directory: its name, what [json.load] makes of it
    (it raises when the entry cannot be opened, decoded or parsed), and what
    [csv.DictReader] makes of it: the rows it yields, and whether the
    reading then stops with an exception. *)
Record dir_entry := {
  entry_name : pystr;
  as_json : exc pyval;
  as_csv : list (gmap pystr pystr) * bool
}.

(** [a <= b] on strings: by code points, the shorter first. *)
Fixpoint str_le (a b : pystr) : bool :=
  match a, b with
  | [], _ => true
  | _ :: _, [] => false
  | x :: a', y :: b' => (x <? y) || ((x =? y) && str_le a' b')
  end.

Fixpoint insert_sorted (e : dir_entry) (l : list dir_entry) : list dir_entry :=
  match l with
  | [] => [e]
  | x :: l' =>
      if str_le (entry_name x) (entry_name e) then x :: insert_sorted e l'
      else e :: l
  end.

(** [sorted(raw_dir.glob('*'))] *)
Definition sorted_entries (listing : list dir_entry) : list dir_entry :=
  foldl (fun acc e => insert_sorted e acc) [] listing.

(** The last position of [ch] in [s]. *)
Fixpoint rfind (ch : N) (s : pystr) (pos : nat) (found : option nat)
  : option nat :=
  match s with
  | [] => found
  | c :: s' => rfind ch s' (S pos) (if c =? ch then Some pos else found)
  end.

(** [p.suffix] *)
Definition suffix (name : pystr) : pystr :=
  match rfind 46 name 0 None with
  | Some i =>
      if (0 <? i)%nat && (i <? length name - 1)%nat then drop i name else []
  | None => []
  end.

Inductive file_kind := JsonFile | CsvFile | OtherFile.

Definition kind_of (name : pystr) : file_kind :=
  if pystr_eqb (lower (suffix name)) (lit ".json") then JsonFile
  else if pystr_eqb (lower (suffix name)) (lit ".csv") then CsvFile
  else OtherFile.

Record state := {
  collected : list recipe;
  seen_ids : gset pystr
}.

(** [sample_limit and len(collected) >= sample_limit] *)
Definition limit_reached (sample_limit : option Z) (st : state) : bool :=
  match sample_limit with
  | Some n => negb (n =? 0)%Z && (n <=? Z.of_nat (length (collected st)))%Z
  | None => false
  end.

(** How the loop over the records of one file ends. *)
Inductive ending := Finished | Broke | Failed.

Section Limit.
Variable sample_limit : option Z.

(** What is done with a normalized record; [true] when the loop breaks. *)
Definition keep (nr : recipe) (st : state) : state * bool :=
  if bool_decide (id nr ∈ seen_ids st) then (st, false)
  else
    let st1 := {| collected := collected st ++ [nr];
                  seen_ids := seen_ids st ∪ {[ id nr ]} |} in
    (st1, limit_reached sample_limit st1).

Fixpoint json_records (items : list pyval) (st : state) : state * ending :=
  match items with
  | [] => (st, Finished)
  | r :: rest =>
      match normalize_recipe r with
      | Raise _ => (st, Failed)
      | Ret nr =>
          match keep nr st with
          | (st1, true) => (st1, Broke)
          | (st1, false) => json_records rest st1
          end
      end
  end.

Fixpoint csv_records (rows : list (gmap pystr pystr)) (fails : bool)
    (st : state) : state * ending :=
  match rows with
  | [] => (st, if fails then Failed else Finished)
  | row :: rest =>
      match item ← csv_item row; normalize_recipe item with
      | Raise _ => (st, Failed)
      | Ret nr =>
          match keep nr st with
          | (st1, true) => (st1, Broke)
          | (st1, false) => csv_records rest fails st1
          end
      end
  end.

(** The body of the [try] for one entry. *)
Definition one_file (p : dir_entry) (st : state) : state * ending :=
  match kind_of (entry_name p) with
  | JsonFile =>
      match as_json p with
      | Raise _ => (st, Failed)
      | Ret data =>
          json_records (match data with PList l => l | _ => [data] end) st
      end
  | CsvFile => csv_records (as_csv p).1 (as_csv p).2 st
  | OtherFile => (st, Failed)
  end.

(** [for p in sorted(...)]: an entry that is neither JSON nor CSV and an
    entry whose reading raised are passed over; after any other entry the
    limit is looked at. *)
Fixpoint files_loop (files : list dir_entry) (st : state) : state :=
  match files with
  | [] => st
  | p :: rest =>
      match one_file p st with
      | (st1, Failed) => files_loop rest st1
      | (st1, _) =>
          if limit_reached sample_limit st1 then st1 else files_loop rest st1
      end
  end.

(** The collection that [run] puts together. *)
Definition collect (listing : list dir_entry) : list recipe :=
  collected (files_loop (sorted_entries listing)
               {| collected := []; seen_ids := ∅ |}).

End Limit.

Definition recipe_value (r : recipe) : pyval :=
  PDict [ (lit "id", PStr (id r)); (lit "title", title r);
          (lit "ingredients", PList (ingredients r)); (lit "steps", steps r);
          (lit "nutrition", nutrition r); (lit "source_url", source_url r) ].

(** [run]: the collection, when it could be written. *)
Definition run (listing : list dir_entry) (sample_limit : option Z)
  : exc (list recipe) :=
  let c := collect sample_limit listing in
  _ ← json_dump_to_file (PList (map recipe_value c));
  Ret c.


(** *** Cells: what [parse_csv_cell] returns *)

Lemma lstrip_by_idem p s : lstrip_by p (lstrip_by p s) = lstrip_by p s.
Proof.
  induction s as [|c s IH]; simpl; [reflexivity|].
  destruct (p c) eqn:Hc; [exact IH|]. simpl. rewrite Hc. reflexivity.
Qed.

Lemma rstrip_by_idem p s : rstrip_by p (rstrip_by p s) = rstrip_by p s.
Proof.
  induction s as [|c s IH]; simpl; [reflexivity|].
  destruct (rstrip_by p s) as [|x r] eqn:Hr.
  - destruct (p c) eqn:Hc; simpl; [reflexivity|]. rewrite Hc. reflexivity.
  - simpl in *. rewrite IH. reflexivity.
Qed.

Lemma rstrip_by_head p c s :
  p c = false -> exists r, rstrip_by p (c :: s) = c :: r.
Proof.
  intros Hc. simpl. destruct (rstrip_by p s); [rewrite Hc|]; eauto.
Qed.

Lemma lstrip_by_head_not p s c r : lstrip_by p s = c :: r -> p c = false.
Proof.
  induction s as [|x s IH]; simpl; [discriminate|].
  destruct (p x) eqn:Hx; [exact IH|]. intros [= <- _]. exact Hx.
Qed.

(** A stripped string that is not empty begins with a character that is not
    white space, and stripping it again changes nothing. *)
Lemma strip_head s c r : strip s = c :: r -> is_space c = false.
Proof.
  unfold strip. destruct (lstrip_by is_space s) as [|x l] eqn:Hl; [discriminate|].
  pose proof (lstrip_by_head_not _ _ _ _ Hl) as Hx.
  destruct (rstrip_by_head is_space x l Hx) as [r' ->]. intros [= <- _]. exact Hx.
Qed.

Lemma strip_idem s : strip (strip s) = strip s.
Proof.
  unfold strip at 1. destruct (strip s) as [|c r] eqn:Hs; [reflexivity|].
  pose proof (strip_head _ _ _ Hs) as Hc. simpl lstrip_by. rewrite Hc.
  rewrite <- Hs. unfold strip. apply rstrip_by_idem.
Qed.

Lemma is_json_space_space c : Json.is_json_space c = true -> is_space c = true.
Proof.
  unfold Json.is_json_space. rewrite !orb_true_iff, !N.eqb_eq.
  intros [[[->| ->]| ->]| ->]; reflexivity.
Qed.

Ltac exc_inv H :=
  repeat match type of H with
  | mbind _ ?m = Ret _ =>
      let E := fresh "E" in
      destruct m as [[? ?]|] eqn:E; cbn [mbind exc_bind] in H; [|discriminate H]
  end.

Definition is_scalar (v : pyval) : Prop :=
  match v with
  | PList _ | PDict _ => False
  | _ => True
  end.

Lemma scan_number_scalar s m rest x :
  Json.scan_number s = Some (m, rest) -> m = Ret x -> is_scalar x.
Proof.
  unfold Json.scan_number. intros H Hm.
  repeat case_match; simplify_eq;
    match goal with
    | H : fmap _ ?e = Ret _ |- _ =>
        destruct e; cbn [fmap exc_fmap] in H; simplify_eq; exact I
    end.
Qed.

(** Only a text that begins with a bracket decodes to a list, and only one
    that begins with a brace to a dictionary. *)
Lemma parse_value_container fuel c r v rest :
  Json.parse_value fuel (c :: r) = Ret (v, rest) ->
  match v with
  | PList _ => c = 91
  | PDict _ => c = 123
  | _ => True
  end.
Proof.
  destruct fuel as [|fuel]; [discriminate|]. cbn [Json.parse_value].
  destruct (N.eqb_spec c 34).
  { intros H. exc_inv H. injection H as <- _. exact I. }
  destruct (N.eqb_spec c 123).
  { intros H. destruct (Json.skip_space r) as [|c1 r1]; [discriminate|].
    destruct (c1 =? 125); [injection H as <- _; assumption|].
    exc_inv H. injection H as <- _. assumption. }
  destruct (N.eqb_spec c 91).
  { intros H. destruct (Json.skip_space r) as [|c1 r1]; [discriminate|].
    destruct (c1 =? 93); [injection H as <- _; assumption|].
    exc_inv H. injection H as <- _. assumption. }
  repeat match goal with
  | |- (if ?b then _ else _) = _ -> _ =>
      destruct b; [intros [= <- _]; exact I|]
  end.
  destruct (Json.scan_number (c :: r)) as [[m rest']|] eqn:Hn; [|discriminate].
  intros H. destruct m as [x|] eqn:Hm; [|discriminate].
  cbn [mbind exc_bind] in H. injection H as <- _.
  pose proof (scan_number_scalar _ _ _ _ Hn eq_refl) as Hs.
  destruct x; try exact I; destruct Hs.
Qed.

(** *** The fuel of the decoder

    The decoder of the model runs on fuel.  What [json_loads] gives it is
    enough for every text: the fuel never runs out, so that an exception of
    the model is one that the decoder of the library raises. *)

Definition in_fuel {A} (m : exc A) : Prop := m <> Raise OutOfFuel.

Lemma in_fuel_bind {A B} (m : exc A) (k : A -> exc B) :
  in_fuel m -> (forall x, m = Ret x -> in_fuel (k x)) -> in_fuel (x ← m; k x).
Proof.
  unfold in_fuel. intros Hm Hk. destruct m as [x|e]; cbn [mbind exc_bind].
  - apply Hk. reflexivity.
  - congruence.
Qed.

Lemma skip_space_length s : (length (Json.skip_space s) <= length s)%nat.
Proof.
  unfold Json.skip_space. induction s as [|c s IH]; [reflexivity|].
  cbn [lstrip_by]. destruct (Json.is_json_space c); cbn [length]; lia.
Qed.

Lemma span_digits_length s : (length (Json.span_digits s).2 <= length s)%nat.
Proof.
  induction s as [|c s IH]; [reflexivity|]. cbn [Json.span_digits].
  destruct (is_ascii_digit c); [|reflexivity].
  destruct (Json.span_digits s) as [d r]. cbn [snd length] in *. lia.
Qed.

Lemma hex4_length s u r : Json.hex4 s = Some (u, r) -> length s = (4 + length r)%nat.
Proof.
  unfold Json.hex4. intros H. repeat case_match; simplify_eq. reflexivity.
Qed.

Lemma scan_string_rest fuel : forall s t rest,
  Json.scan_string fuel s = Ret (t, rest) -> (length rest < length s)%nat.
Proof.
  induction fuel as [|fuel IH]; intros s t rest H; [discriminate|].
  cbn [Json.scan_string] in H.
  destruct s as [|c s1]; [discriminate|]. cbn [length].
  destruct (c =? 34); [injection H as _ <-; lia|].
  destruct (c =? 92).
  - destruct s1 as [|e s2]; [discriminate|]. cbn [length].
    destruct (e =? 117).
    + destruct (Json.hex4 s2) as [[u s3]|] eqn:H4; [|discriminate].
      apply hex4_length in H4.
      assert (Hsingle : forall t rest,
                ('(t, rest) ← Json.scan_string fuel s3; Ret (u :: t, rest))
                = Ret (t, rest) -> (length rest < length s3)%nat).
      { intros t' rest' H'. exc_inv H'. injection H' as _ <-.
        eapply IH. exact E. }
      destruct (Json.is_high_surrogate u && starts_with [92; 117] s3).
      * destruct (Json.hex4 (drop 2 s3)) as [[u2 s4]|] eqn:H4'; [|discriminate].
        apply hex4_length in H4'. rewrite length_drop in H4'.
        destruct (Json.is_low_surrogate u2).
        -- exc_inv H. injection H as _ <-. apply IH in E. lia.
        -- apply Hsingle in H. lia.
      * apply Hsingle in H. lia.
    + destruct (Json.simple_escape e); [|discriminate].
      exc_inv H. injection H as _ <-. apply IH in E. lia.
  - destruct (c <=? 31); [discriminate|].
    exc_inv H. injection H as _ <-. apply IH in E. lia.
Qed.

Lemma scan_string_fuel fuel : forall s,
  (length s < fuel)%nat -> in_fuel (Json.scan_string fuel s).
Proof.
  induction fuel as [|fuel IH]; intros s Hf; [lia|].
  cbn [Json.scan_string]. destruct s as [|c s1]; [discriminate|].
  cbn [length] in Hf.
  destruct (c =? 34); [discriminate|].
  destruct (c =? 92).
  - destruct s1 as [|e s2]; [discriminate|]. cbn [length] in Hf.
    destruct (e =? 117).
    + destruct (Json.hex4 s2) as [[u s3]|] eqn:H4; [|discriminate].
      apply hex4_length in H4.
      assert (Hsingle :
                in_fuel ('(t, rest) ← Json.scan_string fuel s3;
                         Ret (u :: t, rest))).
      { apply in_fuel_bind; [apply IH; lia|]. intros [t rest] _. discriminate. }
      destruct (Json.is_high_surrogate u && starts_with [92; 117] s3);
        [|exact Hsingle].
      destruct (Json.hex4 (drop 2 s3)) as [[u2 s4]|] eqn:H4'; [|discriminate].
      apply hex4_length in H4'. rewrite length_drop in H4'.
      destruct (Json.is_low_surrogate u2); [|exact Hsingle].
      apply in_fuel_bind; [apply IH; lia|]. intros [t rest] _. discriminate.
    + destruct (Json.simple_escape e); [|discriminate].
      apply in_fuel_bind; [apply IH; lia|]. intros [t rest] _. discriminate.
  - destruct (c <=? 31); [discriminate|].
    apply in_fuel_bind; [apply IH; lia|]. intros [t rest] _. discriminate.
Qed.

(** A number takes at least one character, and its conversion raises a
    [ValueError] when it raises. *)
Lemma scan_number_rest s m rest :
  Json.scan_number s = Some (m, rest) -> (length rest < length s)%nat.
Proof.
  unfold Json.scan_number. intros H.
  assert (Hexp : forall r2 b r3,
            match r2 with
            | e :: r2' =>
                if (e =? 101) || (e =? 69) then
                  let r2'' := match r2' with
                              | g :: t => if (g =? 43) || (g =? 45) then t else r2'
                              | [] => r2'
                              end in
                  match Json.span_digits r2'' with
                  | ([], _) => (false, r2)
                  | (_, r) => (true, r)
                  end
                else (false, r2)
            | [] => (false, r2)
            end = (b, r3) -> (length r3 <= length r2)%nat).
  { intros r2 b r3 He. destruct r2 as [|e r2']; [injection He as _ <-; lia|].
    destruct ((e =? 101) || (e =? 69)); [|injection He as _ <-; lia].
    cbv zeta in He.
    match type of He with
    | match Json.span_digits ?x with _ => _ end = _ =>
        pose proof (span_digits_length x) as Hl;
        assert (Hx : (length x <= length r2')%nat)
          by (destruct r2' as [|g t]; [lia|];
              destruct ((g =? 43) || (g =? 45)); cbn [length]; lia);
        destruct (Json.span_digits x) as [[|d ds] r]
    end; injection He as _ <-; cbn [snd length] in *; lia. }
  assert (Hfrac : forall r1 b r2,
            match r1 with
            | p :: d :: _ =>
                if (p =? 46) && is_ascii_digit d
                then (true, (Json.span_digits (drop 1 r1)).2)
                else (false, r1)
            | _ => (false, r1)
            end = (b, r2) -> (length r2 <= length r1)%nat).
  { intros r1 b r2 He.
    pose proof (span_digits_length (drop 1 r1)) as Hl. rewrite length_drop in Hl.
    set (X := (Json.span_digits (drop 1 r1)).2) in *. clearbody X.
    destruct r1 as [|p [|d r1']]; try (injection He as _ <-; lia).
    destruct ((p =? 46) && is_ascii_digit d); injection He as _ <-; lia. }
  match type of H with
  | match ?s1 with _ => _ end = _ =>
      assert (Hs1 : (length s1 <= length s)%nat)
        by (destruct s as [|c r]; [lia|]; destruct (c =? 45); cbn [length]; lia);
      destruct s1 as [|c r] eqn:Es1; [discriminate|]
  end.
  cbn [length] in Hs1. cbv zeta in H.
  match type of H with
  | match ?ie with _ => _ end = _ =>
      assert (Hie : forall r1, ie = Some r1 -> (length r1 <= length r)%nat);
        [|destruct ie as [r1|]; [|discriminate]]
  end.
  { intros r1. destruct ((49 <=? c) && (c <=? 57)).
    - intros [= <-]. apply span_digits_length.
    - destruct (c =? 48); [intros [= <-]; lia|discriminate]. }
  specialize (Hie r1 eq_refl).
  match type of H with
  | (let '(_, _) := ?fr in _) = _ =>
      destruct fr as [is_frac r2] eqn:Efr
  end.
  apply Hfrac in Efr.
  match type of H with
  | (let '(_, _) := ?ex in _) = _ =>
      destruct ex as [is_exp r3] eqn:Eex
  end.
  apply Hexp in Eex. injection H as _ <-. lia.
Qed.

Lemma int_of_str_fuel s : in_fuel (int_of_str s).
Proof.
  unfold in_fuel, int_of_str, int_of_digits.
  destruct (split_sign (strip s)) as [neg r].
  repeat case_match; cbn [mbind exc_bind]; discriminate.
Qed.

Lemma float_of_str_fuel s : in_fuel (float_of_str s).
Proof.
  unfold in_fuel, float_of_str. repeat case_match; discriminate.
Qed.

Lemma scan_number_fuel s m rest :
  Json.scan_number s = Some (m, rest) -> in_fuel m.
Proof.
  unfold Json.scan_number. intros H.
  repeat case_match; simplify_eq; unfold in_fuel;
    match goal with
    | |- fmap _ ?e <> _ =>
        first [ pose proof (int_of_str_fuel _ : in_fuel e) as He
              | pose proof (float_of_str_fuel _ : in_fuel e) as He ];
        unfold in_fuel in He; destruct e; cbn [fmap exc_fmap]; congruence
    end.
Qed.

(** What is left after a value, a list of items or a list of members is
    shorter than the text. *)
Lemma parse_rest fuel :
  (forall s v rest,
      Json.parse_value fuel s = Ret (v, rest) -> (length rest < length s)%nat)
  /\ (forall s l rest,
      Json.parse_items fuel s = Ret (l, rest) -> (length rest < length s)%nat)
  /\ (forall s l rest,
      Json.parse_members fuel s = Ret (l, rest) -> (length rest < length s)%nat).
Proof.
  induction fuel as [|fuel (IHv & IHi & IHm)];
    [repeat split; intros; discriminate|].
  split; [|split].
  - intros s v rest H. cbn [Json.parse_value] in H.
    destruct s as [|c r]; [discriminate|]. cbn [length].
    destruct (c =? 34).
    { exc_inv H. injection H as _ <-. apply scan_string_rest in E. lia. }
    destruct (c =? 123).
    { pose proof (skip_space_length r) as Hsk.
      destruct (Json.skip_space r) as [|c1 r1]; [discriminate|].
      cbn [length] in Hsk.
      destruct (c1 =? 125); [injection H as _ <-; lia|].
      exc_inv H. injection H as _ <-. apply IHm in E. cbn [length] in E. lia. }
    destruct (c =? 91).
    { pose proof (skip_space_length r) as Hsk.
      destruct (Json.skip_space r) as [|c1 r1]; [discriminate|].
      cbn [length] in Hsk.
      destruct (c1 =? 93); [injection H as _ <-; lia|].
      exc_inv H. injection H as _ <-. apply IHi in E. cbn [length] in E. lia. }
    repeat match type of H with
    | (if starts_with ?w ?x then _ else _) = _ =>
        let Hw := fresh "Hw" in
        destruct (starts_with w x) eqn:Hw;
          [injection H as _ <-; rewrite length_drop; cbn [length]; lia|]
    end.
    destruct (Json.scan_number (c :: r)) as [[m rest']|] eqn:Hn; [|discriminate].
    destruct m as [x|]; [|discriminate]. cbn [mbind exc_bind] in H.
    injection H as _ <-. apply scan_number_rest in Hn. exact Hn.
  - intros s l rest H. cbn [Json.parse_items] in H.
    destruct (Json.parse_value fuel s) as [[v rest0]|] eqn:Ev; [|discriminate].
    cbn [mbind exc_bind] in H. apply IHv in Ev.
    pose proof (skip_space_length rest0) as Hsk.
    destruct (Json.skip_space rest0) as [|c r]; [discriminate|].
    cbn [length] in Hsk.
    destruct (c =? 93); [injection H as _ <-; lia|].
    destruct (c =? 44); [|discriminate].
    exc_inv H. injection H as _ <-. apply IHi in E.
    pose proof (skip_space_length r). lia.
  - intros s l rest H. cbn [Json.parse_members] in H.
    destruct s as [|c r]; [discriminate|]. cbn [length].
    destruct (c =? 34); [|discriminate].
    destruct (Json.scan_string fuel r) as [[k rest0]|] eqn:Ek; [|discriminate].
    cbn [mbind exc_bind] in H. apply scan_string_rest in Ek.
    pose proof (skip_space_length rest0) as Hsk.
    destruct (Json.skip_space rest0) as [|c1 r1]; [discriminate|].
    cbn [length] in Hsk.
    destruct (c1 =? 58); [|discriminate].
    destruct (Json.parse_value fuel (Json.skip_space r1)) as [[v rest1]|] eqn:Ev;
      [|discriminate].
    cbn [mbind exc_bind] in H. apply IHv in Ev.
    pose proof (skip_space_length r1) as Hsk1.
    pose proof (skip_space_length rest1) as Hsk2.
    destruct (Json.skip_space rest1) as [|c2 r2]; [discriminate|].
    cbn [length] in Hsk2.
    destruct (c2 =? 125); [injection H as _ <-; lia|].
    destruct (c2 =? 44); [|discriminate].
    exc_inv H. injection H as _ <-. apply IHm in E.
    pose proof (skip_space_length r2). lia.
Qed.

(** Two units of fuel for each character are enough. *)
Lemma parse_fuel fuel :
  (forall s, (2 * length s + 1 <= fuel)%nat -> in_fuel (Json.parse_value fuel s))
  /\ (forall s, (2 * length s + 2 <= fuel)%nat ->
        in_fuel (Json.parse_items fuel s))
  /\ (forall s, (2 * length s + 2 <= fuel)%nat ->
        in_fuel (Json.parse_members fuel s)).
Proof.
  induction fuel as [|fuel (IHv & IHi & IHm)]; [repeat split; intros; lia|].
  split; [|split].
  - intros s Hf. cbn [Json.parse_value].
    destruct s as [|c r]; [discriminate|]. cbn [length] in Hf.
    destruct (c =? 34).
    { apply in_fuel_bind; [apply scan_string_fuel; lia|].
      intros [t rest] _. discriminate. }
    destruct (c =? 123).
    { pose proof (skip_space_length r) as Hsk.
      destruct (Json.skip_space r) as [|c1 r1]; [discriminate|].
      cbn [length] in Hsk. destruct (c1 =? 125); [discriminate|].
      apply in_fuel_bind; [apply IHm; cbn [length]; lia|].
      intros [pairs rest] _. discriminate. }
    destruct (c =? 91).
    { pose proof (skip_space_length r) as Hsk.
      destruct (Json.skip_space r) as [|c1 r1]; [discriminate|].
      cbn [length] in Hsk. destruct (c1 =? 93); [discriminate|].
      apply in_fuel_bind; [apply IHi; cbn [length]; lia|].
      intros [items rest] _. discriminate. }
    repeat match goal with
    | |- in_fuel (if ?b then _ else _) => destruct b; [discriminate|]
    end.
    destruct (Json.scan_number (c :: r)) as [[m rest']|] eqn:Hn; [|discriminate].
    apply in_fuel_bind; [eapply scan_number_fuel; exact Hn|].
    intros x _. discriminate.
  - intros s Hf. cbn [Json.parse_items].
    apply in_fuel_bind; [apply IHv; lia|]. intros [v rest0] Ev.
    apply (proj1 (parse_rest fuel)) in Ev.
    pose proof (skip_space_length rest0) as Hsk.
    destruct (Json.skip_space rest0) as [|c r]; [discriminate|].
    cbn [length] in Hsk.
    destruct (c =? 93); [discriminate|].
    destruct (c =? 44); [|discriminate].
    pose proof (skip_space_length r).
    apply in_fuel_bind; [apply IHi; lia|]. intros [items rest'] _. discriminate.
  - intros s Hf. cbn [Json.parse_members].
    destruct s as [|c r]; [discriminate|]. cbn [length] in Hf.
    destruct (c =? 34); [|discriminate].
    apply in_fuel_bind; [apply scan_string_fuel; lia|]. intros [k rest0] Ek.
    apply scan_string_rest in Ek.
    pose proof (skip_space_length rest0) as Hsk.
    destruct (Json.skip_space rest0) as [|c1 r1]; [discriminate|].
    cbn [length] in Hsk.
    destruct (c1 =? 58); [|discriminate].
    pose proof (skip_space_length r1) as Hsk1.
    apply in_fuel_bind; [apply IHv; lia|]. intros [v rest1] Ev.
    apply (proj1 (parse_rest fuel)) in Ev.
    pose proof (skip_space_length rest1) as Hsk2.
    destruct (Json.skip_space rest1) as [|c2 r2]; [discriminate|].
    cbn [length] in Hsk2.
    destruct (c2 =? 125); [discriminate|].
    destruct (c2 =? 44); [|discriminate].
    pose proof (skip_space_length r2).
    apply in_fuel_bind; [apply IHm; lia|]. intros [pairs rest2] _. discriminate.
Qed.

(** The decoder never runs out of fuel. *)
Lemma json_loads_fuel s : in_fuel (Json.json_loads s).
Proof.
  unfold Json.json_loads. destruct (starts_with [65279] s); [discriminate|].
  apply in_fuel_bind.
  - apply (proj1 (parse_fuel _)). pose proof (skip_space_length s). lia.
  - intros [v rest] _. destruct (Json.skip_space rest); discriminate.
Qed.

Lemma json_loads_container v x :
  match v with c :: _ => is_space c = false | [] => True end ->
  Json.json_loads v = Ret x ->
  match x with
  | PList _ => starts_with [91] v = true
  | PDict _ => starts_with [123] v = true
  | _ => True
  end.
Proof.
  intros Hv. unfold Json.json_loads.
  destruct (starts_with [65279] v); [discriminate|].
  destruct (Json.parse_value _ _) as [[pv prest]|] eqn:E;
    cbn [mbind exc_bind]; [|discriminate].
  destruct (Json.skip_space prest); [|discriminate]. intros [= <-].
  destruct v as [|c r]; [destruct (2 * length (@nil N) + 1)%nat; discriminate|].
  assert (Hsk : Json.skip_space (c :: r) = c :: r).
  { unfold Json.skip_space. simpl.
    destruct (Json.is_json_space c) eqn:Hj; [|reflexivity].
    apply is_json_space_space in Hj. congruence. }
  rewrite Hsk in E. apply parse_value_container in E.
  destruct pv; try exact I; subst c; reflexivity.
Qed.

(** The pieces of a stripped cell that is not empty, cut at the first
    delimiter found in the order "||", line feed, ";", "|"; the whole cell
    when it has none of them.  Every piece is stripped, and a piece with
    nothing but white space in it is left out. *)
Definition split_by_priority (v : pystr) : list pystr :=
  if contains (lit "||") v then stripped_parts (split_on (lit "||") v)
  else if contains [10] v then stripped_parts (splitlines v)
  else if contains (lit ";") v then stripped_parts (split_on (lit ";") v)
  else if contains (lit "|") v then stripped_parts (split_on (lit "|") v)
  else [v].

Lemma split_delimited_field_stripped s :
  strip s <> [] -> split_delimited_field (strip s) = split_by_priority (strip s).
Proof.
  intros Hne. unfold split_delimited_field, split_by_priority.
  destruct (strip s) as [|c r] eqn:Hs; [contradiction|].
  cbn [truthy negb]. rewrite <- Hs, strip_idem. reflexivity.
Qed.

(** ["egg","flour"] as a JSON text *)
Definition quoted (s : pystr) : pystr := 34 :: s ++ [34].
Definition egg_flour_json : pystr :=
  91 :: quoted (lit "egg") ++ 44 :: quoted (lit "flour") ++ [93].

(** X1.  What [parse_csv_cell] returns for every cell: when the cell is
    empty or all white space, the empty list; otherwise, with the cell
    stripped, a JSON array gives its elements each coerced to a string, a
    JSON object gives the one-element list of its JSON text, and when the
    text is not such a JSON value (or its conversion to strings fails) the
    cell is cut at the first delimiter found in the order "||", line feed,
    ";", "|", each piece stripped and the empty pieces dropped, a cell
    without delimiter giving itself as the only element.  A JSON array of
    egg and flour, the cell 'egg; flour' and the cell
    'egg || flour || milk' give two, two and three elements. *)
Theorem parse_csv_cell_spec (s : pystr) :
  (strip s = [] -> parse_csv_cell (PStr s) = Ret [])
  /\ (strip s <> [] ->
      (forall l strs,
          Json.json_loads (strip s) = Ret (PList l) ->
          mapM (py_str repr_other) l = Ret strs ->
          parse_csv_cell (PStr s) = Ret strs)
      /\ (forall d text,
          Json.json_loads (strip s) = Ret (PDict d) ->
          json_dumps (PDict d) = Ret text ->
          parse_csv_cell (PStr s) = Ret [text])
      /\ ((forall x, Json.json_loads (strip s) = Ret x -> is_scalar x) ->
          parse_csv_cell (PStr s) = Ret (split_by_priority (strip s)))
      /\ (forall l e,
          Json.json_loads (strip s) = Ret (PList l) ->
          mapM (py_str repr_other) l = Raise e ->
          parse_csv_cell (PStr s) = Ret (split_by_priority (strip s)))
      /\ (forall d e,
          Json.json_loads (strip s) = Ret (PDict d) ->
          json_dumps (PDict d) = Raise e ->
          parse_csv_cell (PStr s) = Ret (split_by_priority (strip s))))
  /\ parse_csv_cell (PStr egg_flour_json) = Ret [lit "egg"; lit "flour"]
  /\ parse_csv_cell (PStr (lit "egg; flour")) = Ret [lit "egg"; lit "flour"]
  /\ parse_csv_cell (PStr (lit "egg || flour || milk"))
     = Ret [lit "egg"; lit "flour"; lit "milk"].
Proof.
  split; [|split; [|repeat split; vm_compute; reflexivity]].
  - intros Hv. unfold parse_csv_cell.
    destruct s as [|c r]; [reflexivity|]. cbn [truthy negb]. rewrite Hv.
    reflexivity.
  - intros Hv.
    assert (Hs : truthy (PStr s) = true).
    { destruct s; [contradiction Hv; reflexivity|reflexivity]. }
    assert (Hhead : match strip s with c :: _ => is_space c = false | [] => True end).
    { destruct (strip s) as [|c r] eqn:E; [exact I|]. eapply strip_head. exact E. }
    unfold parse_csv_cell. rewrite Hs. cbn [negb]. cbv zeta.
    rewrite <- (split_delimited_field_stripped s Hv).
    unfold json_cell.
    repeat split.
    + intros l strs Hj Hm.
      pose proof (json_loads_container _ _ Hhead Hj) as H91. cbv beta iota in H91.
      rewrite H91. cbn [orb]. rewrite Hj. cbn [mbind exc_bind]. rewrite Hm.
      reflexivity.
    + intros d text Hj Hd.
      pose proof (json_loads_container _ _ Hhead Hj) as H123. cbv beta iota in H123.
      rewrite H123, orb_true_r. rewrite Hj. cbn [mbind exc_bind]. rewrite Hd.
      reflexivity.
    + intros Hsc.
      destruct (starts_with [91] (strip s) || starts_with [123] (strip s));
        [|reflexivity].
      destruct (Json.json_loads (strip s)) as [x|] eqn:Hj; [|reflexivity].
      cbn [mbind exc_bind]. specialize (Hsc x eq_refl).
      destruct x; try reflexivity; destruct Hsc.
    + intros l e Hj Hm.
      pose proof (json_loads_container _ _ Hhead Hj) as H91. cbv beta iota in H91.
      rewrite H91. cbn [orb]. rewrite Hj. cbn [mbind exc_bind]. rewrite Hm.
      reflexivity.
    + intros d e Hj Hd.
      pose proof (json_loads_container _ _ Hhead Hj) as H123. cbv beta iota in H123.
      rewrite H123, orb_true_r. rewrite Hj. cbn [mbind exc_bind]. rewrite Hd.
      reflexivity.
Qed.

End Ingest.


(** A stand-in for the conversions that the examples never reach. *)
Definition no_text (_ : pyval) : exc pystr := Raise TypeError.

Lemma parse_csv_cell_spec_witness :
  parse_csv_cell no_text no_text (PStr (lit " a | b "))
  = Ret [lit "a"; lit "b"].
Proof.
  destruct (parse_csv_cell_spec no_text no_text (lit " a | b "))
    as (_ & H & _).
  destruct H as (_ & _ & H & _); [vm_compute; discriminate|].
  rewrite H; [vm_compute; reflexivity|].
  intros x Hx. vm_compute in Hx. discriminate.
Defined.

(** A cell of white space is no JSON text and has no delimiter; the
    result is the empty list, not the list with the stripped cell as its one
    element. *)
Lemma parse_csv_cell_blank_cell :
  Json.json_loads (lit "   ") = Raise JSONDecodeError
  /\ contains (lit "||") (lit "   ") = false
  /\ contains [10] (lit "   ") = false
  /\ contains (lit ";") (lit "   ") = false
  /\ contains (lit "|") (lit "   ") = false
  /\ parse_csv_cell no_text no_text (PStr (lit "   ")) = Ret []
  /\ parse_csv_cell no_text no_text (PStr (lit "   "))
     <> Ret [strip (lit "   ")].
Proof.
  repeat split; try (vm_compute; reflexivity). vm_compute. discriminate.
Qed.


(** *** Quantities and units: edge cases *)

(** X2.  White space around a quantity never matters: [parse_quantity]
    gives the same result for a string and for the string stripped, the
    string of white space only included (it gives no quantity). *)
Theorem parse_quantity_ignores_outer_space (s : pystr) :
  parse_quantity s = parse_quantity (strip s).
Proof.
  unfold parse_quantity. rewrite strip_idem.
  destruct s as [|c r]; [reflexivity|]. cbn [truthy negb].
  destruct (strip (c :: r)) as [|c' r'] eqn:Hs; [reflexivity|].
  cbn [truthy negb]. reflexivity.
Qed.

Lemma int_of_digits_value d v :
  d <> [] -> all is_digit d -> int_of_digits d = Ret v -> v = number d.
Proof.
  intros Hne Hd. unfold int_of_digits.
  rewrite (digits_us_run d 0%Z 0%nat false Hd) by (left; exact Hne).
  destruct (_ <? _)%nat; [discriminate|]. intros [= <-]. reflexivity.
Qed.

Lemma Fraction_of_str_zero n d :
  digit_run n -> digit_run d -> number d = 0%Z ->
  exists e, Fraction_of_str (n ++ 47 :: d) = Raise e.
Proof.
  intros [Hn0 Hn] [Hd0 Hd] Hz. unfold Fraction_of_str.
  rewrite strip_digit_run_sep by assumption.
  rewrite split_sign_run by assumption.
  rewrite split_first_app by (apply contains_char_digits; [exact Hn|reflexivity]).
  destruct (int_of_digits n) as [vn|e]; cbn [mbind exc_bind]; [|eauto].
  destruct (int_of_digits d) as [vd|e] eqn:Ed; cbn [mbind exc_bind]; [|eauto].
  apply int_of_digits_value in Ed; [|assumption..]. rewrite Ed, Hz.
  cbn. eauto.
Qed.

(** The denominator of a quantity, if it is written with one. *)
Definition denominator (q : qty_syntax) : option pystr :=
  match q with
  | QFraction _ d | QMixed _ _ d => Some d
  | _ => None
  end.

(** X3.  A fraction or a mixed number with a zero denominator gives no
    quantity: the division error is caught, nothing is raised. *)
Theorem parse_quantity_zero_denominator (q : qty_syntax) (d : pystr) :
  qty_shape q -> denominator q = Some d -> number d = 0%Z ->
  parse_quantity (qty_text q) = Ret None.
Proof.
  intros Hs Hden Hz. unfold parse_quantity.
  destruct (qty_text_head q Hs) as (c0 & l0 & Hhd & _).
  rewrite Hhd at 1. cbn [truthy negb].
  destruct q as [?|? ?|n d'|w n d']; try discriminate;
    injection Hden as ->; unfold qty_shape in Hs; cbn [qty_parts qty_text] in *.
  - apply Forall_cons in Hs as [Hn Hs]. apply Forall_cons in Hs as [Hd _].
    destruct (Fraction_of_str_zero n d Hn Hd Hz) as [e He].
    destruct Hn as [Hn0 Hn], Hd as [Hd0 Hd].
    rewrite strip_digit_run_sep by assumption.
    rewrite !contains_char_run_sep by (assumption || reflexivity).
    cbn [N.eqb Pos.eqb andb]. rewrite He. reflexivity.
  - apply Forall_cons in Hs as [Hw Hs]. apply Forall_cons in Hs as [Hn Hs].
    apply Forall_cons in Hs as [Hd _].
    destruct (Fraction_of_str_zero n d Hn Hd Hz) as [e He].
    destruct Hw as [Hw0 Hw], Hn as [Hn0 Hn], Hd as [Hd0 Hd].
    assert (Hstrip : strip (w ++ 32 :: n ++ 47 :: d) = w ++ 32 :: n ++ 47 :: d).
    { destruct (all_digit_last d Hd0 Hd) as (l' & c' & -> & Hc').
      destruct w as [|c w']; [contradiction|].
      pose proof Hw as Hw1. apply Forall_cons in Hw1 as [Hcw _].
      simpl. eapply (strip_digit_ends c _ (c :: w' ++ 32 :: n ++ 47 :: l') c');
        [exact Hcw|exact Hc'|].
      simpl. rewrite <- !app_assoc. simpl. rewrite <- app_assoc. reflexivity. }
    rewrite Hstrip.
    assert (H32 : contains_char 32 (w ++ 32 :: n ++ 47 :: d) = true).
    { rewrite contains_char_app. simpl. apply orb_true_r. }
    assert (H47 : contains_char 47 (w ++ 32 :: n ++ 47 :: d) = true).
    { rewrite !contains_char_app. simpl. rewrite contains_char_app. simpl.
      rewrite !orb_true_r. reflexivity. }
    rewrite H32, H47. cbn [andb].
    rewrite split_first_app by (apply contains_char_digits; [exact Hw|reflexivity]).
    destruct (int_of_str w) as [vw|e']; cbn [mbind exc_bind try_or_none];
      [|reflexivity].
    rewrite He. reflexivity.
Qed.

Lemma parse_quantity_zero_denominator_witness :
  parse_quantity (lit "1 1/0") = Ret None.
Proof.
  apply (parse_quantity_zero_denominator
           (QMixed (lit "1") (lit "1") (lit "0")) (lit "0")).
  - unfold qty_shape, digit_run. simpl. repeat constructor; discriminate.
  - reflexivity.
  - reflexivity.
Defined.

Lemma lstrip_by_none p s :
  Forall (fun c => p c = false) s -> lstrip_by p s = s.
Proof. intros H. destruct H as [|c s Hc _]; simpl; [reflexivity|]. rewrite Hc. reflexivity. Qed.

Lemma rstrip_by_none p s :
  Forall (fun c => p c = false) s -> rstrip_by p s = s.
Proof.
  induction 1 as [|c s Hc _ IH]; simpl; [reflexivity|].
  rewrite IH, Hc. destruct s; reflexivity.
Qed.

(** What [rstrip] leaves does not end with a character it strips. *)
Lemma rstrip_by_last_kept p s l c : rstrip_by p s = l ++ [c] -> p c = false.
Proof.
  revert l. induction s as [|x s IH]; intros l; simpl.
  - destruct l; discriminate.
  - destruct (rstrip_by p s) as [|y r] eqn:E.
    + destruct (p x) eqn:Hx; [destruct l; discriminate|].
      intros H. destruct l as [|z l']; simpl in H; [congruence|].
      destruct l'; discriminate.
    + destruct l as [|z l']; [discriminate|].
      intros [= -> H]. exact (IH l' H).
Qed.

Lemma lower_char_alpha c :
  is_alpha c = true -> is_lower_ascii (lower_char c) = true.
Proof.
  intros H. apply is_alpha_range in H.
  unfold lower_char, is_upper_ascii, is_lower_ascii.
  destruct (N.leb_spec 65 c), (N.leb_spec c 90); cbn [andb];
    rewrite andb_true_iff, !N.leb_le; lia.
Qed.

Lemma lower_char_lower c : is_lower_ascii c = true -> lower_char c = c.
Proof.
  unfold lower_char, is_upper_ascii, is_lower_ascii.
  rewrite andb_true_iff, !N.leb_le. intros [H1 H2].
  destruct (N.leb_spec 65 c), (N.leb_spec c 90); cbn [andb]; try reflexivity; lia.
Qed.

Lemma lower_idem_letters u : all is_alpha u -> lower (lower u) = lower u.
Proof.
  induction 1 as [|c u Hc _ IH]; simpl; [reflexivity|].
  rewrite IH. f_equal. apply lower_char_lower, lower_char_alpha, Hc.
Qed.

Lemma lower_letters u : all is_alpha u -> all is_lower_ascii (lower u).
Proof.
  induction 1 as [|c u Hc _ IH]; simpl; constructor; [|exact IH].
  apply lower_char_alpha, Hc.
Qed.

Lemma is_lower_alpha c : is_lower_ascii c = true -> is_alpha c = true.
Proof. intros H. unfold is_alpha. rewrite H. reflexivity. Qed.

(** The key that [normalize_unit] looks up for a unit made of letters. *)
Lemma unit_key_letters u :
  all is_alpha u -> rstrip_char 46 (strip (lower u)) = lower u.
Proof.
  intros Hu. apply lower_letters in Hu.
  assert (Hs : Forall (fun c => is_space c = false) (lower u)).
  { eapply Forall_impl; [exact Hu|]. intros c Hc. simpl in Hc.
    apply is_alpha_not_space, is_lower_alpha, Hc. }
  assert (Hp : Forall (fun c => (46 =? c) = false) (lower u)).
  { eapply Forall_impl; [exact Hu|]. intros c Hc. simpl in Hc.
    unfold is_lower_ascii in Hc. apply andb_true_iff in Hc as [H1 _].
    apply N.leb_le in H1. apply N.eqb_neq. lia. }
  unfold strip, rstrip_char.
  rewrite (lstrip_by_none _ _ Hs), (rstrip_by_none _ _ Hs).
  apply rstrip_by_none. exact Hp.
Qed.

(** The canonical names of the table. *)
Definition canonical_units : list pystr :=
  [ lit "tablespoon"; lit "teaspoon"; lit "cup"; lit "gram"; lit "kilogram";
    lit "ounce"; lit "pound"; lit "clove"; lit "slice" ].

Lemma UNIT_MAP_value (k v : pystr) :
  UNIT_MAP !! k = Some v -> v ∈ canonical_units.
Proof.
  intros Hk. unfold UNIT_MAP in Hk.
  apply elem_of_list_to_map_2 in Hk. apply list_elem_of_In in Hk.
  unfold UNIT_MAP_items in Hk. simpl in Hk.
  repeat (destruct Hk as [Hk|Hk];
          [injection Hk as <- <-; apply list_elem_of_In; simpl; tauto|]).
  destruct Hk.
Qed.

Lemma canonical_unit_stable v :
  v ∈ canonical_units ->
  v <> [] /\ all is_lower_ascii v /\ normalize_unit (Some v) = Some v.
Proof.
  intros Hv. apply list_elem_of_In in Hv. unfold canonical_units in Hv.
  simpl in Hv.
  repeat (destruct Hv as [<-|Hv];
          [split; [discriminate|]; split; [repeat constructor|vm_compute; reflexivity]|]).
  destruct Hv.
Qed.

(** X4.  For a unit made of letters, which is all that the pattern of
    [parse_ingredient] passes on, [normalize_unit] returns a non-empty name
    in lower-case letters; the case of the input does not matter; and the
    result is stable, normalizing it again changes nothing. *)
Theorem normalize_unit_letters (u : pystr) :
  u <> [] -> all is_alpha u ->
  exists v,
    normalize_unit (Some u) = Some v
    /\ v <> [] /\ all is_lower_ascii v
    /\ normalize_unit (Some (lower u)) = Some v
    /\ normalize_unit (Some v) = Some v.
Proof.
  intros Hne Hu.
  assert (Hl : lower u <> []) by (destruct u; [contradiction|discriminate]).
  assert (Hnorm : forall w, w <> [] -> all is_alpha w ->
            normalize_unit (Some w) = Some (default (lower w) (UNIT_MAP !! lower w))).
  { intros w Hw0 Hw. unfold normalize_unit.
    destruct w as [|c w']; [contradiction|]. cbn [truthy negb].
    rewrite unit_key_letters by exact Hw. reflexivity. }
  exists (default (lower u) (UNIT_MAP !! lower u)).
  split; [apply Hnorm; assumption|].
  assert (Hll : all is_alpha (lower u)).
  { eapply Forall_impl; [apply lower_letters; exact Hu|].
    intros c Hc. apply is_lower_alpha, Hc. }
  destruct (UNIT_MAP !! lower u) as [v|] eqn:Hk; cbn [default].
  - destruct (canonical_unit_stable v (UNIT_MAP_value _ _ Hk)) as (Hv0 & Hv & Hst).
    repeat split; try assumption.
    rewrite Hnorm by assumption. rewrite lower_idem_letters by exact Hu.
    rewrite Hk. reflexivity.
  - repeat split; [exact Hl|apply lower_letters; exact Hu| |].
    + rewrite Hnorm by assumption. rewrite lower_idem_letters by exact Hu.
      rewrite Hk. reflexivity.
    + rewrite Hnorm by assumption. rewrite lower_idem_letters by exact Hu.
      rewrite Hk. reflexivity.
Qed.

Lemma normalize_unit_letters_witness :
  exists v,
    normalize_unit (Some (lit "CUPS")) = Some v
    /\ v <> [] /\ all is_lower_ascii v
    /\ normalize_unit (Some (lower (lit "CUPS"))) = Some v
    /\ normalize_unit (Some v) = Some v.
Proof.
  apply (normalize_unit_letters (lit "CUPS")).
  - discriminate.
  - simpl. repeat constructor.
Defined.

(** [normalize_unit] with another table in the place of [UNIT_MAP]. *)
Definition normalize_unit_in (table : gmap pystr pystr) (u : option pystr)
  : option pystr :=
  match u with
  | None => None
  | Some u =>
      if negb (truthy (PStr u)) then None
      else
        let u := rstrip_char 46 (strip (lower u)) in
        Some (default u (table !! u))
  end.

(** X5.  The entry 'tbsp.' of [UNIT_MAP] is never used: the key that is
    looked up has had its trailing periods removed, so for every unit the
    result is the same with that entry deleted; a unit written 'tbsp.' is
    found under 'tbsp'. *)
Theorem normalize_unit_tbsp_period_unused (u : option pystr) :
  normalize_unit_in UNIT_MAP u = normalize_unit u
  /\ normalize_unit u = normalize_unit_in (delete (lit "tbsp.") UNIT_MAP) u
  /\ normalize_unit (Some (lit "tbsp.")) = Some (lit "tablespoon").
Proof.
  split; [reflexivity|]. split; [|vm_compute; reflexivity].
  unfold normalize_unit, normalize_unit_in. destruct u as [u|]; [|reflexivity].
  destruct (negb (truthy (PStr u))); [reflexivity|]. cbv zeta.
  rewrite lookup_delete_ne; [reflexivity|].
  intros Heq. symmetry in Heq. unfold rstrip_char in Heq.
  change (lit "tbsp.") with (lit "tbsp" ++ [46]) in Heq.
  apply rstrip_by_last_kept in Heq. discriminate.
Qed.

(** *** A line that ends with a word *)

(** The unit group in front of the end of the line: the word is taken
    whole, the name finds nothing, and the word gives back its last
    letter. *)
Lemma unit_gives_back (a : N) (l : pystr) (c : N) (i : nat) (caps : captures)
    (k : pystr -> nat -> captures -> option captures) (res : captures) :
  is_alpha a = true -> all is_alpha l -> is_alpha c = true ->
  k [] (S i + length l + 1)%nat (<["unit" := a :: l ++ [c]]> caps) = None ->
  k [c] (S i + length l)%nat (<["unit" := a :: l]> caps) = Some res ->
  rmatch (Opt (Grp "unit" (Plus is_alpha))) (a :: l ++ [c]) i caps k = Some res.
Proof.
  intros Ha Hl Hc Hnone Hsome. cbn [rmatch Plus]. rewrite Ha.
  rewrite (star_k_giveback is_alpha l c [] (S i) _ res Hl Hc I).
  - reflexivity.
  - rewrite <- Hnone. f_equal. f_equal.
    rewrite take_ge; [reflexivity|]. simpl. rewrite length_app. simpl. lia.
  - rewrite <- Hsome. f_equal. f_equal.
    replace (S i + length l - i)%nat with (S (length l)) by lia.
    simpl. f_equal. rewrite take_app_length. reflexivity.
Qed.

Lemma name_re_nil i c k : rmatch name_re [] i c k = None.
Proof. reflexivity. Qed.

Lemma name_re_letter ch i c :
  is_alpha ch = true ->
  rmatch name_re [ch] i c (fun _ _ c => Some c) = Some (<["name" := [ch]]> c).
Proof.
  intros Hch. apply (name_re_body [] [] ch i c).
  - constructor.
  - apply is_alpha_not_space, Hch.
  - repeat constructor. unfold is_dot. apply is_alpha_range in Hch.
    destruct (N.eqb_spec ch 10); [lia|reflexivity].
Qed.

Lemma takes_then r1 r2 l rest (f : captures -> captures) i c k res :
  takes r1 l rest f ->
  rmatch r2 rest (i + length l)%nat (f c) k = Some res ->
  rmatch (Seq r1 r2) (l ++ rest) i c k = Some res.
Proof. intros H1 H2. cbn [rmatch]. apply H1. exact H2. Qed.

Lemma fails_grp g r s : fails r s -> fails (Grp g r) s.
Proof. intros H i c k. cbn [rmatch]. apply H. Qed.

Lemma fails_qty_re s : head_not is_digit s -> fails (Grp "qty" qty_re) s.
Proof.
  intros H. apply fails_grp. unfold qty_re, cat. cbn [foldr].
  apply fails_seq, fails_plus, H.
Qed.

Lemma ING_RE_word (a : N) (l : pystr) (c : N) :
  is_alpha a = true -> all is_alpha l -> is_alpha c = true ->
  re_match ING_RE (a :: l ++ [c])
  = Some (<["name" := [c]]> (<["unit" := a :: l]> ∅)).
Proof.
  intros Ha Hl Hc. rewrite ING_RE_split. unfold head_re, cat. cbn [foldr].
  pose proof (is_alpha_not_space a Ha) as Hsp.
  pose proof (is_alpha_not_digit a Ha) as Hdg.
  apply (takes_then _ _ [] (a :: l ++ [c]) (fun c => c));
    [apply takes_star; [constructor|exact Hsp]|].
  apply (takes_then _ _ [] (a :: l ++ [c]) (fun c => c));
    [apply takes_opt_skip, fails_qty_re; exact Hdg|].
  apply (takes_then _ _ [] (a :: l ++ [c]) (fun c => c));
    [apply takes_star; [constructor|exact Hsp]|].
  refine (unit_gives_back a l c _ _
            (fun s1 i1 c1 => rmatch name_re s1 i1 c1 (fun _ _ c => Some c))
            _ Ha Hl Hc _ _).
  - apply name_re_nil.
  - apply name_re_letter. exact Hc.
Qed.

Lemma ING_RE_qty_word (q : qty_syntax) (a : N) (l : pystr) (c : N) :
  qty_shape q -> is_alpha a = true -> all is_alpha l -> is_alpha c = true ->
  re_match ING_RE (qty_text q ++ 32 :: a :: l ++ [c])
  = Some (<["name" := [c]]> (<["unit" := a :: l]> (<["qty" := qty_text q]> ∅))).
Proof.
  intros Hq Ha Hl Hc. rewrite ING_RE_split. unfold head_re, cat. cbn [foldr].
  destruct (qty_text_head q Hq) as (d0 & dl & Hqt & Hd0).
  pose proof (is_alpha_not_space a Ha) as Hsp.
  apply (takes_then _ _ [] (qty_text q ++ 32 :: a :: l ++ [c]) (fun c => c)).
  { apply takes_star; [constructor|]. rewrite Hqt. simpl.
    apply is_digit_not_space, Hd0. }
  apply (takes_then _ _ (qty_text q) (32 :: a :: l ++ [c])
           (fun c => <["qty" := qty_text q]> c)).
  { apply takes_opt. apply (takes_grp "qty" qty_re _ _ (fun c => c)).
    apply qty_re_takes; assumption. }
  apply (takes_then _ _ [32] (a :: l ++ [c]) (fun c => c)).
  { apply takes_star; [repeat constructor|exact Hsp]. }
  refine (unit_gives_back a l c _ _
            (fun s1 i1 c1 => rmatch name_re s1 i1 c1 (fun _ _ c => Some c))
            _ Ha Hl Hc _ _).
  - apply name_re_nil.
  - apply name_re_letter. exact Hc.
Qed.

Ltac caps_lookup :=
  repeat first [ rewrite lookup_insert_eq
               | rewrite lookup_insert_ne by discriminate
               | rewrite lookup_empty ].

(** X6.  A line that ends with its first word loses the last letter of
    that word to the name: the name needs a character, so the unit group
    gives one back.  For every word of two letters or more, alone or after
    a quantity and a space, the unit is the word without its last letter,
    normalized, and the name is that last letter ('2 eggs' has the unit
    'egg' and the name 's'). *)
Theorem parse_ingredient_last_letter (u : pystr) (c : N) :
  u <> [] -> all is_alpha u -> is_alpha c = true ->
  parse_ingredient (u ++ [c])
  = Ret {| raw := u ++ [c]; quantity := None;
           unit := normalize_unit (Some u); name := [c] |}
  /\ forall q,
       qty_shape q -> qty_convertible q -> qty_in_float_range q ->
       parse_ingredient (qty_text q ++ 32 :: u ++ [c])
       = Ret {| raw := qty_text q ++ 32 :: u ++ [c];
                quantity := Some (FNear (Qred (qty_value q)));
                unit := normalize_unit (Some u); name := [c] |}.
Proof.
  intros Hne Hu Hc. destruct u as [|a l]; [contradiction|].
  apply Forall_cons in Hu as [Ha Hl].
  assert (Hname : strip [c] = [c]).
  { apply strip_id; [apply is_alpha_not_space, Hc|].
    exists [], c. split; [reflexivity|apply is_alpha_not_space, Hc]. }
  split.
  - unfold parse_ingredient. cbn [app]. rewrite (ING_RE_word a l c Ha Hl Hc).
    caps_lookup. cbv [mbind exc_bind].
    change (default [] (Some [c])) with [c]. rewrite Hname.
    reflexivity.
  - intros q Hq Hcv Hr. unfold parse_ingredient. cbn [app].
    rewrite (ING_RE_qty_word q a l c Hq Ha Hl Hc).
    caps_lookup.
    destruct (qty_text_head q Hq) as (c0 & l0 & Hhd & _).
    assert (Ht : truthy (PStr (qty_text q)) = true) by (rewrite Hhd; reflexivity).
    rewrite Ht. rewrite parse_quantity_qty by assumption.
    cbv [mbind exc_bind].
    change (default [] (Some [c])) with [c]. rewrite Hname. reflexivity.
Qed.

Lemma parse_ingredient_last_letter_witness :
  parse_ingredient (lit "2 eggs")
  = Ret {| raw := lit "2 eggs"; quantity := Some (FNear (2 # 1));
           unit := Some (lit "egg"); name := lit "s" |}.
Proof.
  destruct (parse_ingredient_last_letter (lit "egg") 115) as [_ H].
  - discriminate.
  - simpl. repeat constructor.
  - reflexivity.
  - apply (H (QInteger (lit "2"))).
    + unfold qty_shape, digit_run. simpl. repeat constructor; discriminate.
    + exact I.
    + reflexivity.
Defined.


(** *** Delimited cells: what the pieces look like *)

Lemma starts_with_app sub a t :
  starts_with sub a = true -> starts_with sub (a ++ t) = true.
Proof.
  revert a. induction sub as [|p sub IH]; intros a; [reflexivity|].
  destruct a as [|c a]; simpl; [discriminate|].
  intros H. apply andb_true_iff in H as [H1 H2].
  rewrite H1, (IH a H2). reflexivity.
Qed.

Lemma contains_nil sub : sub <> [] -> contains sub [] = false.
Proof. destruct sub; [contradiction|reflexivity]. Qed.

Lemma contains_app_false sub a b :
  contains sub (a ++ b) = false ->
  contains sub a = false /\ contains sub b = false.
Proof.
  induction a as [|c a IH]; simpl.
  - intros H. split; [|exact H].
    destruct sub; [destruct b; discriminate|reflexivity].
  - intros H. apply orb_false_iff in H as [H1 H2].
    destruct (IH H2) as [Ha Hb]. split; [|exact Hb].
    apply orb_false_iff. split; [|exact Ha].
    destruct (starts_with sub (c :: a)) eqn:E; [|reflexivity].
    apply (starts_with_app _ _ b) in E. simpl in E. congruence.
Qed.

Lemma lstrip_by_suffix p s : exists w, s = w ++ lstrip_by p s.
Proof.
  induction s as [|c s (w & IH)]; simpl; [exists []; reflexivity|].
  destruct (p c); [|exists []; reflexivity].
  exists (c :: w). simpl. f_equal. exact IH.
Qed.

Lemma rstrip_by_prefix p s : exists w, s = rstrip_by p s ++ w.
Proof.
  induction s as [|c s (w & IH)]; simpl; [exists []; reflexivity|].
  destruct (rstrip_by p s) as [|y r] eqn:E.
  - destruct (p c); [exists (c :: s)|exists s]; reflexivity.
  - exists w. simpl. f_equal. exact IH.
Qed.

(** The stripped string sits inside the string. *)
Lemma strip_infix s : exists a b, s = a ++ strip s ++ b.
Proof.
  destruct (lstrip_by_suffix is_space s) as (a & Ha).
  destruct (rstrip_by_prefix is_space (lstrip_by is_space s)) as (b & Hb).
  exists a, b. unfold strip. rewrite <- Hb. exact Ha.
Qed.

Lemma contains_strip_false sub s :
  contains sub s = false -> contains sub (strip s) = false.
Proof.
  destruct (strip_infix s) as (a & b & Hs). intros H. rewrite Hs in H.
  apply contains_app_false in H as [_ H].
  apply contains_app_false in H as [H _]. exact H.
Qed.

Lemma Forall_strip (P : N -> Prop) s : Forall P s -> Forall P (strip s).
Proof.
  destruct (strip_infix s) as (a & b & Hs). intros H. rewrite Hs in H.
  apply Forall_app in H as [_ H]. apply Forall_app in H as [H _]. exact H.
Qed.

(** No piece of [split] holds the separator. *)
Lemma no_match_in sub cur t :
  sub <> [] ->
  (forall k, (k < length cur)%nat -> starts_with sub (drop k cur ++ t) = false) ->
  contains sub cur = false.
Proof.
  intros Hsub. induction cur as [|c cur IH]; intros H.
  - apply contains_nil, Hsub.
  - simpl. apply orb_false_iff. split.
    + destruct (starts_with sub (c :: cur)) eqn:E; [|reflexivity].
      apply (starts_with_app _ _ t) in E.
      pose proof (H 0%nat ltac:(simpl; lia)) as H0.
      change (drop 0 (c :: cur) ++ t) with ((c :: cur) ++ t) in H0. congruence.
    + apply IH. intros k Hk. apply (H (S k)). simpl. lia.
Qed.

Lemma split_go_pieces sep : sep <> [] -> forall s skip cur,
  ((0 < skip)%nat -> cur = []) ->
  (skip = 0%nat ->
   forall k, (k < length cur)%nat -> starts_with sep (drop k cur ++ s) = false) ->
  Forall (fun p => contains sep p = false) (split_go sep s skip cur).
Proof.
  intros Hsep. induction s as [|c s IH]; intros skip cur Hskip Hinv.
  - simpl. constructor; [|constructor].
    destruct skip as [|k].
    + eapply no_match_in; [exact Hsep|]. apply Hinv. reflexivity.
    + rewrite Hskip by lia. apply contains_nil, Hsep.
  - cbn [split_go]. destruct skip as [|k].
    + specialize (Hinv eq_refl).
      destruct (starts_with sep (c :: s)) eqn:E.
      * constructor.
        -- eapply no_match_in; [exact Hsep|exact Hinv].
        -- apply IH; [reflexivity|]. intros _ k Hk. simpl in Hk. lia.
      * apply IH; [lia|]. intros _ k Hk. rewrite length_app in Hk. simpl in Hk.
        destruct (decide (k < length cur)%nat) as [Hlt|Hge].
        -- rewrite drop_app_le by lia. rewrite <- app_assoc. simpl.
           apply Hinv. exact Hlt.
        -- replace k with (length cur) by lia.
           rewrite drop_app_length. exact E.
    + apply IH.
      * intros _. apply Hskip. lia.
      * intros -> j Hj. rewrite Hskip in Hj by lia. simpl in Hj. lia.
Qed.

Lemma split_on_pieces sep s :
  sep <> [] -> Forall (fun p => contains sep p = false) (split_on sep s).
Proof.
  intros Hsep. apply split_go_pieces; [exact Hsep|lia|].
  intros _ k Hk. simpl in Hk. lia.
Qed.

(** No line of [splitlines] holds a line boundary. *)
Lemma splitlines_go_pieces n : forall s cur,
  (length s <= n)%nat ->
  Forall (fun c => is_linebreak c = false) cur ->
  Forall (Forall (fun c => is_linebreak c = false)) (splitlines_go s cur).
Proof.
  induction n as [|n IH]; intros s cur Hn Hcur.
  - destruct s; [|simpl in Hn; lia]. simpl.
    destruct cur; repeat constructor; inversion Hcur; assumption.
  - destruct s as [|c s]; simpl.
    + destruct cur; repeat constructor; inversion Hcur; assumption.
    + simpl in Hn. destruct (c =? 13).
      * destruct s as [|c2 s'].
        -- constructor; [exact Hcur|]. apply IH; [simpl; lia|constructor].
        -- destruct (c2 =? 10).
           ++ constructor; [exact Hcur|]. apply IH; [simpl in *; lia|constructor].
           ++ constructor; [exact Hcur|]. apply IH; [simpl in *; lia|constructor].
      * destruct (is_linebreak c) eqn:Hc.
        -- constructor; [exact Hcur|]. apply IH; [lia|constructor].
        -- apply IH; [lia|]. apply Forall_app. split; [exact Hcur|].
           constructor; [exact Hc|constructor].
Qed.

Lemma stripped_parts_clean pieces :
  Forall (fun p => p <> [] /\ strip p = p) (stripped_parts pieces).
Proof.
  unfold stripped_parts. apply Forall_forall. intros p Hp.
  apply list_elem_of_filter in Hp as [Hne Hin].
  apply list_elem_of_fmap in Hin as (q & -> & _).
  split; [exact Hne|apply strip_idem].
Qed.

Lemma stripped_parts_Forall (P : pystr -> Prop) pieces :
  (forall p, P p -> P (strip p)) ->
  Forall P pieces -> Forall P (stripped_parts pieces).
Proof.
  intros HP H. unfold stripped_parts. apply Forall_forall. intros p Hp.
  apply list_elem_of_filter in Hp as [_ Hin].
  apply list_elem_of_fmap in Hin as (q & -> & Hq).
  apply HP. rewrite Forall_forall in H. apply H, Hq.
Qed.

(** One of the delimiters is in the value. *)
Definition has_delimiter (val : pystr) : bool :=
  contains (lit "||") val || contains [10] val
  || contains (lit ";") val || contains (lit "|") val.

(** The delimiter that [split_delimited_field] cuts at is not in the piece
    [p]; for the line feed, no line boundary is. *)
Definition free_of_delimiter (val p : pystr) : Prop :=
  if contains (lit "||") val then contains (lit "||") p = false
  else if contains [10] val then Forall (fun c => is_linebreak c = false) p
  else if contains (lit ";") val then contains (lit ";") p = false
  else if contains (lit "|") val then contains (lit "|") p = false
  else True.

(** X7.  When the value holds a delimiter, every piece that
    [split_delimited_field] returns is non-empty, has no white space at its
    ends, and does not hold the delimiter the value was cut at. *)
Theorem split_delimited_field_pieces (val : pystr) :
  has_delimiter val = true ->
  Forall (fun p => p <> [] /\ strip p = p /\ free_of_delimiter val p)
         (split_delimited_field val).
Proof.
  intros Hd. unfold split_delimited_field, free_of_delimiter.
  destruct val as [|c0 val0]; [discriminate|]. cbn [truthy negb].
  set (val := c0 :: val0) in *. unfold has_delimiter in Hd.
  assert (Hjoin : forall (P : pystr -> Prop) pieces,
            (forall p, P p -> P (strip p)) -> Forall P pieces ->
            Forall (fun p => p <> [] /\ strip p = p /\ P p) (stripped_parts pieces)).
  { intros P pieces HP H.
    pose proof (stripped_parts_clean pieces) as H1.
    pose proof (stripped_parts_Forall P pieces HP H) as H2.
    rewrite Forall_forall in *. intros p Hp.
    destruct (H1 p Hp). split; [|split]; auto. }
  destruct (contains (lit "||") val).
  { apply Hjoin; [apply contains_strip_false|].
    apply split_on_pieces. discriminate. }
  destruct (contains [10] val).
  { apply Hjoin; [apply Forall_strip|].
    apply (splitlines_go_pieces (length val)); [lia|constructor]. }
  destruct (contains (lit ";") val).
  { apply Hjoin; [apply contains_strip_false|].
    apply split_on_pieces. discriminate. }
  destruct (contains (lit "|") val); [|discriminate].
  apply Hjoin; [apply contains_strip_false|].
  apply split_on_pieces. discriminate.
Qed.

Lemma split_delimited_field_pieces_witness :
  Forall (fun p => p <> [] /\ strip p = p
                   /\ free_of_delimiter (lit " a || b|c ||") p)
         (split_delimited_field (lit " a || b|c ||")).
Proof.
  apply (split_delimited_field_pieces (lit " a || b|c ||")). reflexivity.
Defined.

(** *** Delimited cells: reading back a list written with semicolons *)

(** [sep.join(parts)] *)
Fixpoint join (sep : pystr) (parts : list pystr) : pystr :=
  match parts with
  | [] => []
  | [p] => p
  | p :: rest => p ++ sep ++ join sep rest
  end.

(** An element that can be written in a cell: not empty, no white space
    at its ends, and none of the characters [;], [|] and line feed. *)
Definition plain_char (c : N) : Prop := c <> 59 /\ c <> 124 /\ c <> 10.
Definition plain_element (p : pystr) : Prop :=
  p <> [] /\ strip p = p /\ Forall plain_char p.

Lemma contains_head c sub s :
  contains (c :: sub) s = true -> In c s.
Proof.
  induction s as [|x s IH]; simpl; [discriminate|].
  intros H. apply orb_true_iff in H as [H|H].
  - apply andb_true_iff in H as [H _]. apply N.eqb_eq in H. left. congruence.
  - right. apply IH. exact H.
Qed.

Lemma contains_absent c sub s :
  Forall (fun x => x <> c) s -> contains (c :: sub) s = false.
Proof.
  intros H. destruct (contains (c :: sub) s) eqn:E; [|reflexivity].
  apply contains_head in E. rewrite Forall_forall in H.
  exfalso. apply (H c); [apply list_elem_of_In; exact E|reflexivity].
Qed.

Lemma split_go_run ch p rest cur :
  Forall (fun x => x <> ch) p ->
  split_go [ch] (p ++ rest) 0 cur = split_go [ch] rest 0 (cur ++ p).
Proof.
  intros Hp. revert cur. induction Hp as [|x p Hx _ IH]; intros cur.
  - rewrite app_nil_r. reflexivity.
  - cbn [app split_go starts_with].
    destruct (N.eqb_spec ch x) as [->|_]; [contradiction|]. cbn [andb].
    rewrite IH, <- app_assoc. reflexivity.
Qed.

Lemma split_on_join ch parts : forall cur,
  Forall (Forall (fun x => x <> ch)) parts -> parts <> [] ->
  split_go [ch] (join [ch] parts) 0 cur
  = match parts with
    | p :: rest => (cur ++ p) :: rest
    | [] => [cur]
    end.
Proof.
  induction parts as [|p rest IH]; intros cur Hall Hne; [contradiction|].
  apply Forall_cons in Hall as [Hp Hrest].
  destruct rest as [|q rest'].
  - cbn [join]. rewrite <- (app_nil_r p) at 1.
    rewrite split_go_run by exact Hp. reflexivity.
  - change (join [ch] (p :: q :: rest'))
      with (p ++ [ch] ++ join [ch] (q :: rest')).
    rewrite split_go_run by exact Hp.
    cbn [app split_go starts_with]. rewrite N.eqb_refl. cbn [andb length Nat.sub].
    rewrite (IH [] Hrest) by discriminate. reflexivity.
Qed.

Lemma join_all (P : N -> Prop) sep parts :
  Forall P sep -> Forall (Forall P) parts -> Forall P (join sep parts).
Proof.
  intros Hsep. induction 1 as [|p rest Hp Hrest IH]; [constructor|].
  destruct rest as [|q rest'].
  - exact Hp.
  - change (join sep (p :: q :: rest')) with (p ++ sep ++ join sep (q :: rest')).
    rewrite !Forall_app. auto.
Qed.

Lemma stripped_parts_id parts :
  Forall (fun p => p <> [] /\ strip p = p) parts -> stripped_parts parts = parts.
Proof.
  unfold stripped_parts. induction 1 as [|p rest [Hne Hs] _ IH]; [reflexivity|].
  rewrite fmap_cons, Hs, filter_cons_True by exact Hne. f_equal. exact IH.
Qed.

Lemma strip_fixed_ends p :
  p <> [] -> strip p = p ->
  (exists c r, p = c :: r /\ is_space c = false)
  /\ (exists l c, p = l ++ [c] /\ is_space c = false).
Proof.
  intros Hne Hs. split.
  - destruct p as [|c r]; [contradiction|]. exists c, r. split; [reflexivity|].
    eapply strip_head. exact Hs.
  - destruct (exists_last Hne) as (l & c & Hp). exists l, c. split; [exact Hp|].
    unfold strip in Hs. rewrite Hp in Hs at 2.
    eapply rstrip_by_last_kept. exact Hs.
Qed.

Lemma join_ends sep parts :
  Forall (fun p => p <> [] /\ strip p = p) parts -> parts <> [] ->
  (exists c r, join sep parts = c :: r /\ is_space c = false)
  /\ (exists l c, join sep parts = l ++ [c] /\ is_space c = false).
Proof.
  induction 1 as [|p rest [Hp0 Hp] Hrest IH]; intros Hne; [contradiction|].
  destruct (strip_fixed_ends p Hp0 Hp) as [(c & r & Ep & Hc) (l & c' & El & Hc')].
  destruct rest as [|q rest'].
  - cbn [join]. split; eauto.
  - change (join sep (p :: q :: rest')) with (p ++ sep ++ join sep (q :: rest')).
    destruct IH as [_ (l2 & c2 & E2 & Hc2)]; [discriminate|].
    split.
    + exists c, (r ++ sep ++ join sep (q :: rest')). rewrite Ep. auto.
    + exists (p ++ sep ++ l2), c2. rewrite E2, <- !app_assoc. auto.
Qed.

Lemma strip_join sep parts :
  Forall (fun p => p <> [] /\ strip p = p) parts ->
  strip (join sep parts) = join sep parts.
Proof.
  intros H. destruct parts as [|p rest]; [reflexivity|].
  destruct (join_ends sep (p :: rest) H) as [(c & r & E & Hc) (l & c' & El & Hc')];
    [discriminate|].
  rewrite E. apply strip_id; [exact Hc|].
  exists l, c'. rewrite <- E. auto.
Qed.

(** The first character of the text is not [[] or [{]. *)
Definition not_json_start (s : pystr) : Prop :=
  starts_with [91] s = false /\ starts_with [123] s = false.

(** X8.  A list of elements written into a cell with semicolons between
    them is read back as it was: when each element is non-empty, has no
    white space at its ends and holds no [;], [|] or line feed,
    [split_delimited_field] of the joined text is the list, and so is
    [parse_csv_cell] when the text does not begin like a JSON value. *)
Theorem semicolon_cell_round_trip
    (repr_other json_dumps : pyval -> exc pystr) (parts : list pystr) :
  Forall plain_element parts ->
  split_delimited_field (join (lit ";") parts) = parts
  /\ (not_json_start (join (lit ";") parts) ->
      parse_csv_cell repr_other json_dumps (PStr (join (lit ";") parts))
      = Ret parts).
Proof.
  intros Hparts.
  assert (Hclean : Forall (fun p => p <> [] /\ strip p = p) parts).
  { eapply Forall_impl; [exact Hparts|]. intros p (H1 & H2 & _). auto. }
  assert (Hno : forall ch, ch <> 59 -> (ch = 124 \/ ch = 10) ->
            Forall (fun x => x <> ch) (join (lit ";") parts)).
  { intros ch H59 Hch. apply join_all.
    - repeat constructor. intros E. apply H59. rewrite <- E. reflexivity.
    - eapply Forall_impl; [exact Hparts|]. intros p (_ & _ & Hp).
      eapply Forall_impl; [exact Hp|]. intros x (Hx1 & Hx2 & Hx3).
      destruct Hch as [-> | ->]; assumption. }
  assert (Hsplit : split_delimited_field (join (lit ";") parts) = parts).
  { unfold split_delimited_field.
    destruct parts as [|p rest]; [reflexivity|].
    pose proof Hparts as H0. apply Forall_cons in H0 as [(Hp0 & Hps & Hpp) Hrest].
    assert (Ht : truthy (PStr (join (lit ";") (p :: rest))) = true).
    { destruct p as [|c r]; [contradiction|]. destruct rest; reflexivity. }
    rewrite Ht. cbn [negb].
    change (lit "||") with (124 :: [124]). change (lit "|") with (124 :: []).
    rewrite !(contains_absent 124) by (apply Hno; [discriminate|auto]).
    rewrite (contains_absent 10) by (apply Hno; [discriminate|auto]).
    destruct rest as [|q rest'].
    - cbn [join]. change (lit ";") with (59 :: []).
      rewrite (contains_absent 59).
      + rewrite Hps. reflexivity.
      + eapply Forall_impl; [exact Hpp|]. intros x (Hx & _). exact Hx.
    - assert (H59 : contains (lit ";") (join (lit ";") (p :: q :: rest')) = true).
      { change (join (lit ";") (p :: q :: rest'))
          with (p ++ lit ";" ++ join (lit ";") (q :: rest')).
        clear. induction p as [|c p IH]; [reflexivity|].
        cbn [app contains]. rewrite IH. apply orb_true_r. }
      rewrite H59. unfold split_on. change (lit ";") with [59].
      rewrite split_on_join; [|
        eapply Forall_impl; [exact Hparts|]; intros p' (_ & _ & Hp');
        eapply Forall_impl; [exact Hp'|]; intros x (Hx & _); exact Hx
        | discriminate].
      cbn [app]. apply stripped_parts_id. exact Hclean. }
  split; [exact Hsplit|].
  intros [H91 H123]. unfold parse_csv_cell.
  destruct parts as [|p rest] eqn:Eparts; [reflexivity|]. rewrite <- Eparts in *.
  destruct (join_ends (lit ";") parts Hclean) as [(c & r & E & Hc) _];
    [rewrite Eparts; discriminate|].
  assert (Ht : truthy (PStr (join (lit ";") parts)) = true)
    by (rewrite E; reflexivity).
  rewrite Ht. cbn [negb]. rewrite strip_join by exact Hclean.
  unfold json_cell. rewrite H91, H123. cbn [orb]. rewrite Hsplit. reflexivity.
Qed.

Lemma semicolon_cell_round_trip_witness :
  parse_csv_cell no_text no_text (PStr (lit "2 eggs;1 cup flour;salt"))
  = Ret [lit "2 eggs"; lit "1 cup flour"; lit "salt"].
Proof.
  apply (semicolon_cell_round_trip no_text no_text
           [lit "2 eggs"; lit "1 cup flour"; lit "salt"]).
  - repeat constructor; try discriminate.
  - split; reflexivity.
Defined.


(** *** The run: which records are collected *)

Section Collected.

Variable repr_other : pyval -> exc pystr.
Variable json_dumps : pyval -> exc pystr.

(** The records of a JSON file, normalized, up to the first one that
    raises. *)
Fixpoint normalized (items : list pyval) : list recipe :=
  match items with
  | [] => []
  | r :: rest =>
      match normalize_recipe repr_other r with
      | Ret nr => nr :: normalized rest
      | Raise _ => []
      end
  end.

(** The same for the rows of a CSV file. *)
Fixpoint normalized_rows (rows : list (gmap pystr pystr)) : list recipe :=
  match rows with
  | [] => []
  | row :: rest =>
      match item ← csv_item repr_other json_dumps row;
            normalize_recipe repr_other item with
      | Ret nr => nr :: normalized_rows rest
      | Raise _ => []
      end
  end.

(** The records that one entry of the directory yields before it is
    finished or given up. *)
Definition records_of (p : dir_entry) : list recipe :=
  match kind_of (entry_name p) with
  | JsonFile =>
      match as_json p with
      | Ret data => normalized (match data with PList l => l | _ => [data] end)
      | Raise _ => []
      end
  | CsvFile => normalized_rows (as_csv p).1
  | OtherFile => []
  end.

(** All the records, in the order in which the loop meets them. *)
Definition scanned (files : list dir_entry) : list recipe :=
  concat (map records_of files).

(** The records whose id is not in [seen] and is not the id of a record
    earlier in the list. *)
Fixpoint keep_new (seen : gset pystr) (l : list recipe) : list recipe :=
  match l with
  | [] => []
  | r :: rest =>
      if bool_decide (id r ∈ seen) then keep_new seen rest
      else r :: keep_new (seen ∪ {[ id r ]}) rest
  end.

Definition first_occurrences (l : list recipe) : list recipe := keep_new ∅ l.

Lemma keep_new_app seen l1 l2 :
  keep_new seen (l1 ++ l2)
  = keep_new seen l1 ++ keep_new (seen ∪ list_to_set (map id l1)) l2.
Proof.
  revert seen. induction l1 as [|r l1 IH]; intros seen.
  - simpl. f_equal. set_solver.
  - cbn [app keep_new map]. destruct (bool_decide_reflect (id r ∈ seen)) as [Hin|Hin].
    + rewrite IH. f_equal. f_equal. set_solver.
    + rewrite IH. cbn [app]. f_equal. f_equal. f_equal. set_solver.
Qed.

Lemma keep_new_fresh seen l :
  Forall (fun r => id r ∉ seen) (keep_new seen l)
  /\ NoDup (map id (keep_new seen l)).
Proof.
  revert seen. induction l as [|r l IH]; intros seen.
  - split; constructor.
  - cbn [keep_new]. destruct (bool_decide_reflect (id r ∈ seen)) as [Hin|Hin].
    + apply IH.
    + destruct (IH (seen ∪ {[ id r ]})) as [Hf Hnd]. split.
      * constructor; [exact Hin|].
        eapply Forall_impl; [exact Hf|]. intros x Hx. set_solver.
      * cbn [map]. constructor; [|exact Hnd].
        intros Hx. apply list_elem_of_fmap in Hx as (y & Hy & Hyin).
        rewrite Forall_forall in Hf. specialize (Hf y Hyin).
        rewrite <- Hy in Hf. set_solver.
Qed.

Section Limit.
Variable sample_limit : option Z.

(** The loop over the records of one file, on the normalized records:
    [true] when it breaks. *)
Fixpoint walk (l : list recipe) (st : state) : state * bool :=
  match l with
  | [] => (st, false)
  | nr :: rest =>
      match keep sample_limit nr st with
      | (st1, true) => (st1, true)
      | (st1, false) => walk rest st1
      end
  end.

Definition is_broke (e : ending) : bool :=
  match e with Broke => true | _ => false end.

Lemma json_records_walk items st :
  walk (normalized items) st
  = ((json_records repr_other sample_limit items st).1,
     is_broke (json_records repr_other sample_limit items st).2).
Proof.
  revert st. induction items as [|r items IH]; intros st; [reflexivity|].
  cbn [normalized json_records].
  destruct (normalize_recipe repr_other r) as [nr|e]; [|reflexivity].
  cbn [walk]. destruct (keep sample_limit nr st) as [st1 [|]]; [reflexivity|].
  apply IH.
Qed.

Lemma csv_records_walk rows fails st :
  walk (normalized_rows rows) st
  = ((csv_records repr_other json_dumps sample_limit rows fails st).1,
     is_broke (csv_records repr_other json_dumps sample_limit rows fails st).2).
Proof.
  revert st. induction rows as [|r rows IH]; intros st.
  - cbn. destruct fails; reflexivity.
  - cbn [normalized_rows csv_records].
    destruct (_ ← csv_item repr_other json_dumps r; _) as [nr|e]; [|reflexivity].
    cbn [walk]. destruct (keep sample_limit nr st) as [st1 [|]]; [reflexivity|].
    apply IH.
Qed.

Lemma one_file_walk p st :
  walk (records_of p) st
  = ((one_file repr_other json_dumps sample_limit p st).1,
     is_broke (one_file repr_other json_dumps sample_limit p st).2).
Proof.
  unfold records_of, one_file. destruct (kind_of (entry_name p)).
  - destruct (as_json p) as [data|e]; [|reflexivity]. apply json_records_walk.
  - apply csv_records_walk.
  - reflexivity.
Qed.

Lemma walk_spec l : forall st st' b,
  walk l st = (st', b) ->
  exists X,
    collected st' = collected st ++ X
    /\ X `prefix_of` keep_new (seen_ids st) l
    /\ (b = false ->
        X = keep_new (seen_ids st) l
        /\ seen_ids st' = seen_ids st ∪ list_to_set (map id l))
    /\ (b = true -> limit_reached sample_limit st' = true).
Proof.
  induction l as [|nr l IH]; intros st st' b.
  - intros [= <- <-]. exists []. rewrite app_nil_r.
    split; [reflexivity|]. split; [apply prefix_nil|].
    split; [|discriminate]. intros _. split; [reflexivity|]. simpl. set_solver.
  - cbn [walk keep_new map]. unfold keep.
    destruct (bool_decide_reflect (id nr ∈ seen_ids st)) as [Hin|Hin].
    + intros H. apply IH in H as (X & Hc & Hp & Hf & Ht).
      exists X. split; [exact Hc|]. split; [exact Hp|]. split; [|exact Ht].
      intros Hb. destruct (Hf Hb) as [HX Hs]. split; [exact HX|].
      rewrite Hs. set_solver.
    + set (st1 := {| collected := collected st ++ [nr];
                     seen_ids := seen_ids st ∪ {[ id nr ]} |}).
      destruct (limit_reached sample_limit st1) eqn:Hlim.
      * intros [= <- <-]. exists [nr]. split; [reflexivity|].
        split; [apply prefix_cons, prefix_nil|]. split; [discriminate|].
        intros _. exact Hlim.
      * intros H. apply IH in H as (X & Hc & Hp & Hf & Ht).
        exists (nr :: X). split; [rewrite Hc; simpl; rewrite <- app_assoc; reflexivity|].
        split; [apply prefix_cons; exact Hp|]. split; [|exact Ht].
        intros Hb. destruct (Hf Hb) as [HX Hs]. split; [rewrite HX; reflexivity|].
        rewrite Hs. simpl. set_solver.
Qed.

Lemma files_loop_spec files : forall st,
  exists X,
    collected (files_loop repr_other json_dumps sample_limit files st)
    = collected st ++ X
    /\ X `prefix_of` keep_new (seen_ids st) (scanned files)
    /\ (X = keep_new (seen_ids st) (scanned files)
        \/ limit_reached sample_limit
             (files_loop repr_other json_dumps sample_limit files st) = true).
Proof.
  induction files as [|p files IH]; intros st.
  - exists []. rewrite app_nil_r. split; [reflexivity|].
    split; [apply prefix_nil|]. left. reflexivity.
  - cbn [files_loop]. unfold scanned. cbn [map concat]. fold (scanned files).
    rewrite keep_new_app.
    pose proof (one_file_walk p st) as Hw.
    destruct (one_file repr_other json_dumps sample_limit p st) as [st1 e] eqn:Hone.
    cbn [fst snd] in Hw.
    apply walk_spec in Hw as (X1 & Hc1 & Hp1 & Hf1 & Ht1).
    pose (D := keep_new (seen_ids st) (records_of p)
               ++ keep_new (seen_ids st ∪ list_to_set (map id (records_of p)))
                    (scanned files)).
    pose (P := fun s : state =>
                 exists X, collected s = collected st ++ X
                           /\ X `prefix_of` D
                           /\ (X = D \/ limit_reached sample_limit s = true)).
    assert (Hgo : is_broke e = false ->
                  P (files_loop repr_other json_dumps sample_limit files st1)).
    { intros Hb. destruct (Hf1 Hb) as [HX Hs].
      destruct (IH st1) as (X2 & Hc2 & Hp2 & Hd2).
      exists (X1 ++ X2). rewrite Hc2, Hc1, <- app_assoc.
      split; [reflexivity|]. unfold D. rewrite HX, <- Hs.
      split; [apply prefix_app; exact Hp2|].
      destruct Hd2 as [-> | Hr]; [left; reflexivity|right; exact Hr]. }
    assert (Hstop : limit_reached sample_limit st1 = true -> P st1).
    { intros Hr. exists X1. split; [exact Hc1|].
      split; [apply prefix_app_r; exact Hp1|]. right. exact Hr. }
    change (P (match e with
               | Failed => files_loop repr_other json_dumps sample_limit files st1
               | _ => if limit_reached sample_limit st1 then st1
                      else files_loop repr_other json_dumps sample_limit files st1
               end)).
    destruct e.
    + destruct (limit_reached sample_limit st1) eqn:Hr.
      * apply Hstop. reflexivity.
      * apply Hgo. reflexivity.
    + rewrite (Ht1 eq_refl). apply Hstop. exact (Ht1 eq_refl).
    + apply Hgo. reflexivity.
Qed.

End Limit.

Lemma collect_prefix sample_limit listing :
  collect repr_other json_dumps sample_limit listing
    `prefix_of` first_occurrences (scanned (sorted_entries listing))
  /\ (collect repr_other json_dumps sample_limit listing
      = first_occurrences (scanned (sorted_entries listing))
      \/ limit_reached sample_limit
           (files_loop repr_other json_dumps sample_limit (sorted_entries listing)
              {| collected := []; seen_ids := ∅ |}) = true).
Proof.
  unfold collect, first_occurrences.
  destruct (files_loop_spec sample_limit (sorted_entries listing)
              {| collected := []; seen_ids := ∅ |}) as (X & Hc & Hp & Hd).
  cbn [collected seen_ids app] in *. rewrite Hc.
  split; [exact Hp|]. destruct Hd as [-> | Hr]; [left; reflexivity|right; exact Hr].
Qed.

(** X9.  Whatever the limit, no two of the collected recipes have the same
    id. *)
Theorem collect_ids_distinct (sample_limit : option Z) (listing : list dir_entry) :
  NoDup (map id (collect repr_other json_dumps sample_limit listing)).
Proof.
  destruct (collect_prefix sample_limit listing) as [[k Hk] _].
  destruct (keep_new_fresh ∅ (scanned (sorted_entries listing))) as [_ Hnd].
  fold (first_occurrences (scanned (sorted_entries listing))) in Hnd.
  rewrite Hk, map_app in Hnd. apply NoDup_app in Hnd as [Hnd _]. exact Hnd.
Qed.

(** X10.  Without a limit ([None], or 0 as the command line passes it on)
    the collection is made of the first occurrence of every id, in the order
    of the files sorted by name and of the records in each file.  A file of
    another kind or one that cannot be read gives nothing; a file that
    raises in the middle gives the records before the one that raised. *)
Theorem collect_unlimited (listing : list dir_entry) :
  collect repr_other json_dumps None listing
  = first_occurrences (scanned (sorted_entries listing))
  /\ collect repr_other json_dumps (Some 0%Z) listing
     = first_occurrences (scanned (sorted_entries listing)).
Proof.
  split.
  - destruct (collect_prefix None listing) as [_ [H|H]]; [exact H|discriminate].
  - destruct (collect_prefix (Some 0%Z) listing) as [_ [H|H]]; [exact H|discriminate].
Qed.

Lemma walk_room (n : Z) l : forall st st' b,
  walk (Some n) l st = (st', b) ->
  (Z.of_nat (length (collected st)) < n)%Z ->
  (b = false -> (Z.of_nat (length (collected st')) < n)%Z)
  /\ (b = true -> Z.of_nat (length (collected st')) = n).
Proof.
  induction l as [|nr l IH]; intros st st' b.
  - intros [= <- <-] Hlt. split; [auto|discriminate].
  - cbn [walk]. unfold keep.
    destruct (bool_decide (id nr ∈ seen_ids st)); [apply IH|].
    set (st1 := {| collected := collected st ++ [nr];
                   seen_ids := seen_ids st ∪ {[ id nr ]} |}).
    assert (Hlen : length (collected st1) = S (length (collected st))).
    { unfold st1. cbn [collected]. rewrite length_app. simpl. lia. }
    unfold limit_reached.
    destruct (Z.eqb_spec n 0) as [Hz|Hz]; cbn [negb andb].
    + intros H Hlt. lia.
    + destruct (Z.leb_spec n (Z.of_nat (length (collected st1)))) as [Hle|Hgt].
      * intros [= <- <-] Hlt. split; [discriminate|]. intros _. lia.
      * intros H Hlt. eapply IH; [exact H|lia].
Qed.

Lemma files_loop_room (n : Z) files : forall st,
  (Z.of_nat (length (collected st)) < n)%Z ->
  (Z.of_nat (length (collected
     (files_loop repr_other json_dumps (Some n) files st))) <= n)%Z.
Proof.
  induction files as [|p files IH]; intros st Hlt; [simpl; lia|].
  cbn [files_loop].
  pose proof (one_file_walk (Some n) p st) as Hw.
  destruct (one_file repr_other json_dumps (Some n) p st) as [st1 e].
  cbn [fst snd] in Hw. apply walk_room in Hw as [Hf Ht]; [|exact Hlt].
  destruct e.
  - destruct (limit_reached (Some n) st1); [specialize (Hf eq_refl); lia|].
    apply IH, Hf. reflexivity.
  - specialize (Ht eq_refl).
    destruct (limit_reached (Some n) st1) eqn:Hr; [lia|]. exfalso.
    unfold limit_reached in Hr.
    destruct (Z.eqb_spec n 0) as [Hz|Hz]; [lia|]. cbn [negb andb] in Hr.
    apply Z.leb_gt in Hr. lia.
  - apply IH, Hf. reflexivity.
Qed.

(** X11.  With a limit [n > 0] the collection is made of the first [n] of
    those first occurrences (all of them when there are fewer): exactly the
    recipes that an unlimited run collects first. *)
Theorem collect_limited (n : Z) (listing : list dir_entry) :
  (0 < n)%Z ->
  collect repr_other json_dumps (Some n) listing
  = take (Z.to_nat n) (first_occurrences (scanned (sorted_entries listing)))
  /\ collect repr_other json_dumps (Some n) listing
     = take (Z.to_nat n) (collect repr_other json_dumps None listing).
Proof.
  intros Hn.
  assert (H : collect repr_other json_dumps (Some n) listing
              = take (Z.to_nat n)
                  (first_occurrences (scanned (sorted_entries listing)))).
  { destruct (collect_prefix (Some n) listing) as [[k Hk] Hd].
    pose proof (files_loop_room n (sorted_entries listing)
                  {| collected := []; seen_ids := ∅ |}) as Hlen.
    cbn [collected length] in Hlen. specialize (Hlen ltac:(lia)).
    fold (collect repr_other json_dumps (Some n) listing) in Hlen.
    destruct Hd as [Hd|Hr].
    - rewrite <- Hd. rewrite take_ge; [reflexivity|lia].
    - unfold limit_reached in Hr.
      fold (collect repr_other json_dumps (Some n) listing) in Hr.
      apply andb_true_iff in Hr as [_ Hr]. apply Z.leb_le in Hr.
      rewrite Hk.
      replace (Z.to_nat n)
        with (length (collect repr_other json_dumps (Some n) listing)) by lia.
      rewrite take_app_length. reflexivity. }
  split; [exact H|]. rewrite H.
  destruct (collect_prefix None listing) as [_ [-> |Hr]];
    [reflexivity|discriminate Hr].
Qed.

Lemma walk_negative (n : Z) l : forall st st' b,
  (n < 0)%Z ->
  walk (Some n) l st = (st', b) ->
  collected st = [] ->
  (b = false -> collected st' = [])
  /\ (b = true -> length (collected st') = 1%nat).
Proof.
  induction l as [|nr l IH]; intros st st' b Hn.
  - intros [= <- <-] He. split; [auto|discriminate].
  - cbn [walk]. unfold keep.
    destruct (bool_decide (id nr ∈ seen_ids st)); [apply IH; exact Hn|].
    unfold limit_reached. cbn [collected].
    destruct (Z.eqb_spec n 0) as [Hz|Hz]; [lia|]. cbn [negb andb].
    destruct (Z.leb_spec n (Z.of_nat (length (collected st ++ [nr]))))
      as [Hle|Hgt]; [|lia].
    intros [= <- <-] He. split; [discriminate|]. intros _.
    cbn [collected]. rewrite He. reflexivity.
Qed.

(** X12.  A negative limit stops the run at the first recipe it collects,
    or after the first file that was read to its end: at most one recipe is
    collected. *)
Theorem collect_negative_limit (n : Z) (listing : list dir_entry) :
  (n < 0)%Z ->
  (length (collect repr_other json_dumps (Some n) listing) <= 1)%nat.
Proof.
  intros Hn. unfold collect.
  assert (H : forall files st, collected st = [] ->
            (length (collected
               (files_loop repr_other json_dumps (Some n) files st)) <= 1)%nat).
  { induction files as [|p files IH]; intros st He;
      [cbn [files_loop]; rewrite He; simpl; lia|].
    cbn [files_loop].
    pose proof (one_file_walk (Some n) p st) as Hw.
    destruct (one_file repr_other json_dumps (Some n) p st) as [st1 e].
    cbn [fst snd] in Hw. apply walk_negative in Hw as [Hf Ht]; [|exact Hn|exact He].
    assert (Hr : limit_reached (Some n) st1 = true).
    { unfold limit_reached. apply andb_true_iff. split.
      - destruct (Z.eqb_spec n 0); [lia|reflexivity].
      - apply Z.leb_le. lia. }
    destruct e.
    - rewrite Hr. rewrite (Hf eq_refl). simpl. lia.
    - rewrite Hr. rewrite (Ht eq_refl). lia.
    - apply IH, Hf. reflexivity. }
  apply H. reflexivity.
Qed.

End Collected.


(** A directory with a JSON file of three records, two of them with the
    same id, a CSV file of one row, and a file of another kind. *)
Definition sample_dir : list dir_entry :=
  [ {| entry_name := lit "b.csv";
       as_json := Raise JSONDecodeError;
       as_csv := ([ {[ lit "title" := lit "Stew";
                       lit "description" := lit "Chop; simmer" ]} ], false) |};
    {| entry_name := lit "a.json";
       as_json := Ret (PList
         [ PDict [ (lit "id", PStr (lit "1")); (lit "title", PStr (lit "Tea")) ];
           PDict [ (lit "id", PStr (lit "1")); (lit "title", PStr (lit "Tea again")) ];
           PDict [ (lit "id", PInt 2); (lit "title", PStr (lit "Soup")) ] ]);
       as_csv := ([], false) |};
    {| entry_name := lit "notes.txt";
       as_json := Raise JSONDecodeError;
       as_csv := ([], false) |} ].

Lemma collect_limited_witness :
  map id (collect no_text no_text (Some 2%Z) sample_dir) = [lit "1"; lit "2"]
  /\ map id (collect no_text no_text None sample_dir)
     = [lit "1"; lit "2"; lit "Stew"].
Proof.
  destruct (collect_limited no_text no_text 2 sample_dir ltac:(lia)) as [H _].
  rewrite H. split; vm_compute; reflexivity.
Defined.

Lemma collect_negative_limit_witness :
  (length (collect no_text no_text (Some (-1)%Z) sample_dir) <= 1)%nat.
Proof. apply (collect_negative_limit no_text no_text (-1) sample_dir). lia. Defined.

(** Every line is parsed, and the record keeps the line. *)
Lemma parse_ingredient_returns (s : pystr) :
  exists ing, parse_ingredient s = Ret ing /\ raw ing = s.
Proof.
  unfold parse_ingredient. destruct (re_match ING_RE s) as [m|].
  - destruct (m !! "qty") as [q|]; cbn [mbind exc_bind].
    + destruct (truthy (PStr q)).
      * destruct (parse_quantity_returns q) as [v Hv]. rewrite Hv.
        cbn [mbind exc_bind]. eexists; split; reflexivity.
      * cbn [mbind exc_bind]. eexists; split; reflexivity.
    + eexists; split; reflexivity.
  - eexists; split; reflexivity.
Qed.

(** *** Rows of a CSV file *)

(** A value that a CSV row can hold: a string, or nothing. *)
Definition textual (v : pyval) : Prop := v = PNone \/ exists s, v = PStr s.

Lemma row_get_textual row k : textual (row_get row k).
Proof. unfold row_get. destruct (row !! lit k); [right; eauto|left; reflexivity]. Qed.

Lemma py_or_textual a b : textual a -> textual b -> textual (py_or a b).
Proof. intros Ha Hb. unfold py_or. destruct (truthy a); assumption. Qed.

Lemma textual_truthy v : textual v -> truthy v = true -> exists s, v = PStr s.
Proof. intros [-> | Hs] Ht; [discriminate|exact Hs]. Qed.

Lemma mapM_returns {A B} (f : A -> exc B) l :
  Forall (fun x => exists y, f x = Ret y) l -> exists ys, mapM f l = Ret ys.
Proof.
  induction 1 as [|x l [y Hy] _ [ys IH]]; [exists []; reflexivity|].
  exists (y :: ys). cbn [mapM]. rewrite Hy. cbn [mbind exc_bind]. rewrite IH.
  reflexivity.
Qed.

Lemma parse_csv_cell_textual repr_other json_dumps v :
  textual v -> exists l, parse_csv_cell repr_other json_dumps v = Ret l.
Proof.
  intros [-> | [s ->]]; [exists []; reflexivity|].
  unfold parse_csv_cell. destruct (negb (truthy (PStr s))); [eauto|].
  cbv zeta. destruct (json_cell repr_other json_dumps (strip s)) as [[parts|]|e]; eauto.
Qed.

(** The record built from strings is normalized without an error. *)
Lemma normalize_recipe_textual repr_other (d : list (pystr * pyval)) (ings : list pystr) :
  textual (dict_get d (lit "id")) -> textual (dict_get d (lit "url")) ->
  textual (dict_get d (lit "title")) ->
  dict_get d (lit "ingredients") = PList (map PStr ings) ->
  exists nr,
    normalize_recipe repr_other (PDict d) = Ret nr
    /\ steps nr = py_or (dict_get d (lit "steps")) (PList [])
    /\ title nr = py_or (dict_get d (lit "title")) (PStr (lit "Untitled")).
Proof.
  intros Hid Hurl Htitle Hings. unfold normalize_recipe. cbn [py_get mbind exc_bind].
  assert (Hrid : exists s,
            (if truthy (dict_get d (lit "id")) then Ret (dict_get d (lit "id"))
             else if truthy (dict_get d (lit "url")) then Ret (dict_get d (lit "url"))
             else py_slice_to 64 (py_or (dict_get d (lit "title")) (PStr [])))
            = Ret (PStr s)).
  { destruct (truthy (dict_get d (lit "id"))) eqn:E1.
    - destruct (textual_truthy _ Hid E1) as [s ->]. eauto.
    - destruct (truthy (dict_get d (lit "url"))) eqn:E2.
      + destruct (textual_truthy _ Hurl E2) as [s ->]. eauto.
      + unfold py_or. destruct (truthy (dict_get d (lit "title"))) eqn:E3.
        * destruct (textual_truthy _ Htitle E3) as [s ->]. simpl. eauto.
        * simpl. eauto. }
  destruct Hrid as [rid ->]. cbn [mbind exc_bind]. rewrite Hings.
  assert (Hit : py_iter (py_or (PList (map PStr ings)) (PList []))
                = Ret (map PStr ings)).
  { unfold py_or. destruct ings; reflexivity. }
  rewrite Hit. cbn [mbind exc_bind].
  destruct (mapM_returns
              (fun i => match i with
                        | PStr s => ingredient_value <$> parse_ingredient s
                        | _ => Ret i
                        end) (map PStr ings)) as [parsed Hp].
  { apply Forall_forall. intros x Hx. apply list_elem_of_fmap in Hx as (s & -> & _).
    destruct (parse_ingredient_returns s) as (ing & Hing & _).
    rewrite Hing. eexists. reflexivity. }
  rewrite Hp. cbn [mbind exc_bind py_str]. eexists. split; [reflexivity|].
  split; reflexivity.
Qed.

(** The row has no text in the columns steps, directions and
    instructions. *)
Definition no_steps_column (row : gmap pystr pystr) : Prop :=
  truthy (row_get row "steps") = false
  /\ truthy (row_get row "directions") = false
  /\ truthy (row_get row "instructions") = false.

(** X13.  Every row of a CSV file is turned into a recipe without an error,
    and for a row without steps, directions and instructions the description
    is cut like any other cell: when it is not blank and does not begin like
    a JSON value, the steps are its pieces (by "||", line feed, ";" or "|"),
    and it is one step, as it is, only when it has no delimiter or when no
    piece is left. *)
Theorem csv_description_is_split
    (repr_other json_dumps : pyval -> exc pystr)
    (row : gmap pystr pystr) (d : pystr) :
  no_steps_column row ->
  row !! lit "description" = Some d ->
  strip d <> [] -> not_json_start (strip d) ->
  exists nr,
    (item ← csv_item repr_other json_dumps row;
     normalize_recipe repr_other item) = Ret nr
    /\ steps nr = PList (match split_by_priority (strip d) with
                         | [] => [PStr d]
                         | parts => map PStr parts
                         end).
Proof.
  intros (H1 & H2 & H3) Hd Hne [H91 H123]. unfold csv_item.
  assert (Hdesc : row_get row "description" = PStr d).
  { unfold row_get. rewrite Hd. reflexivity. }
  assert (Hraw : py_or (row_get row "steps")
                   (py_or (row_get row "directions")
                      (py_or (row_get row "instructions")
                         (row_get row "description"))) = PStr d).
  { unfold py_or. rewrite H1, H2, H3. exact Hdesc. }
  rewrite Hraw.
  destruct (parse_csv_cell_textual repr_other json_dumps
              (py_or (row_get row "ingredients")
                 (py_or (row_get row "ingredient") (row_get row "ingredients_list"))))
    as [ings Hings].
  { repeat apply py_or_textual; apply row_get_textual. }
  rewrite Hings. cbn [mbind exc_bind].
  assert (Hsteps : parse_csv_cell repr_other json_dumps (PStr d)
                   = Ret (split_by_priority (strip d))).
  { unfold parse_csv_cell.
    assert (Ht : truthy (PStr d) = true).
    { destruct d; [contradiction Hne; reflexivity|reflexivity]. }
    rewrite Ht. cbn [negb]. cbv zeta. unfold json_cell. rewrite H91, H123.
    cbn [orb]. rewrite (split_delimited_field_stripped d Hne). reflexivity. }
  rewrite Hsteps. cbn [mbind exc_bind]. rewrite Hdesc.
  assert (Hd' : truthy (PStr d) = true).
  { destruct d; [contradiction Hne; reflexivity|reflexivity]. }
  rewrite Hd'. rewrite andb_true_r.
  destruct (normalize_recipe_textual repr_other
              [ (lit "id", py_or (row_get row "id")
                             (py_or (row_get row "url")
                                (py_or (row_get row "title")
                                   (py_or (row_get row "recipe_title")
                                      (py_or (row_get row "name")
                                         (row_get row "headline"))))));
                (lit "title", py_or (row_get row "title")
                                (py_or (row_get row "recipe_title")
                                   (py_or (row_get row "name")
                                      (row_get row "headline"))));
                (lit "ingredients", PList (map PStr ings));
                (lit "steps",
                 if negb (truthy (PList (map PStr (split_by_priority (strip d)))))
                 then PList [PStr d]
                 else PList (map PStr (split_by_priority (strip d))));
                (lit "nutrition", py_or (row_get row "nutrition")
                                    (py_or (row_get row "nutrition_info") (PDict [])));
                (lit "source_url", py_or (row_get row "source_url")
                                     (py_or (row_get row "url")
                                        (row_get row "source"))) ]
              ings) as (nr & Hnr & Hst & _).
  - change (textual (py_or (row_get row "id")
                       (py_or (row_get row "url")
                          (py_or (row_get row "title")
                             (py_or (row_get row "recipe_title")
                                (py_or (row_get row "name")
                                   (row_get row "headline"))))))).
    repeat apply py_or_textual; apply row_get_textual.
  - left. reflexivity.
  - change (textual (py_or (row_get row "title")
                       (py_or (row_get row "recipe_title")
                          (py_or (row_get row "name") (row_get row "headline"))))).
    repeat apply py_or_textual; apply row_get_textual.
  - reflexivity.
  - exists nr. split; [exact Hnr|]. rewrite Hst.
    change (dict_get _ (lit "steps"))
      with (if negb (truthy (PList (map PStr (split_by_priority (strip d)))))
            then PList [PStr d]
            else PList (map PStr (split_by_priority (strip d)))).
    destruct (split_by_priority (strip d)); reflexivity.
Qed.

Lemma csv_description_is_split_witness :
  exists nr,
    (item ← csv_item no_text no_text
              {[ lit "title" := lit "Stew";
                 lit "description" := lit "Chop; simmer" ]};
     normalize_recipe no_text item) = Ret nr
    /\ steps nr = PList [PStr (lit "Chop"); PStr (lit "simmer")].
Proof.
  apply (csv_description_is_split no_text no_text
           {[ lit "title" := lit "Stew"; lit "description" := lit "Chop; simmer" ]}
           (lit "Chop; simmer")).
  - repeat split; vm_compute; reflexivity.
  - vm_compute. reflexivity.
  - vm_compute. discriminate.
  - split; vm_compute; reflexivity.
Defined.


(** *** Normalizing what has been normalized *)

Ltac ret_inv H :=
  repeat match type of H with
  | mbind _ ?m = Ret _ =>
      let E := fresh "E" in
      destruct m eqn:E; cbn [mbind exc_bind] in H; [|discriminate H]
  end.

Lemma py_or_absorb a b : py_or (py_or a b) b = py_or a b.
Proof.
  unfold py_or. destruct (truthy a) eqn:E; [rewrite E; reflexivity|].
  destruct (truthy b); reflexivity.
Qed.

(** [parse_ingredient if isinstance(i, str) else i] *)
Definition parse_if_str (i : pyval) : exc pyval :=
  match i with
  | PStr s => ingredient_value <$> parse_ingredient s
  | _ => Ret i
  end.

Lemma parse_if_str_parsed items : forall parsed,
  mapM parse_if_str items = Ret parsed -> mapM parse_if_str parsed = Ret parsed.
Proof.
  induction items as [|x items IH]; intros parsed H.
  - injection H as <-. reflexivity.
  - cbn [mapM] in H.
    destruct (parse_if_str x) as [y|] eqn:Ex; [|discriminate H].
    cbn [mbind exc_bind] in H.
    destruct (mapM parse_if_str items) as [ys|] eqn:Em; [|discriminate H].
    cbn [mbind exc_bind] in H. injection H as <-.
    assert (Hy : parse_if_str y = Ret y).
    { destruct x; cbn [parse_if_str] in Ex; try (injection Ex as <-; reflexivity).
      destruct (parse_ingredient s); [|discriminate].
      injection Ex as <-. reflexivity. }
    cbn [mapM]. rewrite Hy. cbn [mbind exc_bind]. rewrite (IH ys eq_refl).
    reflexivity.
Qed.

(** X14.  Normalizing is stable: a recipe that [normalize_recipe] returned,
    written out as a record and normalized again, comes back unchanged, as
    long as its id is not the empty string.  (A record without id, url and
    title gets the empty id; normalized again it would take its id from the
    title 'Untitled' that the first pass gave it.) *)
Theorem normalize_recipe_stable
    (repr_other : pyval -> exc pystr) (r : pyval) (nr : recipe) :
  normalize_recipe repr_other r = Ret nr ->
  id nr <> [] ->
  normalize_recipe repr_other (recipe_value nr) = Ret nr.
Proof.
  intros H Hid. unfold normalize_recipe in H.
  destruct r as [| | | | |d0|d]; try discriminate H.
  cbn [py_get mbind exc_bind] in H.
  match type of H with mbind _ ?m = _ => destruct m as [rid|] eqn:Erid end;
    [|discriminate H].
  cbn [mbind exc_bind] in H.
  match type of H with mbind _ ?m = _ => destruct m as [items|] eqn:Eit end;
    [|discriminate H].
  cbn [mbind exc_bind] in H. fold parse_if_str in H.
  destruct (mapM parse_if_str items) as [p1|] eqn:E1; [|discriminate H].
  cbn [mbind exc_bind] in H.
  destruct (py_str repr_other rid) as [p2|] eqn:E2; [|discriminate H].
  cbn [mbind exc_bind] in H. injection H as <-.
  cbn [id] in Hid. apply parse_if_str_parsed in E1.
  unfold normalize_recipe, recipe_value.
  cbn [py_get mbind exc_bind id title ingredients steps nutrition source_url].
  set (d' := [ (lit "id", PStr p2); _; _; _; _; _ ]).
  assert (L1 : dict_get d' (lit "id") = PStr p2) by reflexivity.
  assert (L2 : dict_get d' (lit "url") = PNone) by reflexivity.
  assert (L3 : dict_get d' (lit "title")
               = py_or (dict_get d (lit "title")) (PStr (lit "Untitled")))
    by reflexivity.
  assert (L4 : dict_get d' (lit "ingredients") = PList p1) by reflexivity.
  assert (L5 : dict_get d' (lit "steps")
               = py_or (dict_get d (lit "steps")) (PList [])) by reflexivity.
  assert (L6 : dict_get d' (lit "nutrition")
               = py_or (dict_get d (lit "nutrition")) (PDict [])) by reflexivity.
  assert (L7 : dict_get d' (lit "source_url")
               = py_or (dict_get d (lit "url")) (dict_get d (lit "source_url")))
    by reflexivity.
  rewrite L1, L2, L3, L4, L5, L6, L7. clear L1 L2 L3 L4 L5 L6 L7.
  assert (Ht : truthy (PStr p2) = true) by (destruct p2; [contradiction|reflexivity]).
  rewrite Ht. cbn [mbind exc_bind].
  assert (Hit : py_iter (py_or (PList p1) (PList [])) = Ret p1)
    by (unfold py_or; destruct p1; reflexivity).
  rewrite Hit. cbn [mbind exc_bind]. fold parse_if_str. rewrite E1.
  cbn [mbind exc_bind py_str]. rewrite !py_or_absorb. reflexivity.
Qed.

(** A record with a url and no id. *)
Definition tea_record : pyval :=
  PDict [ (lit "url", PStr (lit "http://x/tea"));
          (lit "ingredients", PList [PStr (lit "2 cups water")]) ].

Lemma normalize_recipe_stable_witness :
  exists nr,
    normalize_recipe no_text tea_record = Ret nr
    /\ normalize_recipe no_text (recipe_value nr) = Ret nr.
Proof.
  destruct (normalize_recipe no_text tea_record) as [nr|] eqn:E;
    [|vm_compute in E; discriminate E].
  exists nr. split; [reflexivity|].
  apply (normalize_recipe_stable no_text tea_record nr E).
  vm_compute in E. injection E as <-. discriminate.
Defined.

End ingest.

(** ** Codecs of the standard library: UTF-8 and base64 *)

Module Codec.

(** A [bytes] object is a sequence of numbers below 256. *)
Definition bytes := list N.
Definition is_bytes (b : bytes) : Prop := Forall (fun x => x < 256) b.

(** *** UTF-8 *)

(** The encoding of one code point; a surrogate cannot be encoded. *)
Definition utf8_encode_char (c : N) : exc bytes :=
  if c <? 128 then Ret [c]
  else if c <? 2048 then Ret [192 + c / 64; 128 + c mod 64]
  else if c <? 65536 then
    if is_surrogate c then Raise UnicodeEncodeError
    else Ret [224 + c / 4096; 128 + (c / 64) mod 64; 128 + c mod 64]
  else if c <? 1114112 then
    Ret [240 + c / 262144; 128 + (c / 4096) mod 64;
         128 + (c / 64) mod 64; 128 + c mod 64]
  else Raise UnicodeEncodeError.

(** [text.encode('utf-8')] *)
Fixpoint utf8_encode (text : pystr) : exc bytes :=
  match text with
  | [] => Ret []
  | c :: text' =>
      b ← utf8_encode_char c;
      rest ← utf8_encode text';
      Ret (b ++ rest)
  end.

Definition is_cont (b : N) : bool := (128 <=? b) && (b <=? 191).

(** [b.decode('utf-8')]: strict, so overlong forms, surrogates and code
    points above 0x10FFFF are errors. *)
Fixpoint utf8_decode (b : bytes) : exc pystr :=
  match b with
  | [] => Ret []
  | b0 :: r0 =>
      if b0 <? 128 then cons b0 <$> utf8_decode r0
      else if (192 <=? b0) && (b0 <? 224) then
        match r0 with
        | b1 :: r1 =>
            let c := (b0 - 192) * 64 + (b1 - 128) in
            if is_cont b1 && (128 <=? c) then cons c <$> utf8_decode r1
            else Raise UnicodeDecodeError
        | _ => Raise UnicodeDecodeError
        end
      else if (224 <=? b0) && (b0 <? 240) then
        match r0 with
        | b1 :: b2 :: r2 =>
            let c := (b0 - 224) * 4096 + (b1 - 128) * 64 + (b2 - 128) in
            if is_cont b1 && is_cont b2 && (2048 <=? c) && negb (is_surrogate c)
            then cons c <$> utf8_decode r2
            else Raise UnicodeDecodeError
        | _ => Raise UnicodeDecodeError
        end
      else if (240 <=? b0) && (b0 <? 248) then
        match r0 with
        | b1 :: b2 :: b3 :: r3 =>
            let c := (b0 - 240) * 262144 + (b1 - 128) * 4096
                     + (b2 - 128) * 64 + (b3 - 128) in
            if is_cont b1 && is_cont b2 && is_cont b3
               && (65536 <=? c) && (c <? 1114112)
            then cons c <$> utf8_decode r3
            else Raise UnicodeDecodeError
        | _ => Raise UnicodeDecodeError
        end
      else Raise UnicodeDecodeError
  end.

(** [b.decode('ascii')] and [s.encode('ascii')]: the same numbers, all of
    them below 128. *)
Definition ascii_decode (b : bytes) : exc pystr :=
  if forallb (fun x => x <? 128) b then Ret b else Raise UnicodeDecodeError.

(** *** base64 *)

(** The character of a six-bit value. *)
Definition b64_char (v : N) : N :=
  if v <? 26 then 65 + v
  else if v <? 52 then 97 + (v - 26)
  else if v <? 62 then 48 + (v - 52)
  else if v =? 62 then 43
  else 47.

(** The six-bit value of a character of the alphabet. *)
Definition b64_value (ch : N) : option N :=
  if (65 <=? ch) && (ch <=? 90) then Some (ch - 65)
  else if (97 <=? ch) && (ch <=? 122) then Some (ch - 97 + 26)
  else if (48 <=? ch) && (ch <=? 57) then Some (ch - 48 + 52)
  else if ch =? 43 then Some 62
  else if ch =? 47 then Some 63
  else None.

(** [base64.b64encode(b)] *)
Fixpoint b64encode (b : bytes) : bytes :=
  match b with
  | b1 :: b2 :: b3 :: rest =>
      b64_char (b1 / 4) :: b64_char ((b1 mod 4) * 16 + b2 / 16)
      :: b64_char ((b2 mod 16) * 4 + b3 / 64) :: b64_char (b3 mod 64)
      :: b64encode rest
  | [b1; b2] =>
      [b64_char (b1 / 4); b64_char ((b1 mod 4) * 16 + b2 / 16);
       b64_char ((b2 mod 16) * 4); 61]
  | [b1] => [b64_char (b1 / 4); b64_char ((b1 mod 4) * 16); 61; 61]
  | [] => []
  end.

(** [binascii.a2b_base64], not strict: characters outside the alphabet are
    skipped, a complete pad sequence ends the data, and data that stops
    inside a group of four is an error. *)
Fixpoint a2b_base64 (s : bytes) (quad_pos leftchar pads : N) : exc bytes :=
  match s with
  | [] => if quad_pos =? 0 then Ret [] else Raise BinasciiError
  | ch :: s' =>
      if ch =? 61 then
        if (2 <=? quad_pos) && (4 <=? quad_pos + (pads + 1)) then Ret []
        else a2b_base64 s' quad_pos leftchar
               (if 2 <=? quad_pos then pads + 1 else pads)
      else
        match b64_value ch with
        | None => a2b_base64 s' quad_pos leftchar pads
        | Some v =>
            if quad_pos =? 0 then a2b_base64 s' 1 v 0
            else if quad_pos =? 1 then
              cons (leftchar * 4 + v / 16) <$> a2b_base64 s' 2 (v mod 16) 0
            else if quad_pos =? 2 then
              cons (leftchar * 16 + v / 4) <$> a2b_base64 s' 3 (v mod 4) 0
            else
              cons (leftchar * 64 + v) <$> a2b_base64 s' 0 0 0
        end
  end.

(** [base64.b64decode(s)] for a [str] argument, which has to be ASCII. *)
Definition b64decode (s : pystr) : exc bytes :=
  if forallb (fun x => x <? 128) s then a2b_base64 s 0 0 0
  else Raise ValueError.

(** *** Round trips *)

Definition encodable (text : pystr) : Prop :=
  Forall (fun c => c < 1114112 /\ is_surrogate c = false) text.

Ltac by_cases_N :=
  repeat match goal with
  | |- context [N.ltb ?a ?b] => destruct (N.ltb_spec a b)
  | |- context [N.leb ?a ?b] => destruct (N.leb_spec a b)
  | |- context [N.eqb ?a ?b] => destruct (N.eqb_spec a b)
  end.

Lemma utf8_encode_char_bytes c b :
  utf8_encode_char c = Ret b -> is_bytes b.
Proof.
  unfold utf8_encode_char, is_surrogate, is_bytes.
  destruct (N.ltb_spec c 128); [intros [= <-]; repeat constructor; lia|].
  destruct (N.ltb_spec c 2048).
  { intros [= <-]. repeat constructor.
    - assert (c / 64 < 32) by (apply N.Div0.div_lt_upper_bound; lia). lia.
    - pose proof (N.mod_upper_bound c 64). lia. }
  destruct (N.ltb_spec c 65536).
  { destruct ((55296 <=? c) && (c <=? 57343)); [discriminate|].
    intros [= <-]. repeat constructor.
    - assert (c / 4096 < 16) by (apply N.Div0.div_lt_upper_bound; lia). lia.
    - pose proof (N.mod_upper_bound (c / 64) 64). lia.
    - pose proof (N.mod_upper_bound c 64). lia. }
  destruct (N.ltb_spec c 1114112); [|discriminate].
  intros [= <-]. repeat constructor.
  - assert (c / 262144 < 5) by (apply N.Div0.div_lt_upper_bound; lia). lia.
  - pose proof (N.mod_upper_bound (c / 4096) 64). lia.
  - pose proof (N.mod_upper_bound (c / 64) 64). lia.
  - pose proof (N.mod_upper_bound c 64). lia.
Qed.

Lemma utf8_encode_bytes text b : utf8_encode text = Ret b -> is_bytes b.
Proof.
  revert b. induction text as [|c text IH]; simpl; intros b.
  - intros [= <-]. constructor.
  - destruct (utf8_encode_char c) as [bc|] eqn:Hc; [|discriminate]. simpl.
    destruct (utf8_encode text) as [br|]; [|discriminate]. simpl.
    intros [= <-]. apply Forall_app. split.
    + eapply utf8_encode_char_bytes. exact Hc.
    + apply IH. reflexivity.
Qed.

Ltac split_bools :=
  repeat match goal with
  | |- context [N.ltb ?a ?b] => destruct (N.ltb_spec a b); try lia
  | |- context [N.leb ?a ?b] => destruct (N.leb_spec a b); try lia
  end; cbn [andb orb negb].

Lemma utf8_decode_encode_char (c : N) :
  c < 1114112 -> is_surrogate c = false ->
  exists bc, utf8_encode_char c = Ret bc
    /\ forall rest, utf8_decode (bc ++ rest) = cons c <$> utf8_decode rest.
Proof.
  intros Hmax Hsur. unfold utf8_encode_char. rewrite Hsur.
  unfold is_surrogate in Hsur.
  apply andb_false_iff in Hsur. rewrite N.leb_gt, N.leb_gt in Hsur.
  pose proof (N.div_mod c 64 ltac:(lia)) as E1.
  pose proof (N.mod_upper_bound c 64 ltac:(lia)) as B1.
  pose proof (N.div_mod (c / 64) 64 ltac:(lia)) as E2.
  pose proof (N.mod_upper_bound (c / 64) 64 ltac:(lia)) as B2.
  pose proof (N.div_mod (c / 64 / 64) 64 ltac:(lia)) as E3.
  pose proof (N.mod_upper_bound (c / 64 / 64) 64 ltac:(lia)) as B3.
  replace (c / 4096) with (c / 64 / 64) by (rewrite N.Div0.div_div; reflexivity).
  replace (c / 262144) with (c / 64 / 64 / 64)
    by (rewrite !N.Div0.div_div; reflexivity).
  set (r1 := c mod 64) in *. set (q1 := c / 64) in *.
  set (r2 := q1 mod 64) in *. set (q2 := q1 / 64) in *.
  set (r3 := q2 mod 64) in *. set (q3 := q2 / 64) in *.
  clearbody r1 q1 r2 q2 r3 q3.
  destruct (N.ltb_spec c 128).
  { eexists. split; [reflexivity|]. intros rest. cbn [app utf8_decode].
    split_bools. reflexivity. }
  destruct (N.ltb_spec c 2048).
  { eexists. split; [reflexivity|]. intros rest. cbn [app utf8_decode].
    unfold is_cont. cbv zeta. split_bools.
    replace ((192 + q1 - 192) * 64 + (128 + r1 - 128)) with c by lia.
    reflexivity. }
  destruct (N.ltb_spec c 65536).
  { eexists. split; [reflexivity|]. intros rest. cbn [app utf8_decode].
    unfold is_cont, is_surrogate. cbv zeta. split_bools;
    replace ((224 + q2 - 224) * 4096 + (128 + r2 - 128) * 64 + (128 + r1 - 128))
      with c by lia;
    reflexivity. }
  destruct (N.ltb_spec c 1114112); [|lia].
  eexists. split; [reflexivity|]. intros rest. cbn [app utf8_decode].
  unfold is_cont. cbv zeta. split_bools.
  replace ((240 + q3 - 240) * 262144 + (128 + r3 - 128) * 4096
           + (128 + r2 - 128) * 64 + (128 + r1 - 128)) with c by lia.
  reflexivity.
Qed.

Lemma utf8_round_trip (text : pystr) :
  encodable text ->
  exists b, utf8_encode text = Ret b /\ is_bytes b /\ utf8_decode b = Ret text.
Proof.
  induction 1 as [|c text [Hmax Hsur] _ (b & Hb & _ & Hd)].
  - exists []. repeat split. constructor.
  - destruct (utf8_decode_encode_char c Hmax Hsur) as (bc & Hbc & Hdec).
    exists (bc ++ b).
    assert (He : utf8_encode (c :: text) = Ret (bc ++ b)).
    { cbn [utf8_encode]. rewrite Hbc, Hb. reflexivity. }
    split; [exact He|]. split; [eapply utf8_encode_bytes; exact He|].
    rewrite Hdec, Hd. reflexivity.
Qed.

Lemma b64_value_char (v : N) : v < 64 -> b64_value (b64_char v) = Some v.
Proof.
  intros Hv. unfold b64_char.
  destruct (N.ltb_spec v 26).
  { unfold b64_value. split_bools. f_equal. lia. }
  destruct (N.ltb_spec v 52).
  { unfold b64_value. split_bools. f_equal. lia. }
  destruct (N.ltb_spec v 62).
  { unfold b64_value. split_bools. f_equal. lia. }
  destruct (N.eqb_spec v 62) as [->|Hne]; [reflexivity|].
  assert (v = 63) as -> by lia. reflexivity.
Qed.

Lemma b64_char_not_pad (v : N) : (b64_char v =? 61) = false.
Proof.
  unfold b64_char. apply N.eqb_neq.
  destruct (N.ltb_spec v 26); [lia|]. destruct (N.ltb_spec v 52); [lia|].
  destruct (N.ltb_spec v 62); [lia|]. destruct (v =? 62); lia.
Qed.

Lemma b64_char_ascii (v : N) : v < 64 -> (b64_char v <? 128) = true.
Proof.
  intros Hv. unfold b64_char. apply N.ltb_lt.
  destruct (N.ltb_spec v 26); [lia|]. destruct (N.ltb_spec v 52); [lia|].
  destruct (N.ltb_spec v 62); [lia|]. destruct (v =? 62); lia.
Qed.

(** One character of the alphabet, seen by the decoder. *)
Lemma a2b_base64_char (v : N) (s : bytes) (quad_pos leftchar pads : N) :
  v < 64 ->
  a2b_base64 (b64_char v :: s) quad_pos leftchar pads
  = if quad_pos =? 0 then a2b_base64 s 1 v 0
    else if quad_pos =? 1 then
      cons (leftchar * 4 + v / 16) <$> a2b_base64 s 2 (v mod 16) 0
    else if quad_pos =? 2 then
      cons (leftchar * 16 + v / 4) <$> a2b_base64 s 3 (v mod 4) 0
    else cons (leftchar * 64 + v) <$> a2b_base64 s 0 0 0.
Proof.
  intros Hv. cbn [a2b_base64]. rewrite b64_char_not_pad, b64_value_char by exact Hv.
  reflexivity.
Qed.

Ltac sextet_bounds :=
  repeat match goal with
  | |- context [?a mod ?b] =>
      lazymatch goal with
      | _ : a mod b < b |- _ => fail
      | _ => pose proof (N.mod_upper_bound a b ltac:(lia))
      end;
      lazymatch goal with
      | _ : a = b * (a / b) + a mod b |- _ => idtac
      | _ => pose proof (N.div_mod a b ltac:(lia))
      end;
      let r := fresh "r" in let q := fresh "q" in
      set (r := a mod b) in *; set (q := a / b) in *; clearbody r q
  | |- context [?a / ?b] =>
      pose proof (N.div_mod a b ltac:(lia));
      pose proof (N.mod_upper_bound a b ltac:(lia));
      let r := fresh "r" in let q := fresh "q" in
      set (r := a mod b) in *; set (q := a / b) in *; clearbody r q
  end.

Lemma b64_group3 (b1 b2 b3 : N) (rest : bytes) :
  b1 < 256 -> b2 < 256 -> b3 < 256 ->
  a2b_base64 (b64encode (b1 :: b2 :: b3 :: rest)) 0 0 0
  = (fun r => b1 :: b2 :: b3 :: r) <$> a2b_base64 (b64encode rest) 0 0 0.
Proof.
  intros H1 H2 H3. cbn [b64encode].
  pose proof (N.div_mod b1 4 ltac:(lia)). pose proof (N.mod_upper_bound b1 4 ltac:(lia)).
  pose proof (N.div_mod b2 16 ltac:(lia)). pose proof (N.mod_upper_bound b2 16 ltac:(lia)).
  pose proof (N.div_mod b3 64 ltac:(lia)). pose proof (N.mod_upper_bound b3 64 ltac:(lia)).
  set (q1 := b1 / 4) in *. set (r1 := b1 mod 4) in *.
  set (q2 := b2 / 16) in *. set (r2 := b2 mod 16) in *.
  set (q3 := b3 / 64) in *. set (r3 := b3 mod 64) in *.
  clearbody q1 r1 q2 r2 q3 r3.
  rewrite !a2b_base64_char by lia. cbn [N.eqb Pos.eqb].
  assert (E1 : q1 * 4 + (r1 * 16 + q2) / 16 = b1).
  { replace (r1 * 16 + q2) with (q2 + r1 * 16) by lia.
    rewrite N.div_add by lia. rewrite (N.div_small q2 16) by lia. lia. }
  assert (E2 : (r1 * 16 + q2) mod 16 * 16 + (r2 * 4 + q3) / 4 = b2).
  { replace (r1 * 16 + q2) with (q2 + r1 * 16) by lia.
    rewrite N.Div0.mod_add. rewrite (N.mod_small q2 16) by lia.
    replace (r2 * 4 + q3) with (q3 + r2 * 4) by lia.
    rewrite N.div_add by lia. rewrite (N.div_small q3 4) by lia. lia. }
  assert (E3 : (r2 * 4 + q3) mod 4 * 64 + r3 = b3).
  { replace (r2 * 4 + q3) with (q3 + r2 * 4) by lia.
    rewrite N.Div0.mod_add. rewrite (N.mod_small q3 4) by lia. lia. }
  rewrite E1, E2, E3.
  destruct (a2b_base64 (b64encode rest) 0 0 0); reflexivity.
Qed.

Lemma b64_group2 (b1 b2 : N) :
  b1 < 256 -> b2 < 256 ->
  a2b_base64 (b64encode [b1; b2]) 0 0 0 = Ret [b1; b2].
Proof.
  intros H1 H2. cbn [b64encode].
  pose proof (N.div_mod b1 4 ltac:(lia)). pose proof (N.mod_upper_bound b1 4 ltac:(lia)).
  pose proof (N.div_mod b2 16 ltac:(lia)). pose proof (N.mod_upper_bound b2 16 ltac:(lia)).
  set (q1 := b1 / 4) in *. set (r1 := b1 mod 4) in *.
  set (q2 := b2 / 16) in *. set (r2 := b2 mod 16) in *.
  clearbody q1 r1 q2 r2.
  rewrite !a2b_base64_char by lia. cbn [N.eqb Pos.eqb].
  assert (E1 : q1 * 4 + (r1 * 16 + q2) / 16 = b1).
  { replace (r1 * 16 + q2) with (q2 + r1 * 16) by lia.
    rewrite N.div_add by lia. rewrite (N.div_small q2 16) by lia. lia. }
  assert (E2 : (r1 * 16 + q2) mod 16 * 16 + (r2 * 4) / 4 = b2).
  { replace (r1 * 16 + q2) with (q2 + r1 * 16) by lia.
    rewrite N.Div0.mod_add. rewrite (N.mod_small q2 16) by lia.
    rewrite N.div_mul by lia. lia. }
  rewrite E1, E2. reflexivity.
Qed.

Lemma b64_group1 (b1 : N) :
  b1 < 256 -> a2b_base64 (b64encode [b1]) 0 0 0 = Ret [b1].
Proof.
  intros H1. cbn [b64encode].
  pose proof (N.div_mod b1 4 ltac:(lia)). pose proof (N.mod_upper_bound b1 4 ltac:(lia)).
  set (q1 := b1 / 4) in *. set (r1 := b1 mod 4) in *. clearbody q1 r1.
  rewrite !a2b_base64_char by lia. cbn [N.eqb Pos.eqb].
  assert (E1 : q1 * 4 + (r1 * 16) / 16 = b1) by (rewrite N.div_mul by lia; lia).
  rewrite E1. reflexivity.
Qed.

Lemma b64_round_trip_len (n : nat) (b : bytes) :
  (length b <= n)%nat -> is_bytes b -> a2b_base64 (b64encode b) 0 0 0 = Ret b.
Proof.
  revert b. induction n as [|n IH]; intros b Hlen Hb.
  - destruct b; [reflexivity|simpl in Hlen; lia].
  - destruct b as [|b1 [|b2 [|b3 rest]]].
    + reflexivity.
    + apply Forall_cons in Hb as [H1 _]. apply b64_group1. exact H1.
    + apply Forall_cons in Hb as [H1 Hb]. apply Forall_cons in Hb as [H2 _].
      apply b64_group2; assumption.
    + apply Forall_cons in Hb as [H1 Hb]. apply Forall_cons in Hb as [H2 Hb].
      apply Forall_cons in Hb as [H3 Hb].
      rewrite b64_group3 by assumption.
      rewrite IH; [reflexivity| |exact Hb]. simpl in Hlen. lia.
Qed.

Lemma b64_round_trip (b : bytes) :
  is_bytes b -> a2b_base64 (b64encode b) 0 0 0 = Ret b.
Proof. apply (b64_round_trip_len (length b)). lia. Qed.

Lemma b64encode_ascii_len (n : nat) (b : bytes) :
  (length b <= n)%nat -> is_bytes b ->
  forallb (fun x => x <? 128) (b64encode b) = true.
Proof.
  revert b. induction n as [|n IH]; intros b Hlen Hb.
  - destruct b; [reflexivity|simpl in Hlen; lia].
  - destruct b as [|b1 [|b2 [|b3 rest]]]; [reflexivity| | |].
    + apply Forall_cons in Hb as [H1 _]. cbn [b64encode forallb].
      pose proof (N.mod_upper_bound b1 4 ltac:(lia)).
      assert (b1 / 4 < 64) by (apply N.Div0.div_lt_upper_bound; lia).
      rewrite !b64_char_ascii by lia. reflexivity.
    + apply Forall_cons in Hb as [H1 Hb]. apply Forall_cons in Hb as [H2 _].
      cbn [b64encode forallb].
      pose proof (N.mod_upper_bound b1 4 ltac:(lia)).
      pose proof (N.mod_upper_bound b2 16 ltac:(lia)).
      assert (b1 / 4 < 64) by (apply N.Div0.div_lt_upper_bound; lia).
      assert (b2 / 16 < 16) by (apply N.Div0.div_lt_upper_bound; lia).
      rewrite !b64_char_ascii by lia. reflexivity.
    + apply Forall_cons in Hb as [H1 Hb]. apply Forall_cons in Hb as [H2 Hb].
      apply Forall_cons in Hb as [H3 Hb].
      cbn [b64encode forallb].
      pose proof (N.mod_upper_bound b1 4 ltac:(lia)).
      pose proof (N.mod_upper_bound b2 16 ltac:(lia)).
      pose proof (N.mod_upper_bound b3 64 ltac:(lia)).
      assert (b1 / 4 < 64) by (apply N.Div0.div_lt_upper_bound; lia).
      assert (b2 / 16 < 16) by (apply N.Div0.div_lt_upper_bound; lia).
      assert (b3 / 64 < 4) by (apply N.Div0.div_lt_upper_bound; lia).
      rewrite !b64_char_ascii by lia. cbn [andb].
      apply IH; [simpl in Hlen; lia|exact Hb].
Qed.

Lemma b64_text_round_trip (b : bytes) :
  is_bytes b ->
  exists b64, ascii_decode (b64encode b) = Ret b64 /\ b64decode b64 = Ret b.
Proof.
  intros Hb. exists (b64encode b). unfold ascii_decode, b64decode.
  rewrite (b64encode_ascii_len (length b)) by (lia || exact Hb).
  split; [reflexivity|]. apply b64_round_trip. exact Hb.
Qed.

End Codec.

(** ** scripts/scaledown_client.py *)

Module scaledown_client.
Import Codec.

Section Client.

(** [zlib.compress] and [zlib.decompress]. *)
Variable zlib_compress : bytes -> bytes.
Variable zlib_decompress : bytes -> exc bytes.

(** The remote backend: [None] unless both environment variables are set
    and [requests] could be imported; otherwise the JSON body of the answer
    to the POST of a text, where a transport error, a status that is not a
    success and a body that is not JSON all raise. *)
Variable remote : option (pystr -> exc pyval).

Definition _simulate_compress (text : pystr) : exc pyval :=
  b ← utf8_encode text;
  let comp := zlib_compress b in
  b64 ← ascii_decode (b64encode comp);
  Ret (PDict [ (lit "method", PStr (lit "simulated"));
               (lit "compressed_blob_b64", PStr b64);
               (lit "orig_len", PInt (Z.of_nat (length b)));
               (lit "compressed_len", PInt (Z.of_nat (length comp))) ]).

Definition _simulate_decompress (b64 : pystr) : exc pystr :=
  comp ← b64decode b64;
  b ← zlib_decompress comp;
  utf8_decode b.

(** The normalisation of the answer of the remote backend. *)
Definition api_response (data : pyval) : exc pyval :=
  has1 ← py_contains (lit "compressed_blob_b64") data;
  has2 ← (if has1 : bool then Ret true else py_contains (lit "blob") data);
  has3 ← (if has2 : bool then Ret true else py_contains (lit "compressed") data);
  if has3 : bool then
    b1 ← py_get data (lit "compressed_blob_b64");
    blob ← (if truthy b1 then Ret b1
            else b2 ← py_get data (lit "blob");
                 if truthy b2 then Ret b2
                 else py_get data (lit "compressed"));
    Ret (PDict [ (lit "method", PStr (lit "api"));
                 (lit "compressed_blob_b64", blob);
                 (lit "meta", data) ])
  else
    Ret (PDict [ (lit "method", PStr (lit "api")); (lit "meta", data) ]).

Definition compress_text (text : pystr) : exc pyval :=
  match remote with
  | Some post =>
      match data ← post text; api_response data with
      | Ret r => Ret r
      | Raise _ => _simulate_compress text
      end
  | None => _simulate_compress text
  end.

Definition decompress_text (compressed_blob_b64 : pystr) (method : pystr)
  : exc pystr :=
  if pystr_eqb method (lit "simulated")
  then _simulate_decompress compressed_blob_b64
  else Raise NotImplementedError.

(** What the callers rely on: compression returns bytes, and decompression
    undoes it. *)
Hypothesis zlib_compress_bytes :
  forall b, is_bytes b -> is_bytes (zlib_compress b).
Hypothesis zlib_round_trip :
  forall b, is_bytes b -> zlib_decompress (zlib_compress b) = Ret b.

(** C5 (as amended).  For every text that UTF-8 can encode (no surrogate
    code point), compressing with the local fallback backend returns a
    response with method 'simulated', and decompressing its base64 blob
    with that method yields exactly the original text. *)
Theorem simulate_round_trip (text : pystr) :
  encodable text ->
  exists blob olen clen,
    _simulate_compress text
    = Ret (PDict [ (lit "method", PStr (lit "simulated"));
                   (lit "compressed_blob_b64", PStr blob);
                   (lit "orig_len", PInt olen);
                   (lit "compressed_len", PInt clen) ])
    /\ decompress_text blob (lit "simulated") = Ret text.
Proof.
  intros Henc.
  destruct (utf8_round_trip text Henc) as (b & Hb & Hbytes & Hdec).
  destruct (b64_text_round_trip (zlib_compress b) (zlib_compress_bytes b Hbytes))
    as (b64 & H64 & Hd64).
  exists b64, (Z.of_nat (length b)), (Z.of_nat (length (zlib_compress b))).
  split.
  - unfold _simulate_compress. rewrite Hb. cbn [mbind exc_bind].
    rewrite H64. reflexivity.
  - unfold decompress_text, _simulate_decompress.
    replace (pystr_eqb (lit "simulated") (lit "simulated")) with true by reflexivity.
    rewrite Hd64. cbn [mbind exc_bind].
    rewrite zlib_round_trip by exact Hbytes. exact Hdec.
Qed.


(** *** The response of [compress_text] *)

Lemma utf8_encode_char_length c b :
  utf8_encode_char c = Ret b -> (1 <= length b <= 4)%nat.
Proof.
  unfold utf8_encode_char.
  repeat match goal with
         | |- context [if ?x then _ else _] => destruct x
         end; intros [= <-]; simpl; lia.
Qed.

Lemma utf8_encode_length text b :
  utf8_encode text = Ret b ->
  (length text <= length b <= 4 * length text)%nat.
Proof.
  revert b. induction text as [|c text IH]; cbn [utf8_encode]; intros b.
  - intros [= <-]. simpl. lia.
  - destruct (utf8_encode_char c) as [bc|] eqn:Hc; [|discriminate].
    cbn [mbind exc_bind].
    destruct (utf8_encode text) as [br|]; [|discriminate]. cbn [mbind exc_bind].
    intros [= <-]. apply utf8_encode_char_length in Hc.
    specialize (IH br eq_refl). rewrite length_app. simpl. lia.
Qed.

Lemma utf8_encode_ascii text :
  Forall (fun c => c < 128) text -> utf8_encode text = Ret text.
Proof.
  induction 1 as [|c text Hc _ IH]; [reflexivity|].
  cbn [utf8_encode]. unfold utf8_encode_char.
  destruct (N.ltb_spec c 128); [|lia]. cbn [mbind exc_bind]. rewrite IH.
  reflexivity.
Qed.

Lemma b64encode_length_le (n : nat) (b : bytes) :
  (length b <= n)%nat ->
  length (b64encode b) = (4 * ((length b + 2) / 3))%nat.
Proof.
  revert b. induction n as [|n IH]; intros b Hlen.
  - destruct b; [reflexivity|simpl in Hlen; lia].
  - destruct b as [|b1 [|b2 [|b3 rest]]]; try reflexivity.
    cbn [b64encode length]. rewrite IH by (simpl in Hlen; lia).
    replace (S (S (S (length rest))) + 2)%nat with (length rest + 2 + 1 * 3)%nat by lia.
    rewrite Nat.div_add by lia. lia.
Qed.

Lemma b64encode_length (b : bytes) :
  length (b64encode b) = (4 * ((length b + 2) / 3))%nat.
Proof. apply (b64encode_length_le (length b)). lia. Qed.

(** X15.  What the local backend reports: the response holds the method
    'simulated', the blob and the two sizes; [orig_len] is the number of
    UTF-8 bytes of the text, between one and four for each character (the
    length of the text itself when it is ASCII); and the blob has four
    characters for every three bytes of compressed data, rounded up. *)
Theorem simulate_compress_sizes (text : pystr) (r : pyval) :
  _simulate_compress text = Ret r ->
  exists blob olen clen,
    r = PDict [ (lit "method", PStr (lit "simulated"));
                (lit "compressed_blob_b64", PStr blob);
                (lit "orig_len", PInt (Z.of_nat olen));
                (lit "compressed_len", PInt (Z.of_nat clen)) ]
    /\ (length text <= olen <= 4 * length text)%nat
    /\ (Forall (fun c => c < 128) text -> olen = length text)
    /\ length blob = (4 * ((clen + 2) / 3))%nat.
Proof.
  unfold _simulate_compress. intros H.
  destruct (utf8_encode text) as [b|] eqn:Hb; [|discriminate H].
  cbn [mbind exc_bind] in H.
  destruct (ascii_decode (b64encode (zlib_compress b))) as [b64|] eqn:H64;
    [|discriminate H].
  cbn [mbind exc_bind] in H. injection H as <-.
  exists b64, (length b), (length (zlib_compress b)).
  split; [reflexivity|]. split; [apply utf8_encode_length; exact Hb|]. split.
  - intros Ha. rewrite (utf8_encode_ascii text Ha) in Hb. injection Hb as <-.
    reflexivity.
  - unfold ascii_decode in H64.
    destruct (forallb _ _); [|discriminate]. injection H64 as <-.
    apply b64encode_length.
Qed.

(** The value under a key of a response, if the key is there. *)
Definition field (v : pyval) (k : string) : option pyval :=
  match v with
  | PDict d => dict_lookup d (lit k)
  | _ => None
  end.

Lemma api_response_shape data r :
  api_response data = Ret r ->
  field r "method" = Some (PStr (lit "api"))
  /\ field r "meta" = Some data
  /\ field r "orig_len" = None
  /\ field r "compressed_len" = None.
Proof.
  unfold api_response. intros H.
  destruct (py_contains (lit "compressed_blob_b64") data) as [has1|];
    [|discriminate H]. cbn [mbind exc_bind] in H.
  match type of H with mbind _ ?m = _ => destruct m as [has2|] end;
    [|discriminate H]. cbn [mbind exc_bind] in H.
  match type of H with mbind _ ?m = _ => destruct m as [has3|] end;
    [|discriminate H]. cbn [mbind exc_bind] in H.
  destruct has3.
  - destruct (py_get data (lit "compressed_blob_b64")) as [b1|]; [|discriminate H].
    cbn [mbind exc_bind] in H.
    match type of H with mbind _ ?m = _ => destruct m as [blob|] end;
      [|discriminate H]. cbn [mbind exc_bind] in H.
    injection H as <-. repeat split; reflexivity.
  - injection H as <-. repeat split; reflexivity.
Qed.

(** X16.  Every response of [compress_text] names its method.  It is
    'simulated' exactly when the local backend produced the response, which
    is the case whenever no remote backend is configured and whenever the
    remote call fails in any way; it is 'api' otherwise, and then the
    response carries the answer of the remote backend as [meta] and no
    sizes.  A blob of a method other than 'simulated' cannot be
    decompressed. *)
Theorem compress_text_method (text : pystr) (r : pyval) :
  compress_text text = Ret r ->
  (field r "method" = Some (PStr (lit "simulated"))
   /\ _simulate_compress text = Ret r
   /\ (remote = None
       \/ exists post e, remote = Some post
                         /\ (data ← post text; api_response data) = Raise e))
  \/ (field r "method" = Some (PStr (lit "api"))
      /\ field r "orig_len" = None
      /\ field r "compressed_len" = None
      /\ (exists post data, remote = Some post /\ post text = Ret data
                            /\ field r "meta" = Some data)
      /\ forall blob, decompress_text blob (lit "api") = Raise NotImplementedError).
Proof.
  unfold compress_text. intros H.
  assert (Hsim : _simulate_compress text = Ret r ->
                 field r "method" = Some (PStr (lit "simulated"))).
  { unfold _simulate_compress. intros Hs.
    destruct (utf8_encode text) as [b|]; [|discriminate Hs].
    cbn [mbind exc_bind] in Hs.
    destruct (ascii_decode (b64encode (zlib_compress b))) as [b64|];
      [|discriminate Hs].
    cbn [mbind exc_bind] in Hs. injection Hs as <-. reflexivity. }
  destruct remote as [post|] eqn:Hrem.
  - destruct (data ← post text; api_response data) as [r'|e] eqn:Hcall.
    + injection H as <-. right.
      destruct (post text) as [data|] eqn:Hpost; [|discriminate Hcall].
      cbn [mbind exc_bind] in Hcall.
      apply api_response_shape in Hcall as (Hm & Hmeta & Ho & Hc).
      repeat split; try assumption. exists post, data. auto.
    + left. split; [apply Hsim; exact H|]. split; [exact H|]. right. eauto.
  - left. split; [apply Hsim; exact H|]. split; [exact H|]. left. reflexivity.
Qed.

(** X17.  For a text that UTF-8 can encode [compress_text] always returns
    a response, whatever the remote backend does. *)
Theorem compress_text_returns (text : pystr) :
  encodable text -> exists r, compress_text text = Ret r.
Proof.
  intros Henc.
  assert (Hsim : exists r, _simulate_compress text = Ret r).
  { destruct (utf8_round_trip text Henc) as (b & Hb & Hbytes & _).
    destruct (b64_text_round_trip (zlib_compress b) (zlib_compress_bytes b Hbytes))
      as (b64 & H64 & _).
    unfold _simulate_compress. rewrite Hb. cbn [mbind exc_bind]. rewrite H64.
    eexists. reflexivity. }
  unfold compress_text. destruct remote as [post|]; [|exact Hsim].
  destruct (data ← post text; api_response data); [eauto|exact Hsim].
Qed.

(** *** Blobs with characters outside the alphabet *)

(** The characters that the decoder looks at: the alphabet and the pad. *)
Definition is_b64_char (ch : N) : bool :=
  match b64_value ch with
  | Some _ => true
  | None => ch =? 61
  end.

(** The text without the characters that the decoder does not look at. *)
Fixpoint b64_chars_of (s : pystr) : pystr :=
  match s with
  | [] => []
  | ch :: s' => if is_b64_char ch then ch :: b64_chars_of s' else b64_chars_of s'
  end.

Lemma a2b_base64_skips (s : pystr) : forall quad_pos leftchar pads,
  a2b_base64 (b64_chars_of s) quad_pos leftchar pads
  = a2b_base64 s quad_pos leftchar pads.
Proof.
  induction s as [|ch s IH]; intros q l p; [reflexivity|].
  cbn [b64_chars_of]. destruct (is_b64_char ch) eqn:Hk.
  - cbn [a2b_base64].
    destruct (ch =? 61); [rewrite IH; reflexivity|].
    destruct (b64_value ch); [|apply IH].
    rewrite !IH. reflexivity.
  - rewrite IH. cbn [a2b_base64]. unfold is_b64_char in Hk.
    destruct (b64_value ch); [discriminate|]. rewrite Hk. reflexivity.
Qed.

Lemma b64_chars_of_ascii (s : pystr) :
  forallb (fun x => x <? 128) s = true ->
  forallb (fun x => x <? 128) (b64_chars_of s) = true.
Proof.
  induction s as [|ch s IH]; [reflexivity|]. cbn [forallb b64_chars_of].
  intros H. apply andb_true_iff in H as [H1 H2].
  destruct (is_b64_char ch); [|exact (IH H2)].
  cbn [forallb]. rewrite H1, (IH H2). reflexivity.
Qed.

(** X18.  The decoder of the local backend passes over every character
    that is not of the base64 alphabet: a blob of ASCII characters
    decompresses to the same result with such characters (line breaks,
    spaces) taken out. *)
Theorem simulate_decompress_skips_other_characters (blob : pystr) :
  Forall (fun ch => ch < 128) blob ->
  _simulate_decompress blob = _simulate_decompress (b64_chars_of blob).
Proof.
  intros Ha. unfold _simulate_decompress, b64decode.
  assert (H1 : forallb (fun x => x <? 128) blob = true).
  { apply forallb_forall. intros x Hx. apply N.ltb_lt.
    rewrite Forall_forall in Ha. apply Ha, list_elem_of_In, Hx. }
  rewrite (b64_chars_of_ascii blob H1), H1, a2b_base64_skips. reflexivity.
Qed.

End Client.

(** A stand-in for zlib that stores the data as it is. *)
Definition stored_compress (b : bytes) : bytes := b.
Definition stored_decompress (b : bytes) : exc bytes := Ret b.

Lemma simulate_round_trip_witness :
  exists blob olen clen,
    _simulate_compress stored_compress (lit "Tea")
    = Ret (PDict [ (lit "method", PStr (lit "simulated"));
                   (lit "compressed_blob_b64", PStr blob);
                   (lit "orig_len", PInt olen);
                   (lit "compressed_len", PInt clen) ])
    /\ decompress_text stored_decompress blob (lit "simulated") = Ret (lit "Tea").
Proof.
  apply (simulate_round_trip stored_compress stored_decompress).
  - intros b Hb. exact Hb.
  - intros b Hb. reflexivity.
  - unfold encodable. simpl. repeat constructor.
Defined.

(** C5 (as stated) fails on a text with a lone surrogate, which a Python
    string can hold: the encoder raises, nothing is compressed. *)
Lemma simulate_compress_lone_surrogate :
  _simulate_compress stored_compress [55296] = Raise UnicodeEncodeError.
Proof. reflexivity. Qed.


(** A remote backend that cannot be reached. *)
Definition unreachable : option (pystr -> exc pyval) :=
  Some (fun _ => Raise ValueError).

Lemma simulate_compress_sizes_witness :
  exists blob olen clen,
    _simulate_compress stored_compress (lit "Tea")
    = Ret (PDict [ (lit "method", PStr (lit "simulated"));
                   (lit "compressed_blob_b64", PStr blob);
                   (lit "orig_len", PInt (Z.of_nat olen));
                   (lit "compressed_len", PInt (Z.of_nat clen)) ])
    /\ olen = 3%nat /\ length blob = (4 * ((clen + 2) / 3))%nat.
Proof.
  destruct (_simulate_compress stored_compress (lit "Tea")) as [r|] eqn:E;
    [|vm_compute in E; discriminate E].
  destruct (simulate_compress_sizes stored_compress (lit "Tea") r E)
    as (blob & olen & clen & -> & _ & Hascii & Hb).
  exists blob, olen, clen. split; [reflexivity|]. split; [|exact Hb].
  apply Hascii. repeat constructor.
Defined.

Lemma compress_text_method_witness :
  exists r,
    compress_text stored_compress unreachable (lit "Tea") = Ret r
    /\ field r "method" = Some (PStr (lit "simulated")).
Proof.
  destruct (compress_text stored_compress unreachable (lit "Tea")) as [r|] eqn:E;
    [|vm_compute in E; discriminate E].
  exists r. split; [reflexivity|].
  destruct (compress_text_method stored_compress stored_decompress unreachable
              (lit "Tea") r E) as [(Hm & _)|(Hm & _ & _ & (post & data & Hp & Hd & _) & _)].
  - exact Hm.
  - injection Hp as <-. discriminate Hd.
Defined.

Lemma compress_text_returns_witness :
  exists r, compress_text stored_compress unreachable (lit "Tea") = Ret r.
Proof.
  apply (compress_text_returns stored_compress unreachable).
  - intros b Hb. exact Hb.
  - unfold encodable. simpl. repeat constructor.
Defined.

Lemma simulate_decompress_skips_other_characters_witness :
  _simulate_decompress stored_decompress (lit "VGVh")
  = _simulate_decompress stored_decompress (lit "VG" ++ 10 :: lit " Vh")
  /\ _simulate_decompress stored_decompress (lit "VGVh") = Ret (lit "Tea").
Proof.
  split; [|vm_compute; reflexivity].
  rewrite (simulate_decompress_skips_other_characters stored_decompress
             (lit "VG" ++ 10 :: lit " Vh")).
  - reflexivity.
  - simpl. repeat constructor.
Defined.

End scaledown_client.

(** ** scripts/compress_recipes.py *)

Module compress_recipes.
Import Codec scaledown_client.

(** [[A-Za-z0-9._-]] *)
Definition is_filename_safe (c : N) : bool :=
  is_upper_ascii c || is_lower_ascii c || is_ascii_digit c
  || (c =? 46) || (c =? 95) || (c =? 45).

(** [re.sub(r'[^A-Za-z0-9._-]', '_', s)] *)
Definition sanitize (s : pystr) : pystr :=
  map (fun c => if is_filename_safe c then c else 95) s.

Section Builder.

Variable zlib_compress : bytes -> bytes.
Variable remote : option (pystr -> exc pyval).
(** [str] of a float, a list or a dictionary, and
    [json.dumps(v, ensure_ascii=False)]. *)
Variable repr_other : pyval -> exc pystr.
Variable json_dumps : pyval -> exc pystr.

(** The strings of a list of ingredients or steps, as the loops append
    them to [parts]. *)
Fixpoint ingredient_parts (ings : list pyval) : exc (list pyval) :=
  match ings with
  | [] => Ret []
  | i :: rest =>
      p ← (match i with
           | PDict d =>
               Ret (py_or (dict_get d (lit "raw"))
                          (dict_get_or d (lit "name") (PStr [])))
           | _ => PStr <$> py_str repr_other i
           end);
      ps ← ingredient_parts rest;
      Ret (p :: ps)
  end.

Fixpoint step_parts (steps : list pyval) : exc (list pyval) :=
  match steps with
  | [] => Ret []
  | s :: rest =>
      p ← py_str repr_other s;
      ps ← step_parts rest;
      Ret (PStr p :: ps)
  end.

Definition build_text_for_recipe (r : pyval) : exc pystr :=
  title ← py_get_or r (lit "title") (PStr []);
  title_s ← py_str repr_other title;
  let parts0 := [PStr (lit "TITLE: " ++ title_s)] in
  ings ← py_get_or r (lit "ingredients") (PList []);
  parts1 ← (if truthy ings then
              l ← py_iter ings;
              ps ← ingredient_parts l;
              Ret (parts0 ++ PStr (10 :: lit "INGREDIENTS:" ++ [10]) :: ps)
            else Ret parts0);
  steps ← py_get_or r (lit "steps") (PList []);
  parts2 ← (if truthy steps then
              l ← py_iter steps;
              ps ← step_parts l;
              Ret (parts1 ++ PStr (10 :: lit "STEPS:" ++ [10]) :: ps)
            else Ret parts1);
  nutrition ← py_get r (lit "nutrition");
  parts3 ← (if truthy nutrition then
              n ← json_dumps nutrition;
              Ret (parts2 ++ [PStr (10 :: lit "NUTRITION:" ++ [10]); PStr n])
            else Ret parts2);
  py_join [10] parts3.

(** What [run] has done so far: the blob files it opened, in order, and
    the index it is building. *)
Record state := {
  files : list (pystr * pyval);
  count : Z;
  entries : list pyval
}.

Definition recipe_id (i : nat) (r : pyval) : exc pyval :=
  id ← py_get r (lit "id");
  Ret (py_or id (PStr (lit "recipe_" ++ str_of_N (N.of_nat i)))).

Definition safe_name (i : nat) (rid : pyval) : exc pystr :=
  s ← py_str repr_other rid;
  let safe := strip_char 95 (sanitize s) in
  Ret (if truthy (PStr safe) then safe
       else lit "recipe_" ++ str_of_N (N.of_nat i)).

Definition blob_name (i : nat) (safe : pystr) : pystr :=
  str_of_N (N.of_nat i) ++ 95 :: safe ++ lit ".json".

(** One turn of the loop up to the opening of the blob file: the name of
    the file, the object to put in it, and the entry for the index. *)
Definition prepare (i : nat) (r : pyval) : exc (pystr * pyval * pyval) :=
  rid ← recipe_id i r;
  safe ← safe_name i rid;
  text ← build_text_for_recipe r;
  resp ← compress_text zlib_compress remote text;
  method ← py_get resp (lit "method");
  b1 ← py_get resp (lit "compressed_blob_b64");
  b2 ← py_get resp (lit "meta");
  b3 ← py_get resp (lit "data");
  orig_len ← py_get resp (lit "orig_len");
  compressed_len ← py_get resp (lit "compressed_len");
  let name := blob_name i safe in
  let blob_obj :=
    PDict [ (lit "id", rid); (lit "method", method);
            (lit "compressed_blob_b64", py_or b1 (py_or b2 b3));
            (lit "orig_len", orig_len);
            (lit "compressed_len", compressed_len) ] in
  let entry :=
    PDict [ (lit "id", rid); (lit "blob", PStr name); (lit "method", method);
            (lit "orig_len", orig_len);
            (lit "compressed_len", compressed_len) ] in
  Ret (name, blob_obj, entry).

Definition step (i : nat) (r : pyval) (st : state) : state * exc () :=
  match prepare i r with
  | Raise e => (st, Raise e)
  | Ret (name, blob_obj, entry) =>
      let st1 := {| files := files st ++ [(name, blob_obj)];
                    count := count st; entries := entries st |} in
      match json_dump_to_file blob_obj with
      | Raise e => (st1, Raise e)
      | Ret _ =>
          ({| files := files st1; count := (count st1 + 1)%Z;
              entries := entries st1 ++ [entry] |}, Ret ())
      end
  end.

(** [for i, r in enumerate(recipes)], from index [i] on. *)
Fixpoint loop (sample : Z) (recipes : list pyval) (i : nat) (st : state)
  : state * exc () :=
  match recipes with
  | [] => (st, Ret ())
  | r :: rest =>
      if negb (sample =? 0)%Z && (sample <=? Z.of_nat i)%Z then (st, Ret ())
      else
        match step i r st with
        | (st1, Ret _) => loop sample rest (S i) st1
        | (st1, Raise e) => (st1, Raise e)
        end
  end.

Definition index_of (st : state) : pyval :=
  PDict [ (lit "count", PInt (count st)); (lit "entries", PList (entries st)) ].

(** [run]: the blob files written, and the index when it gets written.
    [recipes] is what [json.load] made of the input file. *)
Definition run (recipes : pyval) (sample : Z)
  : list (pystr * pyval) * exc pyval :=
  let st0 := {| files := []; count := 0; entries := [] |} in
  match py_iter recipes with
  | Raise e => ([], Raise e)
  | Ret l =>
      match loop sample l 0 st0 with
      | (st, Raise e) => (files st, Raise e)
      | (st, Ret _) =>
          match json_dump_to_file (index_of st) with
          | Raise e => (files st, Raise e)
          | Ret _ => (files st, Ret (index_of st))
          end
      end
  end.


(** *** The names of the blob files *)

Lemma uint_digits_ascii d : all is_ascii_digit (uint_digits d).
Proof. induction d; simpl; constructor; (reflexivity || assumption). Qed.

Lemma uint_digits_inj d d' : uint_digits d = uint_digits d' -> d = d'.
Proof.
  revert d'. induction d; intros d'; destruct d'; simpl; intros H;
    try discriminate; try reflexivity;
    injection H as H; f_equal; apply IHd; exact H.
Qed.

Lemma str_of_N_inj n n' : str_of_N n = str_of_N n' -> n = n'.
Proof.
  unfold str_of_N. intros H. apply uint_digits_inj in H.
  apply DecimalN.Unsigned.to_uint_inj. exact H.
Qed.

(** Two runs of digits, each followed by an underscore: when the whole
    strings are equal, so are the runs. *)
Lemma digits_prefix_inj (l1 l2 a b : pystr) :
  all is_ascii_digit l1 -> all is_ascii_digit l2 ->
  l1 ++ 95 :: a = l2 ++ 95 :: b -> l1 = l2.
Proof.
  intros H1. revert l2. induction H1 as [|c l1 Hc H1 IH]; intros l2 H2 Heq.
  - destruct H2 as [|c2 l2 Hc2 _]; [reflexivity|].
    simpl in Heq. injection Heq as <- _. discriminate Hc2.
  - destruct H2 as [|c2 l2 Hc2 H2].
    + simpl in Heq. injection Heq as -> _. discriminate Hc.
    + simpl in Heq. injection Heq as -> Heq. f_equal. apply IH; assumption.
Qed.

Lemma blob_name_inj (i j : nat) (a b : pystr) :
  blob_name i a = blob_name j b -> i = j.
Proof.
  unfold blob_name. intros H.
  apply digits_prefix_inj in H; try apply uint_digits_ascii.
  apply str_of_N_inj in H. lia.
Qed.

(** *** What one turn of the loop does *)

Ltac bind_inv H :=
  repeat match type of H with
  | mbind _ ?m = _ =>
      let E := fresh "E" in
      destruct m eqn:E; cbn [mbind exc_bind] in H; [|discriminate H]
  end.

Definition entry_for (i : nat) (r e : pyval) : Prop :=
  exists rid safe method orig_len compressed_len,
    recipe_id i r = Ret rid
    /\ e = PDict [ (lit "id", rid); (lit "blob", PStr (blob_name i safe));
                   (lit "method", method); (lit "orig_len", orig_len);
                   (lit "compressed_len", compressed_len) ].

Lemma prepare_spec i r name blob_obj entry :
  prepare i r = Ret (name, blob_obj, entry) ->
  (exists safe, name = blob_name i safe) /\ entry_for i r entry.
Proof.
  unfold prepare. intros H. bind_inv H. injection H as <- <- <-.
  split; [eauto|]. unfold entry_for. eauto 10.
Qed.

Lemma step_spec i r st st1 res :
  step i r st = (st1, res) ->
  (files st1 = files st /\ count st1 = count st /\ entries st1 = entries st
   /\ exists e, res = Raise e)
  \/ (exists safe blob_obj,
        files st1 = files st ++ [(blob_name i safe, blob_obj)]
        /\ ((count st1 = count st /\ entries st1 = entries st
             /\ exists e, res = Raise e)
            \/ (exists entry, count st1 = (count st + 1)%Z
                  /\ entries st1 = entries st ++ [entry]
                  /\ entry_for i r entry /\ res = Ret ()))).
Proof.
  unfold step. destruct (prepare i r) as [[[name blob_obj] entry]|e] eqn:Hp.
  - apply prepare_spec in Hp as [[safe ->] He].
    destruct (json_dump_to_file blob_obj) as [[]|e] eqn:Hd; intros [= <- <-]; right;
      exists safe, blob_obj; (split; [reflexivity|]).
    + right. exists entry. simpl. auto.
    + left. simpl. eauto.
  - intros [= <- <-]. left. eauto.
Qed.

Definition names (fs : list (pystr * pyval)) : list pystr := map fst fs.

(** Every name carries an index below [i]. *)
Definition below (i : nat) (ns : list pystr) : Prop :=
  Forall (fun n => exists j safe, (j < i)%nat /\ n = blob_name j safe) ns.

Lemma below_mono i j ns : (i <= j)%nat -> below i ns -> below j ns.
Proof.
  intros Hij Hb. eapply Forall_impl; [exact Hb|]. intros n (k & safe & Hk & ->).
  exists k, safe. split; [lia|reflexivity].
Qed.

Lemma below_fresh i ns safe : below i ns -> blob_name i safe ∉ ns.
Proof.
  intros Hb Hin. unfold below in Hb. rewrite Forall_forall in Hb.
  destruct (Hb _ Hin) as (j & safe' & Hj & Heq).
  apply blob_name_inj in Heq. lia.
Qed.

Lemma step_files i r st st1 res :
  step i r st = (st1, res) ->
  NoDup (names (files st)) -> below i (names (files st)) ->
  NoDup (names (files st1)) /\ below (S i) (names (files st1)).
Proof.
  intros Hs Hnd Hb.
  apply step_spec in Hs as [(-> & _)|(safe & blob_obj & -> & _)].
  - split; [exact Hnd|]. eapply below_mono; [|exact Hb]. lia.
  - unfold names. rewrite map_app. simpl. split.
    + apply NoDup_app. split; [exact Hnd|]. split.
      * intros n Hn Hn'. apply list_elem_of_singleton in Hn'. subst n.
        eapply below_fresh; [exact Hb|exact Hn].
      * apply NoDup_singleton.
    + apply Forall_app. split.
      * eapply below_mono; [|exact Hb]. lia.
      * constructor; [|constructor]. exists i, safe. split; [lia|reflexivity].
Qed.

Lemma loop_files sample rs : forall i st st1 res,
  loop sample rs i st = (st1, res) ->
  NoDup (names (files st)) -> below i (names (files st)) ->
  NoDup (names (files st1)).
Proof.
  induction rs as [|r rs IH]; intros i st st1 res; simpl.
  - intros [= <- <-] Hnd _. exact Hnd.
  - destruct (negb (sample =? 0)%Z && (sample <=? Z.of_nat i)%Z).
    + intros [= <- <-] Hnd _. exact Hnd.
    + destruct (step i r st) as [st2 [[]|e]] eqn:Hs; intros Hl Hnd Hb;
        destruct (step_files _ _ _ _ _ Hs Hnd Hb) as [Hnd2 Hb2].
      * eapply IH; eassumption.
      * injection Hl as <- <-. exact Hnd2.
Qed.

(** C9.  For every batch, whatever the ids of the recipes, the names of the
    blob files that [run] writes are pairwise distinct: each name starts
    with the index of the record in the batch. *)
Theorem run_blob_names_distinct (recipes : pyval) (sample : Z) :
  NoDup (names (run recipes sample).1).
Proof.
  unfold run. destruct (py_iter recipes) as [l|e]; [|apply NoDup_nil_2].
  destruct (loop sample l 0 {| files := []; count := 0; entries := [] |})
    as [st res] eqn:Hl.
  assert (Hnd : NoDup (names (files st))).
  { eapply loop_files; [exact Hl|apply NoDup_nil_2|constructor]. }
  destruct res as [[]|e]; [|exact Hnd].
  destruct (json_dump_to_file (index_of st)); exact Hnd.
Qed.

(** *** The index *)

(** The entries for the recipes [rs], which sit at the indices from [i]
    on. *)
Inductive entries_from : nat -> list pyval -> list pyval -> Prop :=
| entries_nil i : entries_from i [] []
| entries_cons i r rs e es :
    entry_for i r e -> entries_from (S i) rs es ->
    entries_from i (r :: rs) (e :: es).

(** How many of the recipes [rs], the first of them at index [i], the loop
    goes through. *)
Definition processed (sample : Z) (i : nat) (rs : list pyval) : nat :=
  if (sample =? 0)%Z then length rs
  else Nat.min (length rs) (Z.to_nat (sample - Z.of_nat i)).

Lemma entries_from_length i rs es :
  entries_from i rs es -> length es = length rs.
Proof. induction 1; simpl; congruence. Qed.

Lemma loop_entries sample rs : forall i st st1,
  loop sample rs i st = (st1, Ret ()) ->
  exists es,
    entries st1 = entries st ++ es
    /\ count st1 = (count st + Z.of_nat (length es))%Z
    /\ entries_from i (take (processed sample i rs) rs) es.
Proof.
  induction rs as [|r rs IH]; intros i st st1; simpl.
  - intros [= <-]. exists []. rewrite app_nil_r. simpl.
    split; [reflexivity|]. split; [lia|].
    unfold processed. destruct (sample =? 0)%Z; simpl; constructor.
  - unfold processed. simpl length.
    destruct (Z.eqb_spec sample 0) as [Hz|Hz]; simpl negb; cbn [andb].
    + destruct (step i r st) as [st2 [[]|e]] eqn:Hs; [|discriminate].
      intros Hl. apply IH in Hl as (es & He & Hc & Hfrom).
      apply step_spec in Hs
        as [(_ & _ & _ & e & He')|(safe & bo & _ & [(_ & _ & e & He')|(en & Hc2 & He2 & Hen & _)])];
        try discriminate.
      exists (en :: es). rewrite He, He2, Hc, Hc2, <- app_assoc. simpl length.
      split; [reflexivity|]. split; [lia|].
      simpl. constructor; [exact Hen|].
      unfold processed in Hfrom. rewrite Hz in Hfrom. simpl in Hfrom. exact Hfrom.
    + destruct (Z.leb_spec sample (Z.of_nat i)) as [Hle|Hgt].
      * intros [= <-]. exists []. rewrite app_nil_r. simpl length.
        split; [reflexivity|]. split; [lia|].
        replace (Z.to_nat (sample - Z.of_nat i)) with 0%nat by lia.
        rewrite Nat.min_0_r. simpl. constructor.
      * destruct (step i r st) as [st2 [[]|e]] eqn:Hs; [|discriminate].
        intros Hl. apply IH in Hl as (es & He & Hc & Hfrom).
        apply step_spec in Hs
          as [(_ & _ & _ & e & He')|(safe & bo & _ & [(_ & _ & e & He')|(en & Hc2 & He2 & Hen & _)])];
          try discriminate.
        exists (en :: es). rewrite He, He2, Hc, Hc2, <- app_assoc. simpl length.
        split; [reflexivity|]. split; [lia|].
        unfold processed in Hfrom.
        destruct (Z.eqb_spec sample 0) as [|_]; [contradiction|].
        replace (Z.to_nat (sample - Z.of_nat i))
          with (S (Z.to_nat (sample - Z.of_nat (S i)))) by lia.
        rewrite <- Nat.succ_min_distr. simpl. constructor; assumption.
Qed.

(** C10.  When [run] writes the index, its count equals the length of its
    list of entries, and the entries are, in order, those of the recipes the
    loop went through (all of them, or the first [sample]), one for each. *)
Theorem run_index_count_and_order (recipes : pyval) (sample : Z)
    (fs : list (pystr * pyval)) (idx : pyval) :
  run recipes sample = (fs, Ret idx) ->
  exists rs es,
    py_iter recipes = Ret rs
    /\ idx = PDict [ (lit "count", PInt (Z.of_nat (length es)));
                     (lit "entries", PList es) ]
    /\ length es = processed sample 0 rs
    /\ entries_from 0 (take (processed sample 0 rs) rs) es.
Proof.
  unfold run. destruct (py_iter recipes) as [rs|e]; [|discriminate].
  destruct (loop sample rs 0 {| files := []; count := 0; entries := [] |})
    as [st [[]|e]] eqn:Hl; [|discriminate].
  destruct (json_dump_to_file (index_of st)); [|discriminate].
  intros [= <- <-].
  apply loop_entries in Hl as (es & He & Hc & Hfrom). simpl in He, Hc.
  exists rs, es. split; [reflexivity|]. split.
  - unfold index_of. rewrite He, Hc. reflexivity.
  - split; [|exact Hfrom].
    rewrite (entries_from_length _ _ _ Hfrom), length_take.
    unfold processed. destruct (sample =? 0)%Z; lia.
Qed.


(** *** The names of the blob files are plain file names *)

(** A name that is safe to join to a directory: made of the characters
    [A-Za-z0-9._-] only, so without a path separator, and beginning with a
    digit, so neither [.] nor [..]. *)
Definition plain_file_name (n : pystr) : Prop :=
  all is_filename_safe n
  /\ exists d rest, n = d :: rest /\ is_ascii_digit d = true.

Lemma sanitize_safe s : all is_filename_safe (sanitize s).
Proof.
  unfold sanitize. induction s as [|c s IH]; simpl; constructor; [|exact IH].
  destruct (is_filename_safe c) eqn:E; [exact E|reflexivity].
Qed.

Lemma strip_char_all (P : N -> Prop) ch s :
  Forall P s -> Forall P (strip_char ch s).
Proof.
  intros H. unfold strip_char.
  destruct (ingest.lstrip_by_suffix (N.eqb ch) s) as (a & Ha).
  destruct (ingest.rstrip_by_prefix (N.eqb ch) (lstrip_by (N.eqb ch) s)) as (b & Hb).
  rewrite Ha, Hb in H. apply Forall_app in H as [_ H].
  apply Forall_app in H as [H _]. exact H.
Qed.

Lemma str_of_N_digits n :
  all is_ascii_digit (str_of_N n)
  /\ exists d rest, str_of_N n = d :: rest.
Proof.
  split; [apply uint_digits_ascii|]. unfold str_of_N.
  destruct (N.to_uint n) eqn:E;
    [exfalso; destruct n; [discriminate E|];
     exact (DecimalPos.Unsigned.to_uint_nonnil _ E)|..];
    simpl; eauto.
Qed.

Lemma digit_safe c : is_ascii_digit c = true -> is_filename_safe c = true.
Proof.
  intros H. unfold is_filename_safe. rewrite H.
  rewrite !orb_true_r. reflexivity.
Qed.

Lemma safe_name_safe i rid safe :
  safe_name i rid = Ret safe -> safe <> [] /\ all is_filename_safe safe.
Proof.
  unfold safe_name. intros H.
  destruct (py_str repr_other rid) as [s|]; [|discriminate H].
  cbn [mbind exc_bind] in H.
  destruct (truthy (PStr (strip_char 95 (sanitize s)))) eqn:Et;
    injection H as <-.
  - split; [intros E; rewrite E in Et; discriminate Et|].
    apply strip_char_all, sanitize_safe.
  - split.
    + intros E. discriminate E.
    + repeat (apply Forall_cons; split; [reflexivity|]).
      eapply Forall_impl; [apply str_of_N_digits|]. apply digit_safe.
Qed.

Lemma blob_name_plain i safe :
  all is_filename_safe safe -> plain_file_name (blob_name i safe).
Proof.
  intros Hs. unfold blob_name, plain_file_name.
  destruct (str_of_N_digits (N.of_nat i)) as [Hd (d & rest & E)]. split.
  - apply Forall_app. split.
    + eapply Forall_impl; [exact Hd|]. apply digit_safe.
    + constructor; [reflexivity|]. apply Forall_app. split; [exact Hs|].
      repeat constructor.
  - rewrite E. exists d, (rest ++ 95 :: safe ++ lit ".json").
    split; [reflexivity|]. rewrite E in Hd. apply Forall_cons in Hd as [Hd _].
    exact Hd.
Qed.

Lemma prepare_name i r name blob_obj entry :
  prepare i r = Ret (name, blob_obj, entry) -> plain_file_name name.
Proof.
  unfold prepare. intros H.
  destruct (recipe_id i r) as [rid|]; [|discriminate H].
  cbn [mbind exc_bind] in H.
  destruct (safe_name i rid) as [safe|] eqn:Es; [|discriminate H].
  cbn [mbind exc_bind] in H. bind_inv H. injection H as <- _ _.
  apply blob_name_plain. apply safe_name_safe in Es as [_ Es]. exact Es.
Qed.

Lemma step_names i r st st1 res :
  step i r st = (st1, res) ->
  Forall plain_file_name (names (files st)) ->
  Forall plain_file_name (names (files st1)).
Proof.
  unfold step. destruct (prepare i r) as [[[name blob_obj] entry]|e] eqn:Hp.
  - apply prepare_name in Hp.
    destruct (json_dump_to_file blob_obj) as [[]|e]; intros [= <- <-] H;
      cbn [files]; unfold names; rewrite map_app; apply Forall_app;
      (split; [exact H|simpl; constructor; [exact Hp|constructor]]).
  - intros [= <- <-] H. exact H.
Qed.

Lemma loop_names sample rs : forall i st st1 res,
  loop sample rs i st = (st1, res) ->
  Forall plain_file_name (names (files st)) ->
  Forall plain_file_name (names (files st1)).
Proof.
  induction rs as [|r rs IH]; intros i st st1 res; cbn [loop].
  - intros [= <- <-] H. exact H.
  - destruct (negb (sample =? 0)%Z && (sample <=? Z.of_nat i)%Z).
    + intros [= <- <-] H. exact H.
    + destruct (step i r st) as [st2 [[]|e]] eqn:Hs; intros Hl H;
        pose proof (step_names _ _ _ _ _ Hs H) as H2.
      * eapply IH; eassumption.
      * injection Hl as <- <-. exact H2.
Qed.

(** X19.  Whatever the ids of the recipes are, every blob file that [run]
    writes has a plain file name: it is made of the characters
    [A-Za-z0-9._-] only and begins with a digit, so it holds no path
    separator and is neither [.] nor [..]; the blob stays in the output
    directory. *)
Theorem run_blob_names_plain (recipes : pyval) (sample : Z) :
  Forall (fun n => plain_file_name n
                   /\ contains_char 47 n = false /\ contains_char 92 n = false)
         (names (run recipes sample).1).
Proof.
  assert (H : Forall plain_file_name (names (run recipes sample).1)).
  { unfold run. destruct (py_iter recipes) as [l|e]; [|constructor].
    destruct (loop sample l 0 {| files := []; count := 0; entries := [] |})
      as [st res] eqn:Hl.
    apply loop_names in Hl; [|constructor].
    destruct res as [[]|e]; [|exact Hl].
    destruct (json_dump_to_file (index_of st)); exact Hl. }
  eapply Forall_impl; [exact H|]. intros n Hn. split; [exact Hn|].
  destruct Hn as [Hn _].
  assert (Hno : forall ch, is_filename_safe ch = false -> contains_char ch n = false).
  { intros ch Hch. unfold contains_char.
    induction Hn as [|c n Hc _ IH]; [reflexivity|]. cbn [existsb].
    rewrite IH, orb_false_r. apply N.eqb_neq. intros ->. congruence. }
  split; apply Hno; reflexivity.
Qed.

(** *** The sample *)

Lemma loop_sample_all sample rs : forall i st,
  (Z.of_nat (i + length rs) <= sample)%Z ->
  loop sample rs i st = loop 0 rs i st.
Proof.
  induction rs as [|r rs IH]; intros i st Hle; [reflexivity|].
  cbn [loop]. cbn [length] in Hle.
  destruct (Z.eqb_spec sample 0) as [Hz|Hz]; [lia|].
  destruct (Z.leb_spec sample (Z.of_nat i)) as [H|H]; [lia|].
  cbn [negb andb Z.eqb].
  destruct (step i r st) as [st1 [[]|e]]; [|reflexivity].
  apply IH. lia.
Qed.

(** X20.  The bounds of [sample]: a negative sample processes nothing, no
    blob is written and the index has count 0 and no entry; a sample that
    is at least the number of recipes changes nothing, the run is the run
    without a sample. *)
Theorem run_sample_bounds (recipes : pyval) (l : list pyval) (sample : Z) :
  py_iter recipes = Ret l ->
  ((sample < 0)%Z ->
   run recipes sample
   = ([], Ret (PDict [ (lit "count", PInt 0); (lit "entries", PList []) ])))
  /\ ((Z.of_nat (length l) <= sample)%Z -> run recipes sample = run recipes 0).
Proof.
  intros Hit. split; intros Hs; unfold run; rewrite Hit.
  - assert (Hl : loop sample l 0 {| files := []; count := 0; entries := [] |}
                 = ({| files := []; count := 0; entries := [] |}, Ret ())).
    { destruct l as [|r l']; [reflexivity|]. cbn [loop].
      destruct (Z.eqb_spec sample 0) as [Hz|Hz]; [lia|].
      destruct (Z.leb_spec sample (Z.of_nat 0)) as [H|H]; [reflexivity|lia]. }
    rewrite Hl. reflexivity.
  - rewrite loop_sample_all by (simpl; lia). reflexivity.
Qed.


(** *** The text of a recipe that [ingest] normalized *)

Lemma ingredient_parts_parsed (strs : list pystr) : forall parsed,
  ingest.mapM ingest.parse_if_str (map PStr strs) = Ret parsed ->
  ingredient_parts parsed = Ret (map PStr strs)
  /\ length parsed = length strs.
Proof.
  induction strs as [|s strs IH]; intros parsed H.
  - injection H as <-. split; reflexivity.
  - cbn [map ingest.mapM ingest.parse_if_str] in H.
    destruct (ingest.parse_ingredient_returns s) as (ing & Hing & Hraw).
    rewrite Hing in H. cbn [fmap exc_fmap mbind exc_bind] in H.
    destruct (ingest.mapM ingest.parse_if_str (map PStr strs)) as [ps|] eqn:Em;
      [|discriminate H].
    cbn [mbind exc_bind] in H. injection H as <-.
    destruct (IH ps eq_refl) as [IH1 IH2].
    split; [|simpl; rewrite IH2; reflexivity].
    cbn [ingredient_parts]. unfold ingest.ingredient_value at 1.
    assert (Hp : py_or (dict_get [ (lit "raw", PStr (ingest.raw ing));
                                   (lit "quantity",
                                    match ingest.quantity ing with
                                    | Some f => PFloat f
                                    | None => PNone
                                    end);
                                   (lit "unit",
                                    match ingest.unit ing with
                                    | Some u => PStr u
                                    | None => PNone
                                    end);
                                   (lit "name", PStr (ingest.name ing)) ] (lit "raw"))
                       (dict_get_or [ (lit "raw", PStr (ingest.raw ing));
                                      (lit "quantity",
                                       match ingest.quantity ing with
                                       | Some f => PFloat f
                                       | None => PNone
                                       end);
                                      (lit "unit",
                                       match ingest.unit ing with
                                       | Some u => PStr u
                                       | None => PNone
                                       end);
                                      (lit "name", PStr (ingest.name ing)) ]
                          (lit "name") (PStr []))
                 = PStr s).
    { change (py_or (PStr (ingest.raw ing)) (PStr (ingest.name ing)) = PStr s).
      rewrite Hraw. unfold py_or. destruct s as [|c s']; [|reflexivity].
      cbn [truthy]. f_equal.
      (* the empty line: the pattern does not match, the name is empty *)
      assert (Hf : ingest.parse_ingredient [] = Ret (ingest.fallback []))
        by reflexivity.
      rewrite Hf in Hing. injection Hing as <-. reflexivity. }
    rewrite Hp. cbn [mbind exc_bind]. rewrite IH1. reflexivity.
Qed.

Lemma step_parts_strings (sts : list pystr) :
  step_parts (map PStr sts) = Ret (map PStr sts).
Proof.
  induction sts as [|s sts IH]; [reflexivity|].
  cbn [map step_parts py_str mbind exc_bind]. rewrite IH. reflexivity.
Qed.

(** X21.  The text that is compressed for a recipe that [ingest]
    normalized holds the ingredient lines as they were written, not the
    parsed fields.  For a record with a title, a list of ingredient lines
    and a list of steps (strings), and no nutrition, the text is the join
    with line feeds of 'TITLE: ' and the title, the INGREDIENTS header and
    the lines when there are any, the STEPS header and the steps when there
    are any. *)
Theorem text_of_normalized_recipe
    (d : list (pystr * pyval)) (nr : ingest.recipe)
    (t : pystr) (strs sts : list pystr) :
  ingest.normalize_recipe repr_other (PDict d) = Ret nr ->
  dict_get d (lit "title") = PStr t -> t <> [] ->
  dict_get d (lit "ingredients") = PList (map PStr strs) ->
  dict_get d (lit "steps") = PList (map PStr sts) ->
  truthy (dict_get d (lit "nutrition")) = false ->
  build_text_for_recipe (ingest.recipe_value nr)
  = py_join [10]
      ([PStr (lit "TITLE: " ++ t)]
       ++ (if strs is [] then []
           else PStr (10 :: lit "INGREDIENTS:" ++ [10]) :: map PStr strs)
       ++ (if sts is [] then []
           else PStr (10 :: lit "STEPS:" ++ [10]) :: map PStr sts)).
Proof.
  intros H Ht Ht0 Hi Hs Hn. unfold ingest.normalize_recipe in H.
  cbn [py_get mbind exc_bind] in H.
  match type of H with mbind _ ?m = _ => destruct m as [rid|] eqn:Erid end;
    [|discriminate H].
  cbn [mbind exc_bind] in H. rewrite Hi in H.
  assert (Hit : py_iter (py_or (PList (map PStr strs)) (PList []))
                = Ret (map PStr strs)).
  { unfold py_or. destruct strs; reflexivity. }
  rewrite Hit in H. cbn [mbind exc_bind] in H. fold ingest.parse_if_str in H.
  destruct (ingest.mapM ingest.parse_if_str (map PStr strs)) as [parsed|] eqn:Em;
    [|discriminate H].
  cbn [mbind exc_bind] in H.
  destruct (py_str repr_other rid) as [id_str|]; [|discriminate H].
  cbn [mbind exc_bind] in H. injection H as <-.
  destruct (ingredient_parts_parsed strs parsed Em) as [Hparts Hlen].
  unfold build_text_for_recipe, ingest.recipe_value.
  cbn [py_get_or py_get ingest.id ingest.title ingest.ingredients ingest.steps
       ingest.nutrition ingest.source_url].
  set (d' := [ (lit "id", PStr id_str); _; _; _; _; _ ]).
  assert (L1 : dict_get_or d' (lit "title") (PStr []) = PStr t).
  { change (py_or (dict_get d (lit "title")) (PStr (lit "Untitled")) = PStr t).
    rewrite Ht. unfold py_or. destruct t; [contradiction|reflexivity]. }
  assert (L2 : dict_get_or d' (lit "ingredients") (PList []) = PList parsed)
    by reflexivity.
  assert (L3 : dict_get_or d' (lit "steps") (PList []) = PList (map PStr sts)).
  { change (py_or (dict_get d (lit "steps")) (PList []) = PList (map PStr sts)).
    rewrite Hs. unfold py_or. destruct sts; reflexivity. }
  assert (L4 : dict_get d' (lit "nutrition") = PDict []).
  { change (py_or (dict_get d (lit "nutrition")) (PDict []) = PDict []).
    unfold py_or. rewrite Hn. reflexivity. }
  rewrite L1, L2, L3, L4. clear L1 L2 L3 L4.
  cbn [mbind exc_bind py_str].
  assert (Htp : truthy (PList parsed) = match strs with [] => false | _ => true end).
  { destruct parsed, strs; try reflexivity; discriminate Hlen. }
  rewrite Htp.
  assert (Hts : truthy (PList (map PStr sts))
                = match sts with [] => false | _ => true end)
    by (destruct sts; reflexivity).
  rewrite Hts. pose proof (step_parts_strings sts) as Hstep.
  remember (map PStr sts) as S eqn:ES. remember (map PStr strs) as I eqn:EI.
  clear ES EI Hts Htp Hit Em Hi Hs.
  destruct strs as [|s0 strs'], sts as [|t0 sts'];
    cbn [py_iter mbind exc_bind]; rewrite ?Hparts, ?Hstep;
    cbn [mbind exc_bind app]; rewrite ?app_nil_r; reflexivity.
Qed.


(** *** The entries of an index written with the local backend *)

Lemma py_join_head sep s rest t :
  py_join sep (PStr s :: rest) = Ret t -> (length s <= length t)%nat.
Proof.
  cbn [py_join]. destruct rest as [|x rest'].
  - intros [= <-]. lia.
  - destruct (py_join sep (x :: rest')) as [r|]; [|discriminate].
    cbn [mbind exc_bind]. intros [= <-]. rewrite length_app. lia.
Qed.

(** The text of a recipe begins with its title line. *)
Lemma build_text_length r text :
  build_text_for_recipe r = Ret text -> (7 <= length text)%nat.
Proof.
  unfold build_text_for_recipe. intros H.
  destruct (py_get_or r (lit "title") (PStr [])) as [title|]; [|discriminate H].
  cbn [mbind exc_bind] in H.
  destruct (py_str repr_other title) as [title_s|]; [|discriminate H].
  cbn [mbind exc_bind] in H. cbv zeta in H.
  set (h := PStr (lit "TITLE: " ++ title_s)) in H.
  destruct (py_get_or r (lit "ingredients") (PList [])) as [ings|];
    [|discriminate H].
  cbn [mbind exc_bind] in H.
  match type of H with mbind _ ?m = _ => destruct m as [parts1|] eqn:E1 end;
    [|discriminate H].
  cbn [mbind exc_bind] in H.
  assert (H1 : exists tl, parts1 = h :: tl).
  { destruct (truthy ings); [|injection E1 as <-; eauto].
    destruct (py_iter ings) as [l|]; [|discriminate E1].
    cbn [mbind exc_bind] in E1.
    destruct (ingredient_parts l) as [ps|]; [|discriminate E1].
    cbn [mbind exc_bind] in E1. injection E1 as <-. eauto. }
  destruct H1 as [tl1 ->].
  destruct (py_get_or r (lit "steps") (PList [])) as [steps|]; [|discriminate H].
  cbn [mbind exc_bind] in H.
  match type of H with mbind _ ?m = _ => destruct m as [parts2|] eqn:E2 end;
    [|discriminate H].
  cbn [mbind exc_bind] in H.
  assert (H2 : exists tl, parts2 = h :: tl).
  { destruct (truthy steps); [|injection E2 as <-; eauto].
    destruct (py_iter steps) as [l|]; [|discriminate E2].
    cbn [mbind exc_bind] in E2.
    destruct (step_parts l) as [ps|]; [|discriminate E2].
    cbn [mbind exc_bind] in E2. injection E2 as <-. eauto. }
  destruct H2 as [tl2 ->].
  destruct (py_get r (lit "nutrition")) as [nutrition|]; [|discriminate H].
  cbn [mbind exc_bind] in H.
  match type of H with mbind _ ?m = _ => destruct m as [parts3|] eqn:E3 end;
    [|discriminate H].
  cbn [mbind exc_bind] in H.
  assert (H3 : exists tl, parts3 = h :: tl).
  { destruct (truthy nutrition); [|injection E3 as <-; eauto].
    destruct (json_dumps nutrition) as [n|]; [|discriminate E3].
    cbn [mbind exc_bind] in E3. injection E3 as <-. eauto. }
  destruct H3 as [tl3 ->]. unfold h in H. apply py_join_head in H.
  rewrite length_app in H. simpl in H. lia.
Qed.

(** The sizes in an entry of the index are those of a text that is not
    empty. *)
Definition measured_entry (e : pyval) : Prop :=
  exists olen clen,
    field e "method" = Some (PStr (lit "simulated"))
    /\ field e "orig_len" = Some (PInt olen)
    /\ field e "compressed_len" = Some (PInt clen)
    /\ (7 <= olen)%Z /\ (0 <= clen)%Z.

Lemma prepare_measured i r name blob_obj entry :
  remote = None ->
  prepare i r = Ret (name, blob_obj, entry) -> measured_entry entry.
Proof.
  intros Hrem. unfold prepare, compress_text. rewrite Hrem. intros H.
  destruct (recipe_id i r) as [rid|]; [|discriminate H].
  cbn [mbind exc_bind] in H.
  destruct (safe_name i rid) as [safe|]; [|discriminate H].
  cbn [mbind exc_bind] in H.
  destruct (build_text_for_recipe r) as [text|] eqn:Et; [|discriminate H].
  cbn [mbind exc_bind] in H. apply build_text_length in Et.
  unfold _simulate_compress in H.
  destruct (utf8_encode text) as [b|] eqn:Eb; [|discriminate H].
  cbn [mbind exc_bind] in H. apply utf8_encode_length in Eb.
  destruct (ascii_decode (b64encode (zlib_compress b))) as [b64|];
    [|discriminate H].
  cbn [mbind exc_bind py_get] in H. injection H as _ _ <-.
  exists (Z.of_nat (length b)), (Z.of_nat (length (zlib_compress b))).
  split; [reflexivity|]. split; [reflexivity|]. split; [reflexivity|]. lia.
Qed.

Lemma loop_measured sample rs : forall i st st1 res,
  remote = None ->
  loop sample rs i st = (st1, res) ->
  Forall measured_entry (entries st) -> Forall measured_entry (entries st1).
Proof.
  induction rs as [|r rs IH]; intros i st st1 res Hrem; cbn [loop].
  - intros [= <- <-] H. exact H.
  - destruct (negb (sample =? 0)%Z && (sample <=? Z.of_nat i)%Z).
    + intros [= <- <-] H. exact H.
    + unfold step.
      destruct (prepare i r) as [[[name blob_obj] entry]|e] eqn:Hp.
      * apply (prepare_measured _ _ _ _ _ Hrem) in Hp.
        destruct (json_dump_to_file blob_obj) as [[]|e].
        -- intros Hl H. eapply (IH _ _ _ _ Hrem Hl). cbn [entries].
           apply Forall_app. split; [exact H|repeat constructor; exact Hp].
        -- intros [= <- <-] H. exact H.
      * intros [= <- <-] H. exact H.
Qed.

(** X27.  With the local backend every entry of the index that [run]
    writes carries the method 'simulated' and both sizes, and its
    [orig_len] is at least 7, the text of a recipe beginning with 'TITLE: ':
    no entry of such an index has the [orig_len] of zero that the
    statistics leave out. *)
Theorem run_entries_measured (recipes : pyval) (sample : Z)
    (fs : list (pystr * pyval)) (idx : pyval) :
  remote = None ->
  run recipes sample = (fs, Ret idx) ->
  exists es,
    idx = PDict [ (lit "count", PInt (Z.of_nat (length es)));
                  (lit "entries", PList es) ]
    /\ Forall measured_entry es.
Proof.
  intros Hrem H. unfold run in H.
  destruct (py_iter recipes) as [rs|]; [|discriminate H].
  destruct (loop sample rs 0 {| files := []; count := 0; entries := [] |})
    as [st [[]|e]] eqn:Hl; [|discriminate H].
  destruct (json_dump_to_file (index_of st)); [|discriminate H].
  injection H as _ <-.
  pose proof (loop_measured _ _ _ _ _ _ Hrem Hl (Forall_nil_2 _)) as Hm.
  apply loop_entries in Hl as (es & He & Hc & _). cbn [entries count] in He, Hc.
  cbn [app] in He. exists (entries st). unfold index_of.
  rewrite Hc, He. split; [repeat f_equal; lia|]. rewrite <- He. exact Hm.
Qed.

End Builder.

(** A batch of two recipes whose ids are the same once sanitized. *)
Definition two_teas : pyval :=
  PList [ PDict [ (lit "id", PStr (lit "tea/1")); (lit "title", PStr (lit "Tea")) ];
          PDict [ (lit "id", PStr (lit "tea 1")); (lit "title", PStr (lit "Tea")) ] ].

Lemma run_index_count_and_order_witness :
  exists fs idx rs es,
    run stored_compress None (fun _ => Raise TypeError) (fun _ => Raise TypeError)
        two_teas 0 = (fs, Ret idx)
    /\ names fs = [lit "0_tea_1.json"; lit "1_tea_1.json"]
    /\ py_iter two_teas = Ret rs
    /\ idx = PDict [ (lit "count", PInt (Z.of_nat (length es)));
                     (lit "entries", PList es) ]
    /\ length es = 2%nat.
Proof.
  pose (r := run stored_compress None (fun _ => Raise TypeError)
                 (fun _ => Raise TypeError) two_teas 0).
  assert (Hr : exists fs idx, r = (fs, Ret idx)
                 /\ names fs = [lit "0_tea_1.json"; lit "1_tea_1.json"]).
  { vm_compute. eexists _, _. split; reflexivity. }
  destruct Hr as (fs & idx & Hr & Hn).
  destruct (run_index_count_and_order stored_compress None
              (fun _ => Raise TypeError) (fun _ => Raise TypeError)
              two_teas 0 fs idx Hr) as (rs & es & Hi & Hidx & Hlen & _).
  exists fs, idx, rs, es. repeat split; try assumption.
  rewrite Hlen. injection Hi as <-. reflexivity.
Defined.


Lemma run_sample_bounds_witness :
  run stored_compress None (fun _ => Raise TypeError) (fun _ => Raise TypeError)
      two_teas (-1)
  = ([], Ret (PDict [ (lit "count", PInt 0); (lit "entries", PList []) ]))
  /\ run stored_compress None (fun _ => Raise TypeError) (fun _ => Raise TypeError)
         two_teas 2
     = run stored_compress None (fun _ => Raise TypeError) (fun _ => Raise TypeError)
           two_teas 0.
Proof.
  split.
  - eapply (run_sample_bounds stored_compress None (fun _ => Raise TypeError)
              (fun _ => Raise TypeError) two_teas _ (-1)); [reflexivity|lia].
  - eapply (run_sample_bounds stored_compress None (fun _ => Raise TypeError)
              (fun _ => Raise TypeError) two_teas _ 2); [reflexivity|simpl; lia].
Defined.

(** A record as it is found in a file of recipes. *)
Definition pancakes : list (pystr * pyval) :=
  [ (lit "id", PInt 7); (lit "title", PStr (lit "Pancakes"));
    (lit "ingredients", PList [PStr (lit "2 eggs"); PStr (lit "1 cup flour")]);
    (lit "steps", PList [PStr (lit "Mix"); PStr (lit "Fry")]) ].

Lemma text_of_normalized_recipe_witness :
  exists nr,
    ingest.normalize_recipe ingest.no_text (PDict pancakes) = Ret nr
    /\ build_text_for_recipe ingest.no_text ingest.no_text (ingest.recipe_value nr)
       = Ret (lit "TITLE: Pancakes" ++ 10 :: 10 :: lit "INGREDIENTS:" ++ 10 :: 10
              :: lit "2 eggs" ++ 10 :: lit "1 cup flour" ++ 10 :: 10
              :: lit "STEPS:" ++ 10 :: 10 :: lit "Mix" ++ 10 :: lit "Fry").
Proof.
  destruct (ingest.normalize_recipe ingest.no_text (PDict pancakes)) as [nr|] eqn:E;
    [|vm_compute in E; discriminate E].
  exists nr. split; [reflexivity|].
  rewrite (text_of_normalized_recipe ingest.no_text ingest.no_text pancakes nr
             (lit "Pancakes") [lit "2 eggs"; lit "1 cup flour"]
             [lit "Mix"; lit "Fry"] E);
    try reflexivity.
  discriminate.
Defined.


Lemma run_entries_measured_witness :
  exists fs es,
    run stored_compress None (fun _ => Raise TypeError) (fun _ => Raise TypeError)
        two_teas 0
    = (fs, Ret (PDict [ (lit "count", PInt (Z.of_nat (length es)));
                        (lit "entries", PList es) ]))
    /\ Forall measured_entry es.
Proof.
  destruct (run stored_compress None (fun _ => Raise TypeError)
              (fun _ => Raise TypeError) two_teas 0) as [fs [idx|e]] eqn:E;
    [|vm_compute in E; discriminate E].
  destruct (run_entries_measured stored_compress None (fun _ => Raise TypeError)
              (fun _ => Raise TypeError) two_teas 0 fs idx eq_refl E)
    as (es & -> & Hm).
  exists fs, es. split; [reflexivity|exact Hm].
Defined.

End compress_recipes.

(** ** scripts/compress_stats.py and the /compress-status handlers *)

Module compress_stats.

(** One entry of the index, with the two fields the statistics read.
    [None] stands for a key that is missing or holds [null]. *)
Record entry := {
  orig_len : option Z;
  compressed_len : option Z
}.

(** [e.get(k) or 0] for an integer-or-null field. *)
Definition or0 (x : option Z) : Z :=
  match x with
  | Some z => if (z =? 0)%Z then 0%Z else z
  | None => 0%Z
  end.

(** The filter [if e.get('orig_len')]: truthiness of the field. *)
Definition has_orig_len (e : entry) : bool :=
  match orig_len e with
  | Some z => negb (z =? 0)%Z
  | None => false
  end.

Definition saving (e : entry) : Z :=
  (or0 (orig_len e) - or0 (compressed_len e))%Z.

Definition sum (l : list Z) : Z := foldl Z.add 0%Z l.

(** compress_stats.py:
    [bytes_saved=sum((e.get('orig_len') or 0)-(e.get('compressed_len') or 0)
                     for e in entries if e.get('orig_len'))] *)
Definition bytes_saved (entries : list entry) : Z :=
  sum (map saving (filter (fun e => has_orig_len e = true) entries)).

(** main.py, [compress_status]: the same generator expression. *)
Definition saved_total (all_entries : list entry) : Z :=
  sum (map saving (filter (fun e => has_orig_len e = true) all_entries)).

(** The total in the words of the specification: the sum of
    [orig_len - compressed_len] over the entries whose [orig_len] is present.
    (A missing [compressed_len] is read as 0, as the code does.) *)
Definition spec_saving (e : entry) : option Z :=
  match orig_len e with
  | Some o => Some (o - default 0%Z (compressed_len e))%Z
  | None => None
  end.

Fixpoint spec_bytes_saved (entries : list entry) : Z :=
  match entries with
  | [] => 0%Z
  | e :: rest =>
      match spec_saving e with
      | Some s => (s + spec_bytes_saved rest)%Z
      | None => spec_bytes_saved rest
      end
  end.

(** What the code counts: the entry is measured when [orig_len] is present
    and not zero. *)
Definition measured_saving (e : entry) : option Z :=
  match orig_len e with
  | Some o =>
      if (o =? 0)%Z then None
      else Some (o - default 0%Z (compressed_len e))%Z
  | None => None
  end.

Fixpoint measured_total (entries : list entry) : Z :=
  match entries with
  | [] => 0%Z
  | e :: rest =>
      match measured_saving e with
      | Some s => (s + measured_total rest)%Z
      | None => measured_total rest
      end
  end.

(** The synthetic index of the specification. *)
Definition synthetic_index : list entry :=
  [ {| orig_len := Some 100%Z; compressed_len := Some 40%Z |};
    {| orig_len := Some 50%Z; compressed_len := Some 60%Z |};
    {| orig_len := None; compressed_len := Some 10%Z |} ].

(** An entry for an empty text: nothing to compress, eight bytes of
    container. *)
Definition empty_text_index : list entry :=
  [ {| orig_len := Some 0%Z; compressed_len := Some 8%Z |} ].

Lemma foldl_add_shift (l : list Z) (a b : Z) :
  foldl Z.add (a + b)%Z l = (a + foldl Z.add b l)%Z.
Proof.
  revert b. induction l as [|x l IH]; intros b; simpl.
  - reflexivity.
  - rewrite <- Z.add_assoc. apply IH.
Qed.

Lemma sum_cons (x : Z) (l : list Z) : sum (x :: l) = (x + sum l)%Z.
Proof.
  unfold sum. simpl. rewrite <- (foldl_add_shift l x 0). f_equal. lia.
Qed.

Lemma or0_default (x : option Z) : or0 x = default 0%Z x.
Proof.
  destruct x as [z|]; simpl; [|reflexivity].
  destruct (Z.eqb_spec z 0); congruence.
Qed.

Lemma bytes_saved_cons (e : entry) (rest : list entry) :
  bytes_saved (e :: rest) =
  match measured_saving e with
  | Some s => (s + bytes_saved rest)%Z
  | None => bytes_saved rest
  end.
Proof.
  unfold bytes_saved, measured_saving.
  destruct (has_orig_len e) eqn:Hh.
  - rewrite filter_cons_True by exact Hh.
    rewrite map_cons, sum_cons. unfold saving, has_orig_len in *.
    destruct (orig_len e) as [o|]; [|discriminate].
    rewrite !or0_default. simpl.
    destruct (Z.eqb_spec o 0); [discriminate|reflexivity].
  - rewrite filter_cons_False by (rewrite Hh; discriminate).
    unfold has_orig_len in Hh.
    destruct (orig_len e) as [o|]; [|reflexivity].
    destruct (Z.eqb_spec o 0); [reflexivity|discriminate].
Qed.

(** C8 (as amended).  For every index, the total byte savings computed by
    the statistics script and by the /compress-status handler is the sum of
    [orig_len - compressed_len] over exactly the entries whose [orig_len] is
    present and non-zero, negative savings included as they are; on the
    synthetic index of the specification the total is 50. *)
Theorem bytes_saved_measured_total (entries : list entry) :
  bytes_saved entries = measured_total entries
  /\ saved_total entries = measured_total entries
  /\ bytes_saved synthetic_index = 50%Z.
Proof.
  assert (H : bytes_saved entries = measured_total entries).
  { induction entries as [|e rest IH].
    - reflexivity.
    - rewrite bytes_saved_cons. simpl. rewrite IH. reflexivity. }
  split; [exact H|]. split; [exact H|]. reflexivity.
Qed.

(** C8 (as stated) fails on an entry whose [orig_len] is present and zero:
    the specification's sum counts its saving of -8, the code leaves it
    out. *)
Lemma bytes_saved_skips_zero_orig_len :
  spec_bytes_saved empty_text_index = (-8)%Z
  /\ bytes_saved empty_text_index = 0%Z
  /\ bytes_saved empty_text_index <> spec_bytes_saved empty_text_index.
Proof.
  split; [reflexivity|]. split; [reflexivity|]. discriminate.
Qed.

End compress_stats.

(** ** backend/app/main.py: the handlers that read the recipe files *)

Module main.

(** What a handler does: it returns a value, raises [HTTPException] with a
    status and a detail, or fails with another exception (which the server
    answers with status 500). *)
Inductive res (A : Type) :=
| Ok (a : A)
| Http (status : Z) (detail : string)
| Fail (e : pyexn).
Arguments Ok {A} a.
Arguments Http {A} status detail.
Arguments Fail {A} e.

#[export] Instance res_ret : MRet res := fun A a => Ok a.
#[export] Instance res_bind : MBind res := fun A B f m =>
  match m with
  | Ok a => f a
  | Http st d => Http st d
  | Fail e => Fail e
  end.

Definition lift {A} (m : exc A) : res A :=
  match m with
  | Ret a => Ok a
  | Raise e => Fail e
  end.

(** [[x for x in l if p(x)]] for a test that can raise *)
Fixpoint filterM {A} (p : A -> exc bool) (l : list A) : exc (list A) :=
  match l with
  | [] => Ret []
  | x :: rest =>
      b ← p x;
      ys ← filterM p rest;
      Ret (if b : bool then x :: ys else ys)
  end.

Section App.

(** [str] of a float, a list or a dictionary; [str.lower]. *)
Variable repr_other : pyval -> exc pystr.
Variable str_lower : pystr -> pystr.

(** What [load_recipes] returns: the content of the recipe file, the
    empty list when there is none.  The file is taken not to change while a
    request is served. *)
Variable recipes : pyval.

(** The loop of [get_recipe_by_id] over the recipes from [l] on. *)
Fixpoint find_recipe (rid : pystr) (l : list pyval) : exc (option pyval) :=
  match l with
  | [] => Ret None
  | r :: rest =>
      i ← py_get r (lit "id");
      s ← py_str repr_other i;
      if pystr_eqb s rid then Ret (Some r) else find_recipe rid rest
  end.

Definition get_recipe_by_id (rid : pystr) : exc (option pyval) :=
  l ← py_iter recipes;
  find_recipe rid l.



(** *** /mealplan *)

Record MealPlanRequest := {
  days : Z;
  calorie_target : option Z;
  dietary_restrictions : option (list pystr)
}.

(** The name that [allowed] takes from one ingredient, in lower case. *)
Definition ingredient_name (i : pyval) : exc pystr :=
  match i with
  | PDict d =>
      match py_or (dict_get d (lit "name")) (PStr []) with
      | PStr s => Ret (str_lower s)
      | _ => Raise AttributeError
      end
  | _ => s ← py_str repr_other i; Ret (str_lower s)
  end.

Definition allowed (req : MealPlanRequest) (r : pyval) : exc bool :=
  match dietary_restrictions req with
  | None | Some [] => Ret true
  | Some restrictions =>
      ings ← py_get_or r (lit "ingredients") (PList []);
      l ← py_iter ings;
      names ← ingest.mapM ingredient_name l;
      Ret (negb (existsb
                   (fun dr => existsb (fun n => contains (str_lower dr) n) names)
                   restrictions))
  end.

(** The entry of the plan for the day with index [d]. *)
Definition plan_entry (pool : list pyval) (d : nat) : exc pyval :=
  let meal := default PNone (pool !! (d mod length pool)%nat) in
  i ← py_get meal (lit "id");
  t ← py_get meal (lit "title");
  Ret (PDict [ (lit "day", PInt (Z.of_nat d + 1));
               (lit "recipe_id", i); (lit "title", t) ]).

Definition mealplan (req : MealPlanRequest) : res pyval :=
  if negb (truthy recipes) then Http 500 "no recipes available"
  else
    l ← lift (py_iter recipes);
    pool ← lift (filterM (allowed req) l);
    match pool with
    | [] => Http 400 "no recipes match dietary restrictions"
    | _ =>
        let n := Z.max 1 (Z.min 14 (days req)) in
        plan ← lift (ingest.mapM (plan_entry pool) (seq 0 (Z.to_nat n)));
        Ok (PDict [ (lit "days", PInt n); (lit "plan", PList plan) ])
    end.


(** *** A recipe and its compression entry *)





(** *** The meal plan *)

Lemma filterM_spec {A} (p : A -> exc bool) l : forall pool,
  filterM p l = Ret pool ->
  Forall (fun x => p x = Ret true /\ x ∈ l) pool.
Proof.
  induction l as [|x l IH]; intros pool H.
  - injection H as <-. constructor.
  - cbn [filterM] in H. destruct (p x) as [b|] eqn:Ex; [|discriminate H].
    cbn [mbind exc_bind] in H.
    destruct (filterM p l) as [ys|]; [|discriminate H].
    cbn [mbind exc_bind] in H. injection H as <-.
    assert (Hys : Forall (fun y => p y = Ret true /\ y ∈ x :: l) ys).
    { eapply Forall_impl; [apply IH; reflexivity|].
      intros y [Hy Hin]. split; [exact Hy|]. apply list_elem_of_further, Hin. }
    destruct b; [|exact Hys].
    constructor; [|exact Hys]. split; [exact Ex|apply list_elem_of_here].
Qed.

Lemma mapM_lookup {A B} (f : A -> exc B) l : forall out,
  ingest.mapM f l = Ret out ->
  length out = length l
  /\ forall k x, l !! k = Some x -> exists y, out !! k = Some y /\ f x = Ret y.
Proof.
  induction l as [|a l IH]; intros out H.
  - injection H as <-. split; [reflexivity|]. intros k x Hk. discriminate Hk.
  - cbn [ingest.mapM] in H. destruct (f a) as [b|] eqn:Ea; [|discriminate H].
    cbn [mbind exc_bind] in H.
    destruct (ingest.mapM f l) as [ys|]; [|discriminate H].
    cbn [mbind exc_bind] in H. injection H as <-.
    destruct (IH ys eq_refl) as [Hlen Hk]. split; [simpl; rewrite Hlen; reflexivity|].
    intros [|k] x Hx.
    + injection Hx as <-. exists b. split; [reflexivity|exact Ea].
    + apply (Hk k x Hx).
Qed.

(** X23.  When [mealplan] answers, the number of days is the number asked
    for brought into the range from 1 to 14, the plan has one entry for each
    day, numbered from 1, and the recipes are taken in turn from those that
    [allowed] accepts, starting again from the first when they run out. *)
Theorem mealplan_plan (req : MealPlanRequest) (out : pyval) :
  mealplan req = Ok out ->
  exists l pool plan n,
    py_iter recipes = Ret l /\ filterM (allowed req) l = Ret pool
    /\ pool <> []
    /\ out = PDict [ (lit "days", PInt n); (lit "plan", PList plan) ]
    /\ n = Z.max 1 (Z.min 14 (days req)) /\ (1 <= n <= 14)%Z
    /\ length plan = Z.to_nat n
    /\ forall k, (k < Z.to_nat n)%nat ->
         exists meal i t,
           pool !! (k mod length pool)%nat = Some meal
           /\ meal ∈ l /\ allowed req meal = Ret true
           /\ py_get meal (lit "id") = Ret i
           /\ py_get meal (lit "title") = Ret t
           /\ plan !! k = Some (PDict [ (lit "day", PInt (Z.of_nat k + 1));
                                        (lit "recipe_id", i); (lit "title", t) ]).
Proof.
  unfold mealplan. intros H.
  destruct (truthy recipes); [|discriminate H]. cbn [negb] in H.
  destruct (py_iter recipes) as [l|]; [|discriminate H].
  cbn [lift mbind res_bind] in H.
  destruct (filterM (allowed req) l) as [pool|] eqn:Ep; [|discriminate H].
  cbn [lift mbind res_bind] in H.
  destruct pool as [|m0 pool']; [discriminate H|].
  set (pool := m0 :: pool') in *. cbv zeta in H.
  set (n := Z.max 1 (Z.min 14 (days req))) in *.
  destruct (ingest.mapM (plan_entry pool) (seq 0 (Z.to_nat n))) as [plan|] eqn:Em;
    [|discriminate H].
  cbn [lift mbind res_bind] in H. injection H as <-.
  exists l, pool, plan, n.
  destruct (mapM_lookup _ _ _ Em) as [Hlen Hk]. rewrite length_seq in Hlen.
  split; [reflexivity|]. split; [exact Ep|]. split; [discriminate|].
  split; [reflexivity|]. split; [reflexivity|]. split; [unfold n; lia|].
  split; [lia|]. intros k Hlt.
  destruct (Hk k k) as (y & Hy & Hpe); [apply lookup_seq; lia|].
  assert (Hpos : (k mod length pool < length pool)%nat)
    by (apply Nat.mod_upper_bound; discriminate).
  destruct (lookup_lt_is_Some_2 pool _ Hpos) as [meal Hmeal].
  unfold plan_entry in Hpe. cbv zeta in Hpe. rewrite Hmeal in Hpe.
  change (default PNone (Some meal)) with meal in Hpe.
  destruct (py_get meal (lit "id")) as [i|] eqn:Ei;
    cbn [mbind exc_bind] in Hpe; [|discriminate Hpe].
  destruct (py_get meal (lit "title")) as [t|] eqn:Et;
    cbn [mbind exc_bind] in Hpe; [|discriminate Hpe].
  injection Hpe as <-.
  pose proof (filterM_spec _ _ _ Ep) as Hall. rewrite Forall_forall in Hall.
  destruct (Hall meal) as [Ha Hin]; [eapply list_elem_of_lookup_2; exact Hmeal|].
  exists meal, i, t. auto 10.
Qed.

(** The names of the ingredients of [r] that are records with a text as
    their name. *)
Definition named (r : pyval) (nm : pystr) : Prop :=
  exists ings l d,
    py_get_or r (lit "ingredients") (PList []) = Ret ings
    /\ py_iter ings = Ret l /\ PDict d ∈ l
    /\ dict_get d (lit "name") = PStr nm /\ nm <> [].

Lemma mapM_elem {A B} (f : A -> exc B) l out x :
  ingest.mapM f l = Ret out -> x ∈ l -> exists y, f x = Ret y /\ y ∈ out.
Proof.
  intros H Hx. apply list_elem_of_lookup_1 in Hx as [k Hk].
  destruct (mapM_lookup f l out H) as [_ Hl].
  destruct (Hl k x Hk) as (y & Hy & Hf). exists y. split; [exact Hf|].
  eapply list_elem_of_lookup_2. exact Hy.
Qed.

(** X24.  A recipe that [allowed] accepts under a list of restrictions has
    no named ingredient whose name, in lower case, holds one of the
    restrictions, in lower case; so no such recipe is ever put on a
    plan. *)
Theorem allowed_respects_restrictions
    (req : MealPlanRequest) (r : pyval) (dr nm : pystr) (drs : list pystr) :
  dietary_restrictions req = Some drs -> dr ∈ drs ->
  allowed req r = Ret true -> named r nm ->
  contains (str_lower dr) (str_lower nm) = false.
Proof.
  intros Hreq Hdr Ha (ings & l & d & Hi & Hl & Hin & Hnm & Hne).
  unfold allowed in Ha. rewrite Hreq in Ha.
  destruct drs as [|d0 drs']; [inversion Hdr|].
  rewrite Hi in Ha. cbn [mbind exc_bind] in Ha. rewrite Hl in Ha.
  cbn [mbind exc_bind] in Ha.
  destruct (ingest.mapM ingredient_name l) as [names|] eqn:Em; [|discriminate Ha].
  cbn [mbind exc_bind] in Ha.
  assert (Hb : existsb
                 (fun dr => existsb (fun n => contains (str_lower dr) n) names)
                 (d0 :: drs') = false).
  { destruct (existsb _ (d0 :: drs')); [discriminate Ha|reflexivity]. }
  clear Ha.
  destruct (mapM_elem _ _ _ _ Em Hin) as (y & Hy & Hyin).
  cbn [ingredient_name] in Hy. rewrite Hnm in Hy.
  assert (Hor : py_or (PStr nm) (PStr []) = PStr nm)
    by (unfold py_or; destruct nm; [contradiction|reflexivity]).
  rewrite Hor in Hy. injection Hy as <-.
  destruct (contains (str_lower dr) (str_lower nm)) eqn:Ec; [|reflexivity].
  exfalso. apply not_true_iff_false in Hb. apply Hb.
  apply existsb_exists. exists dr. split; [apply list_elem_of_In, Hdr|].
  apply existsb_exists. exists (str_lower nm).
  split; [apply list_elem_of_In, Hyin|exact Ec].
Qed.


(** *** /search *)

(** The loop over the ingredients: [true] as soon as one of them holds the
    query. *)
Fixpoint ingredient_hit (ql : pystr) (ings : list pyval) : exc bool :=
  match ings with
  | [] => Ret false
  | ing :: rest =>
      match ing with
      | PStr s =>
          if contains ql (str_lower s) then Ret true else ingredient_hit ql rest
      | PDict d =>
          s ← py_str repr_other
                (py_or (dict_get d (lit "name"))
                   (py_or (dict_get d (lit "raw")) (PStr [])));
          if contains ql (str_lower s) then Ret true else ingredient_hit ql rest
      | _ => ingredient_hit ql rest
      end
  end.

Definition step_hit (ql : pystr) (steps : list pyval) : bool :=
  existsb (fun s => match s with
                    | PStr t => contains ql (str_lower t)
                    | _ => false
                    end) steps.

(** The inner function [matches] of [search], for the query [ql] in lower
    case. *)
Definition matches (ql : pystr) (r : pyval) : exc bool :=
  t0 ← py_get r (lit "title");
  match py_or t0 (PStr []) with
  | PStr title =>
      if contains ql (str_lower title) then Ret true
      else
        ings0 ← py_get r (lit "ingredients");
        ings ← py_iter (py_or ings0 (PList []));
        b ← ingredient_hit ql ings;
        if b : bool then Ret true
        else
          steps0 ← py_get r (lit "steps");
          steps ← py_iter (py_or steps0 (PList []));
          Ret (step_hit ql steps)
  | _ => Raise AttributeError
  end.

(** [search]; [sample] is the list of recipes that [sample_recipes]
    returns. *)
Definition search (sample : pyval) (q : pystr) : exc pyval :=
  if negb (truthy (PStr q)) then Ret sample
  else
    l ← py_iter sample;
    out ← filterM (matches (str_lower q)) l;
    Ret (PList out).

Lemma filterM_sublist {A} (p : A -> exc bool) l : forall out,
  filterM p l = Ret out ->
  out `sublist_of` l
  /\ forall x, x ∈ l -> p x = Ret true -> x ∈ out.
Proof.
  induction l as [|x l IH]; intros out H.
  - injection H as <-. split; [constructor|]. intros x Hx. inversion Hx.
  - cbn [filterM] in H. destruct (p x) as [b|] eqn:Ex; [|discriminate H].
    cbn [mbind exc_bind] in H.
    destruct (filterM p l) as [ys|]; [|discriminate H].
    cbn [mbind exc_bind] in H. injection H as <-.
    destruct (IH ys eq_refl) as [Hsub Hall]. split.
    + destruct b; [apply sublist_skip|apply sublist_cons]; exact Hsub.
    + intros y Hy Hp. apply elem_of_cons in Hy as [->|Hy].
      * rewrite Ex in Hp. injection Hp as ->. apply list_elem_of_here.
      * destruct b; [apply list_elem_of_further|]; apply Hall; assumption.
Qed.

(** X25.  An empty query returns all the recipes.  Otherwise what [search]
    returns, when it returns, are the recipes that [matches] accepts for the
    query in lower case, in the order of the file: none is added, none is
    repeated, and a recipe whose title, in lower case, holds the query is
    always among them. *)
Theorem search_result (sample : pyval) (q : pystr) (out : pyval) :
  search sample q = Ret out ->
  (q = [] -> out = sample)
  /\ (q <> [] ->
      exists l found,
        py_iter sample = Ret l /\ out = PList found
        /\ found `sublist_of` l
        /\ (forall r, r ∈ found <-> r ∈ l /\ matches (str_lower q) r = Ret true)
        /\ (forall r d t, r ∈ l -> r = PDict d ->
              dict_get d (lit "title") = PStr t ->
              contains (str_lower q) (str_lower t) = true -> r ∈ found)).
Proof.
  unfold search. intros H. split.
  - intros ->. injection H as <-. reflexivity.
  - intros Hq. assert (Ht : truthy (PStr q) = true)
      by (destruct q; [contradiction|reflexivity]).
    rewrite Ht in H. cbn [negb] in H.
    destruct (py_iter sample) as [l|]; [|discriminate H].
    cbn [mbind exc_bind] in H.
    destruct (filterM (matches (str_lower q)) l) as [found|] eqn:Ef;
      [|discriminate H].
    cbn [mbind exc_bind] in H. injection H as <-.
    destruct (filterM_sublist _ _ _ Ef) as [Hsub Hall].
    pose proof (filterM_spec _ _ _ Ef) as Hspec. rewrite Forall_forall in Hspec.
    exists l, found. split; [reflexivity|]. split; [reflexivity|].
    split; [exact Hsub|]. split.
    + intros r. split.
      * intros Hr. destruct (Hspec r Hr) as [Hm Hin]. auto.
      * intros [Hin Hm]. apply Hall; assumption.
    + intros r d t Hin -> Hd Hc. apply Hall; [exact Hin|].
      unfold matches. cbn [py_get mbind exc_bind]. rewrite Hd.
      unfold py_or. destruct t as [|c t']; cbn [truthy]; rewrite Hc; reflexivity.
Qed.

(** *** /compress-status *)

(** An entry of the index as [compress_recipes] writes it: the id, and the
    two sizes that the statistics read. *)
Record index_entry := {
  eid : pyval;
  sizes : compress_stats.entry
}.

Record index := {
  index_count : pyval;
  index_entries : list index_entry
}.

Record status := {
  count : pyval;
  entries : list index_entry;
  bytes_saved : Z
}.

(** [str(e.get('id')) in wanted] *)
Definition is_wanted (ids : list pystr) (e : index_entry) : exc bool :=
  s ← py_str repr_other (eid e);
  Ret (bool_decide (s ∈ ids)).

Definition compress_status (idx : index) (limit : option Z)
    (ids : option (list pystr)) : exc status :=
  let all_entries := index_entries idx in
  let saved_total := compress_stats.saved_total (map sizes all_entries) in
  entries ← match ids with
            | Some (i :: rest) => filterM (is_wanted (i :: rest)) all_entries
            | _ =>
                match limit with
                | Some n =>
                    Ret (take (Z.to_nat (Z.max 0 (Z.min 5000 n))) all_entries)
                | None => Ret all_entries
                end
            end;
  Ret {| count := index_count idx; entries := entries;
         bytes_saved := saved_total |}.

(** X26.  The listing of /compress-status: the count and the bytes saved
    are those of the whole index, whatever is listed; with ids, the entries
    listed are the ones whose id, as a string, is among them, in the order
    of the index, and the limit is not looked at; without ids a limit lists
    the first entries, at most 5000 of them, and none when it is zero or
    negative. *)
Theorem compress_status_listing (idx : index) (limit : option Z)
    (ids : option (list pystr)) (st : status) :
  compress_status idx limit ids = Ret st ->
  count st = index_count idx
  /\ bytes_saved st = compress_stats.saved_total (map sizes (index_entries idx))
  /\ entries st `sublist_of` index_entries idx
  /\ (forall i rest, ids = Some (i :: rest) ->
        compress_status idx None ids = Ret st
        /\ forall e, e ∈ entries st
                     <-> e ∈ index_entries idx
                         /\ exists s, py_str repr_other (eid e) = Ret s
                                      /\ s ∈ i :: rest)
  /\ (forall n, (ids = None \/ ids = Some []) -> limit = Some n ->
        entries st = take (Z.to_nat n) (take 5000 (index_entries idx))
        /\ (length (entries st) <= 5000)%nat
        /\ ((n <= 0)%Z -> entries st = [])).
Proof.
  unfold compress_status. cbv zeta. intros H.
  match type of H with mbind _ ?m = _ => destruct m as [es|] eqn:Ees end;
    [|discriminate H].
  cbn [mbind exc_bind] in H. injection H as <-. cbn [count bytes_saved entries].
  split; [reflexivity|]. split; [reflexivity|]. split; [|split].
  - destruct ids as [[|i rest]|].
    + destruct limit; injection Ees as <-; [apply sublist_take|reflexivity].
    + apply filterM_sublist in Ees as [Hs _]. exact Hs.
    + destruct limit; injection Ees as <-; [apply sublist_take|reflexivity].
  - intros i rest ->. split; [rewrite Ees; reflexivity|].
    assert (Hw : forall e, is_wanted (i :: rest) e = Ret true
                 <-> exists s, py_str repr_other (eid e) = Ret s
                               /\ s ∈ i :: rest).
    { intros e. unfold is_wanted.
      destruct (py_str repr_other (eid e)) as [s|x]; cbn [mbind exc_bind].
      - split.
        + intros He. exists s. split; [reflexivity|].
          injection He as He. apply bool_decide_eq_true in He. exact He.
        + intros (s' & Hs' & Hin). injection Hs' as <-. f_equal.
          apply bool_decide_eq_true. exact Hin.
      - split; [discriminate|]. intros (s' & Hs' & _). discriminate Hs'. }
    intros e. split.
    + intros Hin. apply filterM_spec in Ees.
      rewrite Forall_forall in Ees. destruct (Ees e Hin) as [He Hl].
      split; [exact Hl|]. apply Hw. exact He.
    + intros [Hl He]. apply filterM_sublist in Ees as [_ Hall].
      apply Hall; [exact Hl|]. apply Hw. exact He.
  - intros n Hids ->.
    assert (Hes : es = take (Z.to_nat (Z.max 0 (Z.min 5000 n))) (index_entries idx))
      by (destruct Hids as [-> | ->]; injection Ees as <-; reflexivity).
    rewrite Hes. split; [|split].
    + rewrite take_take. f_equal. lia.
    + rewrite length_take. lia.
    + intros Hn. replace (Z.to_nat (Z.max 0 (Z.min 5000 n))) with 0%nat by lia.
      reflexivity.
Qed.

End App.

(** A file of two recipes, the first with a number as its id, and an index
    with an entry for each. *)
Definition two_recipes : pyval :=
  PList [ PDict [ (lit "id", PInt 7); (lit "title", PStr (lit "Pancakes"));
                  (lit "ingredients",
                   PList [ PDict [ (lit "name", PStr (lit "Eggs")) ];
                           PStr (lit "flour") ]) ];
          PDict [ (lit "id", PStr (lit "tea")); (lit "title", PStr (lit "Tea"));
                  (lit "ingredients", PList [ PStr (lit "water") ]) ] ].


Definition no_eggs : MealPlanRequest :=
  {| days := 3; calorie_target := None;
     dietary_restrictions := Some [lit "EGG"] |}.


Lemma mealplan_plan_witness :
  exists plan,
    mealplan ingest.no_text lower two_recipes no_eggs
    = Ok (PDict [ (lit "days", PInt 3); (lit "plan", PList plan) ])
    /\ length plan = 3%nat.
Proof.
  destruct (mealplan ingest.no_text lower two_recipes no_eggs)
    as [out| |] eqn:E; try (vm_compute in E; discriminate E).
  destruct (mealplan_plan ingest.no_text lower two_recipes no_eggs out E)
    as (l & pool & plan & n & _ & _ & _ & -> & -> & _ & Hlen & _).
  exists plan. split; [reflexivity|exact Hlen].
Defined.

Lemma allowed_respects_restrictions_witness :
  allowed ingest.no_text lower no_eggs
    (PDict [ (lit "ingredients",
              PList [ PDict [ (lit "name", PStr (lit "Oat milk")) ] ]) ])
  = Ret true
  /\ contains (lower (lit "EGG")) (lower (lit "Oat milk")) = false.
Proof.
  split; [vm_compute; reflexivity|].
  apply (allowed_respects_restrictions ingest.no_text lower no_eggs
           (PDict [ (lit "ingredients",
                     PList [ PDict [ (lit "name", PStr (lit "Oat milk")) ] ]) ])
           (lit "EGG") (lit "Oat milk") [lit "EGG"]).
  - reflexivity.
  - apply list_elem_of_here.
  - vm_compute. reflexivity.
  - exists (PList [ PDict [ (lit "name", PStr (lit "Oat milk")) ] ]),
      [ PDict [ (lit "name", PStr (lit "Oat milk")) ] ],
      [ (lit "name", PStr (lit "Oat milk")) ].
    split; [reflexivity|]. split; [reflexivity|].
    split; [apply list_elem_of_here|]. split; [reflexivity|discriminate].
Defined.

Lemma search_result_witness :
  exists r,
    search ingest.no_text lower two_recipes (lit "PAN") = Ret (PList [r])
    /\ matches ingest.no_text lower (lower (lit "PAN")) r = Ret true.
Proof.
  destruct (search ingest.no_text lower two_recipes (lit "PAN")) as [out|] eqn:E;
    [|vm_compute in E; discriminate E].
  destruct (search_result ingest.no_text lower two_recipes (lit "PAN") out E)
    as [_ H].
  destruct H as (l & found & _ & -> & _ & Hiff & _); [discriminate|].
  vm_compute in E. injection E as E.
  destruct found as [|r [|r' found']]; try discriminate E.
  exists r. split; [reflexivity|].
  apply Hiff. apply list_elem_of_here.
Defined.

Definition three_entries : index :=
  {| index_count := PInt 3;
     index_entries :=
       [ {| eid := PInt 7;
            sizes := {| compress_stats.orig_len := Some 100%Z;
                        compress_stats.compressed_len := Some 40%Z |} |};
         {| eid := PStr (lit "tea");
            sizes := {| compress_stats.orig_len := Some 50%Z;
                        compress_stats.compressed_len := Some 60%Z |} |};
         {| eid := PStr (lit "soup");
            sizes := {| compress_stats.orig_len := None;
                        compress_stats.compressed_len := None |} |} ] |}.

Lemma compress_status_listing_witness :
  exists st,
    compress_status ingest.no_text three_entries (Some (-1)%Z) None = Ret st
    /\ entries st = [] /\ bytes_saved st = 50%Z /\ count st = PInt 3.
Proof.
  destruct (compress_status ingest.no_text three_entries (Some (-1)%Z) None)
    as [st|] eqn:E; [|vm_compute in E; discriminate E].
  destruct (compress_status_listing ingest.no_text three_entries (Some (-1)%Z)
              None st E) as (Hc & Hb & _ & _ & Hl).
  destruct (Hl (-1)%Z) as (_ & _ & Hn); [left; reflexivity|reflexivity|].
  exists st. split; [reflexivity|]. split; [apply Hn; lia|].
  split; [rewrite Hb; reflexivity|exact Hc].
Defined.


(** *** The statistics of an index written with the local backend *)

(** The sizes of an entry of the index, as the statistics read them: an
    integer, or nothing. *)
Definition int_field (e : pyval) (k : string) : option Z :=
  match scaledown_client.field e k with
  | Some (PInt z) => Some z
  | _ => None
  end.

Definition sizes_of (e : pyval) : compress_stats.entry :=
  {| compress_stats.orig_len := int_field e "orig_len";
     compress_stats.compressed_len := int_field e "compressed_len" |}.

(** X28.  On the entries that [compress_recipes] writes with the local
    backend the filter of the statistics leaves nothing out: the bytes
    saved are the sum of [orig_len - compressed_len] over all the
    entries. *)
Theorem bytes_saved_of_measured_entries (es : list pyval) :
  Forall compress_recipes.measured_entry es ->
  compress_stats.bytes_saved (map sizes_of es)
  = compress_stats.sum
      (map (fun e => (default 0 (int_field e "orig_len")
                      - default 0 (int_field e "compressed_len"))%Z) es)
  /\ Forall (fun e => compress_stats.has_orig_len (sizes_of e) = true) es.
Proof.
  intros H.
  assert (Hall : Forall (fun e => compress_stats.has_orig_len (sizes_of e) = true) es).
  { eapply Forall_impl; [exact H|].
    intros e (olen & clen & _ & Ho & _ & Hlen & _).
    unfold compress_stats.has_orig_len, sizes_of, int_field. cbn. rewrite Ho.
    destruct (Z.eqb_spec olen 0); [lia|reflexivity]. }
  split; [|exact Hall]. unfold compress_stats.bytes_saved.
  f_equal. clear H. induction Hall as [|e es He _ IH]; [reflexivity|].
  rewrite fmap_cons, filter_cons_True by exact He. cbn [map]. rewrite <- IH.
  f_equal. unfold compress_stats.saving. rewrite !compress_stats.or0_default.
  reflexivity.
Qed.

Lemma bytes_saved_of_measured_entries_witness :
  compress_stats.bytes_saved
    (map sizes_of
       [ PDict [ (lit "method", PStr (lit "simulated"));
                 (lit "orig_len", PInt 12); (lit "compressed_len", PInt 20) ] ])
  = (-8)%Z.
Proof.
  destruct (bytes_saved_of_measured_entries
              [ PDict [ (lit "method", PStr (lit "simulated"));
                        (lit "orig_len", PInt 12);
                        (lit "compressed_len", PInt 20) ] ]) as [H _].
  - repeat constructor. exists 12%Z, 20%Z. repeat split; try reflexivity; lia.
  - rewrite H. reflexivity.
Defined.


(** *** /grocery *)

Section Grocery.

Variable repr_other : pyval -> exc pystr.
Variable str_lower : pystr -> pystr.
Variable recipes : pyval.
(** [a + b] for the quantities of two ingredients. *)
Variable py_add : pyval -> pyval -> exc pyval.

(** An item of the grocery list. *)
Record item := {
  name : pyval;
  quantity : pyval;
  unit : pyval
}.

(** The dictionary [items]: the keys with their items, in the order in
    which the keys were put in. *)
Abbreviation basket := (list (pystr * item)).

Fixpoint basket_lookup (k : pystr) (b : basket) : option item :=
  match b with
  | [] => None
  | (k', it) :: b' => if pystr_eqb k' k then Some it else basket_lookup k b'
  end.

(** [items[key]['quantity'] = q] *)
Fixpoint set_quantity (k : pystr) (q : pyval) (b : basket) : basket :=
  match b with
  | [] => []
  | (k', it) :: b' =>
      if pystr_eqb k' k
      then (k', {| name := name it; quantity := q; unit := unit it |}) :: b'
      else (k', it) :: set_quantity k q b'
  end.

(** [str(v).strip().lower()] *)
Definition item_key (v : pyval) : exc pystr :=
  s ← py_str repr_other v;
  Ret (str_lower (strip s)).

(** The two branches of the loop over the ingredients of a recipe: an
    ingredient that is a record, and any other. *)
Definition add_record (b : basket) (d : list (pystr * pyval)) : exc basket :=
  let nm := py_or (dict_get d (lit "name"))
              (py_or (dict_get d (lit "raw")) (PStr [])) in
  let qty := dict_get d (lit "quantity") in
  let un := dict_get d (lit "unit") in
  key ← item_key nm;
  match basket_lookup key b with
  | None =>
      Ret (b ++ [(key, {| name := nm; quantity := py_or qty (PInt 0);
                          unit := un |})])
  | Some it =>
      if truthy qty then
        match py_add (py_or (quantity it) (PInt 0)) qty with
        | Ret q => Ret (set_quantity key q b)
        | Raise _ => Ret b
        end
      else Ret b
  end.

Definition add_plain (b : basket) (ing : pyval) : exc basket :=
  key ← item_key ing;
  match basket_lookup key b with
  | None =>
      s ← py_str repr_other ing;
      Ret (b ++ [(key, {| name := PStr s; quantity := PNone; unit := PNone |})])
  | Some _ => Ret b
  end.

Definition add_ingredient (b : basket) (ing : pyval) : exc basket :=
  match ing with
  | PDict d => add_record b d
  | _ => add_plain b ing
  end.

Fixpoint add_ingredients (b : basket) (ings : list pyval) : exc basket :=
  match ings with
  | [] => Ret b
  | ing :: rest => b1 ← add_ingredient b ing; add_ingredients b1 rest
  end.

(** The body of the loop over the recipe ids. *)
Definition add_recipe (b : basket) (rid : pystr) : exc basket :=
  found ← get_recipe_by_id repr_other recipes rid;
  match found with
  | None => Ret b
  | Some r =>
      if negb (truthy r) then Ret b
      else
        ings ← py_get_or r (lit "ingredients") (PList []);
        l ← py_iter ings;
        add_ingredients b l
  end.

Fixpoint add_recipes (b : basket) (rids : list pystr) : exc basket :=
  match rids with
  | [] => Ret b
  | rid :: rest => b1 ← add_recipe b rid; add_recipes b1 rest
  end.

Definition grocery (recipe_ids : list pystr) : exc (list item) :=
  b ← add_recipes [] recipe_ids;
  Ret (map snd b).

(** What stays of an entry of the basket once it is there: the key, the
    name and the unit. *)
Definition shape (e : pystr * item) : pystr * pyval * pyval :=
  (e.1, name e.2, unit e.2).

(** The keys are distinct, and each is the key of the name of its item. *)
Definition well_keyed (b : basket) : Prop :=
  NoDup (map fst b) /\ Forall (fun e => item_key (name e.2) = Ret e.1) b.

Lemma basket_lookup_none k b : basket_lookup k b = None -> k ∉ map fst b.
Proof.
  induction b as [|[k' it] b IH]; cbn [basket_lookup map fst].
  - intros _ H. inversion H.
  - unfold pystr_eqb. destruct (bool_decide_reflect (k' = k)) as [->|Hne];
      [discriminate|].
    intros H Hin. apply elem_of_cons in Hin as [Heq|Hin]; [congruence|].
    exact (IH H Hin).
Qed.

Lemma set_quantity_shape k q b : map shape (set_quantity k q b) = map shape b.
Proof.
  induction b as [|[k' it] b IH]; [reflexivity|]. cbn [set_quantity].
  destruct (pystr_eqb k' k); cbn [map]; [reflexivity|]. rewrite IH. reflexivity.
Qed.

Lemma well_keyed_shape b b' :
  map shape b' = map shape b -> well_keyed b -> well_keyed b'.
Proof.
  intros Hs [Hnd Hk]. split.
  - replace (map fst b') with (map (fun s : pystr * pyval * pyval => s.1.1) (map shape b'))
      by (rewrite map_map; reflexivity).
    rewrite Hs, map_map. exact Hnd.
  - apply Forall_forall. intros e He.
    assert (Hin : shape e ∈ map shape b)
      by (rewrite <- Hs; apply list_elem_of_fmap; eauto).
    apply list_elem_of_fmap in Hin as (e0 & Heq & Hin0).
    rewrite Forall_forall in Hk. specialize (Hk e0 Hin0).
    unfold shape in Heq. injection Heq as H1 H2 _. rewrite H1, H2. exact Hk.
Qed.

Lemma add_ingredient_spec b ing b' :
  add_ingredient b ing = Ret b' -> well_keyed b ->
  well_keyed b' /\ map shape b `prefix_of` map shape b'.
Proof.
  assert (Hnew : forall key it,
            basket_lookup key b = None -> item_key (name it) = Ret key ->
            well_keyed b ->
            well_keyed (b ++ [(key, it)])
            /\ map shape b `prefix_of` map shape (b ++ [(key, it)])).
  { intros key it Hl Hkey [Hnd Hk]. split; [split|].
    - rewrite map_app. apply NoDup_app. split; [exact Hnd|]. split.
      + intros x Hx Hx'. apply list_elem_of_singleton in Hx'. subst x.
        exact (basket_lookup_none _ _ Hl Hx).
      + apply NoDup_singleton.
    - apply Forall_app. split; [exact Hk|]. constructor; [exact Hkey|constructor].
    - rewrite map_app. apply prefix_app_r. reflexivity. }
  assert (Hsame : well_keyed b ->
            well_keyed b /\ map shape b `prefix_of` map shape b)
    by (intros Hw; split; [exact Hw|reflexivity]).
  intros H Hw.
  assert (Hplain : add_plain b ing = Ret b' ->
            well_keyed b' /\ map shape b `prefix_of` map shape b').
  { clear H. unfold add_plain. intros H.
    destruct (item_key ing) as [key|] eqn:Ek; [|discriminate H].
    cbn [mbind exc_bind] in H.
    destruct (basket_lookup key b) eqn:El; [injection H as <-; auto|].
    destruct (py_str repr_other ing) as [s|] eqn:Es; [|discriminate H].
    cbn [mbind exc_bind] in H. injection H as <-.
    apply Hnew; [exact El| |exact Hw].
    unfold item_key in Ek |- *. rewrite Es in Ek. exact Ek. }
  destruct ing as [| | | | | |d]; try (apply Hplain; exact H).
  clear Hplain. cbn [add_ingredient] in H. unfold add_record in H. cbv zeta in H.
  destruct (item_key _) as [key|] eqn:Ek; [|discriminate H].
  cbn [mbind exc_bind] in H.
  destruct (basket_lookup key b) as [it|] eqn:El.
  - destruct (truthy (dict_get d (lit "quantity"))); [|injection H as <-; auto].
    destruct (py_add _ _) as [q|]; injection H as <-; [|auto].
    pose proof (set_quantity_shape key q b) as Hs. split.
    + exact (well_keyed_shape _ _ Hs Hw).
    + rewrite Hs. reflexivity.
  - injection H as <-. apply Hnew; [exact El|exact Ek|exact Hw].
Qed.

Lemma add_ingredients_spec ings : forall b b',
  add_ingredients b ings = Ret b' -> well_keyed b ->
  well_keyed b' /\ map shape b `prefix_of` map shape b'.
Proof.
  induction ings as [|ing ings IH]; intros b b' H Hw.
  - injection H as <-. split; [exact Hw|reflexivity].
  - cbn [add_ingredients] in H.
    destruct (add_ingredient b ing) as [b1|] eqn:E1; [|discriminate H].
    cbn [mbind exc_bind] in H.
    destruct (add_ingredient_spec _ _ _ E1 Hw) as [Hw1 Hp1].
    destruct (IH _ _ H Hw1) as [Hw' Hp']. split; [exact Hw'|].
    etransitivity; eassumption.
Qed.

Lemma add_recipes_spec rids : forall b b',
  add_recipes b rids = Ret b' -> well_keyed b ->
  well_keyed b' /\ map shape b `prefix_of` map shape b'.
Proof.
  induction rids as [|rid rids IH]; intros b b' H Hw.
  - injection H as <-. split; [exact Hw|reflexivity].
  - cbn [add_recipes] in H.
    destruct (add_recipe b rid) as [b1|] eqn:E1; [|discriminate H].
    cbn [mbind exc_bind] in H.
    assert (H1 : well_keyed b1 /\ map shape b `prefix_of` map shape b1).
    { unfold add_recipe in E1.
      destruct (get_recipe_by_id repr_other recipes rid) as [[r|]|];
        cbn [mbind exc_bind] in E1; try discriminate E1.
      - destruct (truthy r); cbn [negb] in E1;
          [|injection E1 as <-; split; [exact Hw|reflexivity]].
        destruct (py_get_or r (lit "ingredients") (PList [])) as [ings|];
          [|discriminate E1].
        cbn [mbind exc_bind] in E1.
        destruct (py_iter ings) as [l|]; [|discriminate E1].
        cbn [mbind exc_bind] in E1.
        exact (add_ingredients_spec _ _ _ E1 Hw).
      - injection E1 as <-. split; [exact Hw|reflexivity]. }
    destruct H1 as [Hw1 Hp1].
    destruct (IH _ _ H Hw1) as [Hw' Hp']. split; [exact Hw'|].
    etransitivity; eassumption.
Qed.

Lemma add_recipes_app l1 l2 b :
  add_recipes b (l1 ++ l2) = (b1 ← add_recipes b l1; add_recipes b1 l2).
Proof.
  revert b. induction l1 as [|rid l1 IH]; intros b; [reflexivity|].
  cbn [app add_recipes]. destruct (add_recipe b rid) as [b1|]; [|reflexivity].
  cbn [mbind exc_bind]. apply IH.
Qed.

(** X29.  The grocery list has one item for each key, the key of an
    ingredient being its name (or the ingredient itself) as a string,
    stripped and in lower case: the keys of the names of the items are
    pairwise distinct.  An item keeps the place, the name and the unit that
    its first occurrence gave it: asking for more recipes adds items at the
    end and changes quantities only, whatever the units of the later
    occurrences are. *)
Theorem grocery_items (recipe_ids : list pystr) (g : list item) :
  grocery recipe_ids = Ret g ->
  (exists keys,
      ingest.mapM (fun it => item_key (name it)) g = Ret keys /\ NoDup keys)
  /\ forall more g',
       grocery (recipe_ids ++ more) = Ret g' ->
       map (fun it => (name it, unit it)) g
         `prefix_of` map (fun it => (name it, unit it)) g'.
Proof.
  unfold grocery. intros H.
  destruct (add_recipes [] recipe_ids) as [b|] eqn:Eb; [|discriminate H].
  cbn [mbind exc_bind] in H. injection H as <-.
  assert (Hw0 : well_keyed []) by (split; constructor).
  destruct (add_recipes_spec _ _ _ Eb Hw0) as [[Hnd Hk] _]. split.
  - exists (map fst b). split; [|exact Hnd].
    clear -Hk. induction Hk as [|[k it] b Hx _ IH]; [reflexivity|].
    cbn [map ingest.mapM snd fst] in *. rewrite Hx. cbn [mbind exc_bind].
    rewrite IH. reflexivity.
  - intros more g' H'. rewrite add_recipes_app, Eb in H'.
    cbn [mbind exc_bind] in H'.
    destruct (add_recipes b more) as [b'|] eqn:Eb'; [|discriminate H'].
    cbn [mbind exc_bind] in H'. injection H' as <-.
    destruct (add_recipes_spec _ _ _ Eb' (conj Hnd Hk)) as [_ [tail Ht]].
    exists (map (fun s : pystr * pyval * pyval => (s.1.2, s.2)) tail).
    assert (Hconv : forall x : basket,
              map (fun it => (name it, unit it)) (map snd x)
              = map (fun s : pystr * pyval * pyval => (s.1.2, s.2)) (map shape x))
      by (intros x; rewrite !map_map; reflexivity).
    rewrite !Hconv, Ht, map_app. reflexivity.
Qed.

End Grocery.

(** Two recipes that both use flour, by the cup and by the gram. *)
Definition flour_twice : pyval :=
  PList [ PDict [ (lit "id", PStr (lit "a"));
                  (lit "ingredients",
                   PList [ PDict [ (lit "name", PStr (lit "Flour"));
                                   (lit "quantity", PInt 2);
                                   (lit "unit", PStr (lit "cup")) ] ]) ];
          PDict [ (lit "id", PStr (lit "b"));
                  (lit "ingredients",
                   PList [ PDict [ (lit "name", PStr (lit " flour"));
                                   (lit "quantity", PInt 100);
                                   (lit "unit", PStr (lit "gram")) ] ]) ] ].

(** Addition, on integers only. *)
Definition int_add (a b : pyval) : exc pyval :=
  match a, b with
  | PInt x, PInt y => Ret (PInt (x + y))
  | _, _ => Raise TypeError
  end.

Lemma grocery_items_witness :
  grocery ingest.no_text lower flour_twice int_add [lit "a"; lit "b"]
  = Ret [ {| name := PStr (lit "Flour"); quantity := PInt 102;
             unit := PStr (lit "cup") |} ]
  /\ exists keys,
       ingest.mapM (fun it => item_key ingest.no_text lower (name it))
         [ {| name := PStr (lit "Flour"); quantity := PInt 102;
              unit := PStr (lit "cup") |} ] = Ret keys
       /\ NoDup keys.
Proof.
  assert (H : grocery ingest.no_text lower flour_twice int_add [lit "a"; lit "b"]
              = Ret [ {| name := PStr (lit "Flour"); quantity := PInt 102;
                         unit := PStr (lit "cup") |} ])
    by (vm_compute; reflexivity).
  split; [exact H|].
  exact (proj1 (grocery_items ingest.no_text lower flour_twice int_add
                  [lit "a"; lit "b"] _ H)).
Defined.

(** *** The cached index ([load_compressed_index]) *)

(** What the data directory shows to one call: no index file, or the file
    and what [json.load] makes of it.  The directory is taken not to change
    during a call. *)
Definition index_file : Type := option (exc pyval).

Definition empty_index : pyval :=
  PDict [ (lit "count", PInt 0); (lit "entries", PList []) ].

(** [load_compressed_index()].  The global [_COMPRESSED_INDEX_CACHE] is the
    state, [None] as long as nothing is cached; the result of the call and
    the new state are returned.  The object returned is the cached one, and
    no handler changes it. *)
Definition load_compressed_index (file : index_file) (cache : pyval)
  : exc pyval * pyval :=
  match cache with
  | PNone =>
      match file with
      | None => (Ret empty_index, empty_index)
      | Some (Ret data) => (Ret data, data)
      | Some (Raise e) => (Raise e, cache)
      end
  | _ => (Ret cache, cache)
  end.

(** The calls of one run of the server, in their order, each with what the
    directory shows to it. *)
Fixpoint load_calls (files : list index_file) (cache : pyval)
  : list (exc pyval) :=
  match files with
  | [] => []
  | file :: rest =>
      let '(r, cache') := load_compressed_index file cache in
      r :: load_calls rest cache'
  end.

(** X30.  The index is read once: after a call of [load_compressed_index]
    that returned an index (anything but None), every later call of the run
    returns that same index, whatever the index file has become; in
    particular the empty index of a missing file stays.  A call that raises
    has found nothing cached and a file that could not be loaded, and
    caches nothing. *)
Theorem load_compressed_index_once (file : index_file) (cache cache' : pyval)
    (r : exc pyval) :
  load_compressed_index file cache = (r, cache') ->
  (forall v, r = Ret v -> v <> PNone ->
     forall later, load_calls later cache' = map (fun _ => Ret v) later)
  /\ (file = None -> cache = PNone -> r = Ret empty_index)
  /\ (forall e, r = Raise e ->
        cache = PNone /\ cache' = PNone /\ file = Some (Raise e)).
Proof.
  intros H. split; [|split].
  - intros v -> Hv later.
    assert (Hc : cache' = v).
    { unfold load_compressed_index in H.
      destruct cache; try (injection H as <- <-; reflexivity).
      destruct file as [[d|e]|]; [| discriminate H |];
        injection H as <- <-; reflexivity. }
    subst cache'. induction later as [|f later IH]; [reflexivity|].
    cbn [load_calls map].
    assert (Hl : load_compressed_index f v = (Ret v, v))
      by (destruct v; try reflexivity; contradiction Hv; reflexivity).
    rewrite Hl. f_equal. exact IH.
  - intros -> ->. injection H as <- _. reflexivity.
  - intros e ->. unfold load_compressed_index in H.
    destruct cache; try discriminate H.
    destruct file as [[d|e']|]; try discriminate H.
    injection H as <- <-. auto.
Qed.

(** No index file at the first request, then a file of one entry, then a
    broken file. *)
Definition late_index : list index_file :=
  [ Some (Ret (PDict [ (lit "count", PInt 1);
                       (lit "entries", PList [PDict [(lit "id", PStr (lit "tea"))]]) ]));
    Some (Raise JSONDecodeError) ].

Lemma load_compressed_index_once_witness :
  load_compressed_index None PNone = (Ret empty_index, empty_index)
  /\ load_calls late_index empty_index = [Ret empty_index; Ret empty_index].
Proof.
  split; [reflexivity|].
  exact (proj1 (load_compressed_index_once None PNone empty_index
                  (Ret empty_index) eq_refl)
           empty_index eq_refl ltac:(discriminate) late_index).
Defined.

End main.
